(** * Service placement and request routing strategies of IcarusEdgeSim

    A shallow embedding of [icarus/models/strategy/service.py]: the five
    strategies COORDINATED, LRU, HYBRID, MFU and SDF, with the properties
    of their routing, admission and replacement code.

    Modelling conventions.
    - Times, delays and utilisations are Python floats; they are read here
      as exact rationals ([Q]).  [float('inf')] is the extra value [Inf]
      of [xQ].  Counters (VMs, requests) are Python ints ([Z]).
    - Nodes, services and flows are numbered ([nat]).  The per-service and
      per-node tables ([numberOfServiceInstances], [serviceNodeUtil], ...)
      are rectangular lists allocated for [range(num_services)] and for the
      node ids; they are read as total maps, so an out-of-range index is not
      represented.  [rcv_index r] stands for [int(r[4:])] on a receiver name.
    - The strategy object and the compute spots it shares with the view
      form one [World].  The view, the topology, the configuration and the
      methods of the collaborators that are not part of this file
      (ComputeSpot, scheduler, controller) are the fields of an [Env].
    - Every call that leaves the strategy (on the controller, on a compute
      spot) is appended to [trace], with its arguments; so is each
      invocation of a replacement pass and each unconditional [print].
      Output guarded by [self.debug] is not modelled.
    - [raise] and [sys.exit] are the [Raise] results of [result].  So are
      the failures of the interpreter that the topology or a call can
      cause: the KeyError of [self.compSpots[n]] off the service nodes, the
      AttributeError of using [view.compSpot(node)] at a node without
      compute spot, the IndexError of [path[1]], the ZeroDivisionError of a
      zero interval and the TypeError of a call with the wrong number of
      arguments. *)

From Stdlib Require Import String ZArith QArith Qround Qabs List Bool Lia Lqa Permutation Sorted.
Import ListNotations.

Local Open Scope Z_scope.

(* ================================================================= *)
(** ** Numbers *)

Definition qlt (a b : Q) : bool := negb (Qle_bool b a).
Definition qle (a b : Q) : bool := Qle_bool a b.

(** A float that may be [float('inf')]. *)
Inductive xQ : Type :=
| Fin (q : Q)
| Inf.

Definition xlt (a b : xQ) : bool :=
  match a, b with
  | Fin x, Fin y => qlt x y
  | Fin _, Inf => true
  | Inf, _ => false
  end.

Definition xadd (a : xQ) (d : Q) : xQ :=
  match a with
  | Fin x => Fin (x + d)
  | Inf => Inf
  end.

(** [a / n] for a count [n] that the caller has checked to be positive. *)
Definition xdiv (a : xQ) (n : Z) : xQ :=
  match a with
  | Fin x => Fin (x / inject_Z n)
  | Inf => Inf
  end.

(** [range(n)]: empty when [n <= 0]. *)
Definition py_range (n : Z) : list Z := map Z.of_nat (seq 0 (Z.to_nat n)).

(** Python 3 [round]: to the nearest integer, ties to the even one. *)
Definition round_half_even (x : Q) : Z :=
  let f := Qfloor (x + (1 # 2)) in
  if Qeq_bool (inject_Z f) (x + (1 # 2)) && Z.odd f then f - 1 else f.

(** Python 2 [round]: to the nearest integer, ties away from zero. *)
Definition round_half_away (x : Q) : Z :=
  if Qle_bool 0 x then Qfloor (x + (1 # 2)) else Qceiling (x - (1 # 2)).

(* ================================================================= *)
(** ** Lists and tables *)

Definition upd {A : Type} (f : nat -> A) (k : nat) (v : A) : nat -> A :=
  fun x => if Nat.eqb x k then v else f x.

Definition upd2 {A : Type} (f : nat -> nat -> A) (i k : nat) (v : A)
  : nat -> nat -> A :=
  upd f i (upd (f i) k v).

Definition upd3 {A : Type} (f : nat -> nat -> nat -> A) (i j k : nat) (v : A)
  : nat -> nat -> nat -> A :=
  upd f i (upd2 (f i) j k v).

(** [sorted(l, key=...)]: a stable sort.  [insert_by leb x l] puts [x]
    before the first element that [x] may precede, so elements that compare
    equal keep the order they had in the input. *)
Fixpoint insert_by {A : Type} (leb : A -> A -> bool) (x : A) (l : list A)
  : list A :=
  match l with
  | [] => [x]
  | y :: l' => if leb x y then x :: l else y :: insert_by leb x l'
  end.

Definition sorted_by {A : Type} (leb : A -> A -> bool) (l : list A) : list A :=
  fold_right (insert_by leb) [] l.

(** [key=lambda x: x[1]] and the same with [reverse=True]. *)
Definition by_snd_asc (x y : nat * Q) : bool := qle (snd x) (snd y).
Definition by_snd_desc (x y : nat * Q) : bool := qle (snd y) (snd x).

(* ================================================================= *)
(** ** Exceptions *)

(** A Python value passed positionally to [ComputeSpot.reassign_vm], or
    returned by [controller.put_content]. *)
Inductive pyval : Type :=
| PNone
| PService (s : nat)
| PBool (b : bool)
| PController.

(** [TypeError callee args]: [callee] was called with the positional
    arguments [args], which its parameters do not take. *)
Inductive exn : Type :=
| ValueError (msg : string)
| SystemExit (msg : string)
| IndexError
| AttributeError
| ZeroDivisionError
| KeyError
| TypeError (callee : string) (args : list pyval).

Inductive result (A : Type) : Type :=
| Ok (a : A)
| Raise (e : exn).
Arguments Ok {A} a.
Arguments Raise {A} e.

Definition bind {A B : Type} (r : result A) (k : A -> result B) : result B :=
  match r with
  | Ok a => k a
  | Raise e => Raise e
  end.

Notation "'do' x <- r ; k" := (bind r (fun x => k))
  (at level 10, x pattern, r at level 100, k at level 200).

Fixpoint foldM {A B : Type} (f : A -> B -> result A) (l : list B) (a : A)
  : result A :=
  match l with
  | [] => Ok a
  | b :: l' => do a' <- f a b; foldM f l' a'
  end.

(** [path[1]] *)
Definition second (path : list nat) : result nat :=
  match nth_error path 1 with
  | Some n => Ok n
  | None => Raise IndexError
  end.

(* ================================================================= *)
(** ** Data model *)

(** Status codes and admission results are plain ints in the source. *)
Definition REQUEST : Z := 0.
Definition RESPONSE : Z := 1.
Definition TASK_COMPLETE : Z := 2.

Definition DEADLINE_MISSED : Z := 0.
Definition CONGESTION : Z := 1.
Definition SUCCESS : Z := 2.
Definition CLOUD : Z := 3.
Definition NO_INSTANCES : Z := 4.

Module Service.
(** Modelled from the spec: the Service record of the catalog (the class is
    not part of service.py), [{service_id, service_time, deadline}]; the id
    is the index in the catalog. *)
Record t : Type := mk { service_time : Q; deadline : Q }.
End Service.

Module Task.
(** Modelled from the spec: the Task record (imported from
    icarus.models.service), with the attribute names service.py uses and the
    fields in the order of the constructor call of line 120,
    [Task(time, deadline, rtt_delay, node, service, service_time, flow_id,
    receiver, arrival_time)].  [oid] is the identity of the Python object:
    [list.remove] finds a task by it.  [completionTime] is written by the
    scheduler. *)
Record t : Type := mk {
  oid : nat;
  time : Q;
  expiry : Q;
  rtt_delay : Q;
  node : nat;
  service : nat;
  service_time : Q;
  flow_id : nat;
  receiver : nat;
  arrivalTime : Q;
  completionTime : Q
}.

Definition set_completionTime (c : Q) (k : t) : t :=
  mk (oid k) (time k) (expiry k) (rtt_delay k) (node k) (service k)
     (service_time k) (flow_id k) (receiver k) (arrivalTime k) c.
End Task.

(** Modelled from the spec: the attributes of the scheduler and of the
    compute spot that service.py reads and writes; both classes live
    outside service.py. *)
Record Scheduler : Type := mkScheduler {
  _taskQueue : list Task.t;
  upcomingTaskQueue : list Task.t;
  idleTime : Q
}.

(** Modelled from the spec: the compute spot, [{node, is_cloud, num_VMs,
    service_population_size, services, service_instances, scheduler,
    running_requests, missed_requests}], under the attribute names of
    service.py. *)
Record ComputeSpot : Type := mkComputeSpot {
  cs_node : nat;
  is_cloud : bool;
  numOfVMs : Z;
  service_population_size : Z;
  numberOfServiceInstances : nat -> Z;
  running_requests : nat -> Z;
  missed_requests : nat -> Z;
  cs_services : nat -> Service.t;
  scheduler : Scheduler
}.

Definition set_instances (f : nat -> Z) (cs : ComputeSpot) : ComputeSpot :=
  mkComputeSpot (cs_node cs) (is_cloud cs) (numOfVMs cs)
    (service_population_size cs) f (running_requests cs) (missed_requests cs)
    (cs_services cs) (scheduler cs).

Definition set_running_requests (f : nat -> Z) (cs : ComputeSpot) : ComputeSpot :=
  mkComputeSpot (cs_node cs) (is_cloud cs) (numOfVMs cs)
    (service_population_size cs) (numberOfServiceInstances cs) f
    (missed_requests cs) (cs_services cs) (scheduler cs).

Definition set_missed_requests (f : nat -> Z) (cs : ComputeSpot) : ComputeSpot :=
  mkComputeSpot (cs_node cs) (is_cloud cs) (numOfVMs cs)
    (service_population_size cs) (numberOfServiceInstances cs)
    (running_requests cs) f (cs_services cs) (scheduler cs).

Definition set_scheduler (s : Scheduler) (cs : ComputeSpot) : ComputeSpot :=
  mkComputeSpot (cs_node cs) (is_cloud cs) (numOfVMs cs)
    (service_population_size cs) (numberOfServiceInstances cs)
    (running_requests cs) (missed_requests cs) (cs_services cs) s.

Definition set_idleTime (x : Q) (cs : ComputeSpot) : ComputeSpot :=
  set_scheduler
    (mkScheduler (_taskQueue (scheduler cs)) (upcomingTaskQueue (scheduler cs)) x)
    cs.

Definition set_upcoming (q : list Task.t) (cs : ComputeSpot) : ComputeSpot :=
  set_scheduler
    (mkScheduler (_taskQueue (scheduler cs)) q (idleTime (scheduler cs))) cs.

(** The calls recorded in the trace. *)
Inductive call : Type :=
| replacement_interval_over (flow_id : nat) (interval time : Q)
| start_session (time : Q) (receiver service : nat) (log : bool)
    (flow_id : nat) (deadline : Q)
| end_session (success : bool) (time : Q) (flow_id : nat)
| add_event (time : Q) (receiver service node flow_id : nat)
    (deadline rtt_delay : Q) (status : Z)
| execute_service (flow_id service node : nat) (time : Q) (cloud : bool)
| put_content (node service : nat)
| get_content (node service : nat)
| controller_reassign_vm (node : nat) (serviceToReplace : option nat)
    (servicesToAdd : list nat)
| cs_admit_task (node service : nat) (time : Q) (flow_id : nat)
    (deadline : Q) (receiver : nat) (rtt_delay : Q)
| cs_schedule (node : nat) (time : Q)
| cs_reassign_vm (node : nat) (args : list pyval)
| replacement_pass (time : Q)
| print (msg : string).

(** The strategy object (all five classes keep [last_replacement];
    [serviceNodeUtil] and [numVMsPerService] belong to COORDINATED,
    the two deadline metrics to HYBRID, MFU and SDF), the compute spots and
    the trace.  [next_oid] numbers the Task objects created so far,
    [rng_pos] the draws taken from [random.random]. *)
Record World : Type := mkWorld {
  last_replacement : Q;
  serviceNodeUtil : nat -> nat -> nat -> Q;
  numVMsPerService : nat -> nat -> Z;
  deadline_metric : nat -> nat -> xQ;
  cand_deadline_metric : nat -> nat -> xQ;
  next_oid : nat;
  rng_pos : nat;
  compSpots : nat -> ComputeSpot;
  trace : list call
}.

Definition set_last_replacement (x : Q) (w : World) : World :=
  mkWorld x (serviceNodeUtil w) (numVMsPerService w) (deadline_metric w)
    (cand_deadline_metric w) (next_oid w) (rng_pos w) (compSpots w) (trace w).

Definition set_serviceNodeUtil (u : nat -> nat -> nat -> Q) (w : World) : World :=
  mkWorld (last_replacement w) u (numVMsPerService w) (deadline_metric w)
    (cand_deadline_metric w) (next_oid w) (rng_pos w) (compSpots w) (trace w).

Definition set_numVMsPerService (v : nat -> nat -> Z) (w : World) : World :=
  mkWorld (last_replacement w) (serviceNodeUtil w) v (deadline_metric w)
    (cand_deadline_metric w) (next_oid w) (rng_pos w) (compSpots w) (trace w).

Definition set_deadline_metric (m : nat -> nat -> xQ) (w : World) : World :=
  mkWorld (last_replacement w) (serviceNodeUtil w) (numVMsPerService w) m
    (cand_deadline_metric w) (next_oid w) (rng_pos w) (compSpots w) (trace w).

Definition set_cand_deadline_metric (m : nat -> nat -> xQ) (w : World) : World :=
  mkWorld (last_replacement w) (serviceNodeUtil w) (numVMsPerService w)
    (deadline_metric w) m (next_oid w) (rng_pos w) (compSpots w) (trace w).

Definition set_next_oid (n : nat) (w : World) : World :=
  mkWorld (last_replacement w) (serviceNodeUtil w) (numVMsPerService w)
    (deadline_metric w) (cand_deadline_metric w) n (rng_pos w) (compSpots w)
    (trace w).

Definition set_rng_pos (n : nat) (w : World) : World :=
  mkWorld (last_replacement w) (serviceNodeUtil w) (numVMsPerService w)
    (deadline_metric w) (cand_deadline_metric w) (next_oid w) n (compSpots w)
    (trace w).

Definition set_compSpots (c : nat -> ComputeSpot) (w : World) : World :=
  mkWorld (last_replacement w) (serviceNodeUtil w) (numVMsPerService w)
    (deadline_metric w) (cand_deadline_metric w) (next_oid w) (rng_pos w) c
    (trace w).

Definition set_trace (t : list call) (w : World) : World :=
  mkWorld (last_replacement w) (serviceNodeUtil w) (numVMsPerService w)
    (deadline_metric w) (cand_deadline_metric w) (next_oid w) (rng_pos w)
    (compSpots w) t.

Definition log (c : call) (w : World) : World := set_trace (trace w ++ [c]) w.

Definition set_spot (node : nat) (cs : ComputeSpot) (w : World) : World :=
  set_compSpots (upd (compSpots w) node cs) w.

(** The read-only surroundings of a strategy.  The methods of the compute
    spots and of the controller that return something or change a compute
    spot see the whole [World] (so also the calls made so far) and give back
    their result and the compute spots as they leave them. *)
Record Env : Type := mkEnv {
  (* View *)
  content_source : nat -> nat;
  shortest_path : nat -> nat -> list nat;
  path_delay : nat -> nat -> Q;
  link_delay : nat -> nat -> Q;
  services : nat -> Service.t;
  num_services : nat;
  has_computationalSpot : nat -> bool;
  has_service : World -> nat -> nat -> bool;
  service_nodes : list nat;
  (* topology *)
  receivers : list nat;
  rcv_index : nat -> nat;
  depth : nat -> Z;
  height : Z;
  (* constructor arguments *)
  replacement_interval : Q;
  p : Q;
  n_replacements : Z;
  debug : bool;
  (* builtins *)
  py_round : Q -> Z;
  random_random : nat -> Q;
  (* ComputeSpot, scheduler and controller *)
  admit_task : World -> nat -> nat -> Q -> nat -> Q -> nat -> Q
               -> (bool * Z) * (nat -> ComputeSpot);
  schedule : World -> nat -> Q -> option Task.t * (nat -> ComputeSpot);
  reassign_vm : World -> nat -> list pyval -> nat -> ComputeSpot;
  projected_completion : World -> nat -> Q -> nat -> Q;
  put_content_result : World -> nat -> nat -> pyval
}.

(* ================================================================= *)
(** ** Calls on the collaborators

    Each is recorded in the trace; the callee then sees the world with that
    record in it. *)

(** [compSpot.scheduler.schedule(time)] at [node]. *)
Definition call_schedule (e : Env) (node : nat) (time : Q) (w : World)
  : option Task.t * World :=
  let w1 := log (cs_schedule node time) w in
  let '(r, spots) := schedule e w1 node time in
  (r, set_compSpots spots w1).

(** [compSpot.admit_task(service, time, flow_id, deadline, receiver,
    rtt_delay, self.controller, self.debug)] at [node]. *)
Definition call_admit_task (e : Env) (node service : nat) (time : Q)
  (flow_id : nat) (deadline : Q) (receiver : nat) (rtt_delay : Q) (w : World)
  : (bool * Z) * World :=
  let w1 :=
    log (cs_admit_task node service time flow_id deadline receiver rtt_delay) w in
  let '(r, spots) :=
    admit_task e w1 node service time flow_id deadline receiver rtt_delay in
  (r, set_compSpots spots w1).

(** [cs.reassign_vm(...)] at [node], with the positional arguments as the
    call site writes them. *)
Definition call_reassign_vm (e : Env) (node : nat) (args : list pyval)
  (w : World) : World :=
  let w1 := log (cs_reassign_vm node args) w in
  set_compSpots (reassign_vm e w1 node args) w1.

(** [self.controller.put_content(node, service)]; returns the evicted
    service. *)
Definition call_put_content (e : Env) (node service : nat) (w : World)
  : pyval * World :=
  let w1 := log (put_content node service) w in
  (put_content_result e w1 node service, w1).

(** [time - self.last_replacement > self.replacement_interval], the test
    every [process_event] starts with. *)
Definition replacement_due (e : Env) (time : Q) (w : World) : bool :=
  qlt (replacement_interval e) (time - last_replacement w).

(** [compSpot = self.view.compSpot(node)] when the node has one, [None]
    otherwise; using [None] as a compute spot is an AttributeError. *)
Definition need_compSpot (e : Env) (node : nat) : result unit :=
  if has_computationalSpot e node then Ok tt else Raise AttributeError.

(** [self.compSpots[n]] in COORDINATED: [self.compSpots] is the dictionary
    [view.service_nodes()], whose keys are the service nodes; another key is
    a KeyError. *)
Definition need_service_node (e : Env) (n : nat) : result unit :=
  if existsb (Nat.eqb n) (service_nodes e) then Ok tt else Raise KeyError.

(** [compSpot.reassign_vm] has the parameters (controller, from, to, debug),
    the form of lines 455, 580, 827 and 1056; a call with another number of
    positional arguments is a TypeError, raised before the method runs. *)
Definition call_reassign_vm_checked (e : Env) (node : nat) (args : list pyval)
  (w : World) : result World :=
  match args with
  | [_; _; _; _] => Ok (call_reassign_vm e node args w)
  | _ => Raise (TypeError "reassign_vm" args)
  end.

(* ================================================================= *)
(** ** COORDINATED *)

Module Coordinated.

(** [__init__], lines 55-69: the VMs of a spot are dealt round-robin over
    the first [service_population_size] services, and the snapshot
    [numVMsPerService] follows. *)
Definition deal_vm (cs : ComputeSpot) (st : (nat -> Z) * (nat -> nat -> Z))
  (vm : Z) : (nat -> Z) * (nat -> nat -> Z) :=
  let '(inst, snap) := st in
  let serv := Z.to_nat (vm mod service_population_size cs) in
  let inst' := upd inst serv (inst serv + 1) in
  (inst', upd2 snap (cs_node cs) serv (inst' serv)).

Definition init_spot (e : Env) (w : World) (node : nat) : result World :=
  let cs := compSpots w node in
  if is_cloud cs then Ok w
  else
    let zeroed :=
      fold_left (fun f serv => upd f serv 0) (seq 0 (num_services e))
        (numberOfServiceInstances cs) in
    if (0 <? numOfVMs cs) && (service_population_size cs =? 0)
    then Raise ZeroDivisionError
    else
      let '(inst, snap) :=
        fold_left (deal_vm cs) (py_range (numOfVMs cs))
          (zeroed, numVMsPerService w) in
      Ok (set_numVMsPerService snap (set_spot node (set_instances inst cs) w)).

Definition init (e : Env) (spots : nat -> ComputeSpot) : result World :=
  foldM (init_spot e) (service_nodes e)
    (mkWorld 0 (fun _ _ _ => 0%Q) (fun _ _ => 0) (fun _ _ => Fin 0)
       (fun _ _ => Fin 0) 0%nat 0%nat spots []).

Definition is_receiver_index (e : Env) (ap : nat) : bool :=
  existsb (fun recv => Nat.eqb (rcv_index e recv) ap) (receivers e).

Definition initialise_metrics (e : Env) (w : World) : World :=
  let w1 :=
    fold_left (fun w node => set_spot node (set_idleTime 0 (compSpots w node)) w)
      (service_nodes e) w in
  set_serviceNodeUtil
    (fun ap n s =>
       if is_receiver_index e ap then 0%Q else serviceNodeUtil w1 ap n s)
    w1.

(* ----------------------------------------------------------------- *)
(** *** find_topmost_feasible_node *)

(** Modelled from the spec: [compute_completion_times] is a method of the
    compute spot, not part of service.py; it refreshes the projected
    completion time of each queued task.  The model takes from
    [projected_completion] the completion time of the task at each position
    of [_taskQueue + upcomingTaskQueue] and writes it into that task. *)
Definition refresh (proj : nat -> Q) (start : nat) (q : list Task.t)
  : list Task.t :=
  map (fun it => Task.set_completionTime (proj (fst it)) (snd it))
      (combine (seq start (length q)) q).

Definition compute_completion_times (e : Env) (w : World) (node : nat)
  (time : Q) : World :=
  let cs := compSpots w node in
  let sch := scheduler cs in
  let proj := projected_completion e w node time in
  set_spot node
    (set_scheduler
       (mkScheduler (refresh proj 0 (_taskQueue sch))
          (refresh proj (length (_taskQueue sch)) (upcomingTaskQueue sch))
          (idleTime sch))
       cs)
    w.

(** [list.remove(aTask)]: drops the first occurrence of the object;
    ValueError when there is none. *)
Fixpoint remove_task (o : nat) (q : list Task.t) : option (list Task.t) :=
  match q with
  | [] => None
  | k :: q' =>
      if Nat.eqb (Task.oid k) o then Some q'
      else option_map (cons k) (remove_task o q')
  end.

Definition by_arrival (a b : Task.t) : bool :=
  qle (Task.arrivalTime a) (Task.arrivalTime b).

Definition violates (delay : Q) (k : Task.t) : bool :=
  qlt (Task.expiry k - delay) (Task.completionTime k).

(** Lines 111-119: the three tests that let the loop pass over a node,
    in the order of the source, on the compute spot [cs] that line 110 has
    looked up in [self.compSpots]; the lookup itself is made in [probe],
    which fails there when [n] is not a service node. *)
Definition candidate (e : Env) (receiver : nat) (time : Q) (service : nat)
  (deadline rtt_delay : Q) (n : nat) (w : World) : bool :=
  let cs := compSpots w n in
  negb (is_cloud cs)
  && negb (numberOfServiceInstances cs service =? 0)
  && negb (qlt (deadline - time - (rtt_delay + 2 * path_delay e receiver n))
               (Service.service_time (cs_services cs service))).

(** Line 120: the Task object created for node [n]. *)
Definition tentative (e : Env) (receiver flow_id : nat) (time : Q)
  (service : nat) (deadline rtt_delay : Q) (n : nat) (w : World) : Task.t :=
  let delay := path_delay e receiver n in
  Task.mk (next_oid w) time deadline (rtt_delay + 2 * delay) n service
    (Service.service_time (cs_services (compSpots w n) service)) flow_id
    receiver (time + delay) 0.

(** Lines 121-123: the task is appended to the upcoming queue of [n], the
    queue is sorted by arrival time and the completion times are
    recomputed. *)
Definition probed (e : Env) (receiver flow_id : nat) (time : Q)
  (service : nat) (deadline rtt_delay : Q) (n : nat) (w : World) : World :=
  let cs := compSpots w n in
  let aTask := tentative e receiver flow_id time service deadline rtt_delay n w in
  compute_completion_times e
    (set_spot n
       (set_upcoming
          (sorted_by by_arrival (upcomingTaskQueue (scheduler cs) ++ [aTask]))
          cs)
       (set_next_oid (S (next_oid w)) w))
    n time.

(** What one round of the loop of lines 109-137 does at node [n]; line 110
    looks the node up in [self.compSpots]. *)
Inductive probe_outcome : Type :=
| Skipped
| Rejected (w : World)
| Accepted (w : World).

Definition probe (e : Env) (receiver flow_id : nat) (time : Q) (service : nat)
  (deadline rtt_delay : Q) (n : nat) (w : World) : result probe_outcome :=
  do _ <- need_service_node e n;
  if candidate e receiver time service deadline rtt_delay n w then
    let delay := path_delay e receiver n in
    let aTask := tentative e receiver flow_id time service deadline rtt_delay n w in
    let w3 := probed e receiver flow_id time service deadline rtt_delay n w in
    let sch := scheduler (compSpots w3 n) in
    if existsb (violates delay) (_taskQueue sch ++ upcomingTaskQueue sch)
    then
      match remove_task (Task.oid aTask) (upcomingTaskQueue sch) with
      | Some q => Ok (Rejected (set_spot n (set_upcoming q (compSpots w3 n)) w3))
      | None => Raise (ValueError "list.remove(x): x not in list")
      end
    else Ok (Accepted w3)
  else Ok Skipped.

(** [for n in reversed(path[1:-1])]; [source] is returned when the loop
    runs out. *)
Fixpoint probe_loop (e : Env) (receiver flow_id : nat) (time : Q)
  (service : nat) (deadline rtt_delay : Q) (source : nat) (nodes : list nat)
  (w : World) : result (nat * World) :=
  match nodes with
  | [] => Ok (source, w)
  | n :: nodes' =>
      do o <- probe e receiver flow_id time service deadline rtt_delay n w;
      match o with
      | Skipped =>
          probe_loop e receiver flow_id time service deadline rtt_delay source
            nodes' w
      | Rejected w' =>
          probe_loop e receiver flow_id time service deadline rtt_delay source
            nodes' w'
      | Accepted w' => Ok (n, w')
      end
  end.

Definition find_topmost_feasible_node (e : Env) (receiver flow_id : nat)
  (path : list nat) (time : Q) (service : nat) (deadline rtt_delay : Q)
  (w : World) : result (nat * World) :=
  let source := content_source e service in
  probe_loop e receiver flow_id time service deadline rtt_delay source
    (rev (removelast (tl path))) w.

(* ----------------------------------------------------------------- *)
(** *** replace_services *)

(** Lines 191-193: the accumulators of receiver [recv] for [service] are
    cleared on [path[1:]] of its path to [node]. *)
Definition zero_path (e : Env) (node service recv : nat)
  (u : nat -> nat -> nat -> Q) : nat -> nat -> nat -> Q :=
  fold_left (fun u n => upd3 u (rcv_index e recv) n service 0%Q)
    (tl (shortest_path e recv node)) u.

(** Lines 186-193 and 217-224. *)
Definition zero_contributors (e : Env) (node service : nat)
  (u : nat -> nat -> nat -> Q) : nat -> nat -> nat -> Q :=
  fold_left
    (fun u recv =>
       if Qeq_bool (u (rcv_index e recv) node service) 0 then u
       else zero_path e node service recv u)
    (receivers e) u.

(** Lines 162-171: the score of [service] at [node]. *)
Definition service_util (e : Env) (u : nat -> nat -> nat -> Q)
  (node service : nat) : Q :=
  fold_left
    (fun acc recv =>
       let x := u (rcv_index e recv) node service in
       if Qeq_bool x 0 then acc
       else
         let service_obj := services e service in
         if qlt (2 * path_delay e recv node + Service.service_time service_obj)
                (Service.deadline service_obj)
         then (acc + x)%Q else acc)
    (receivers e) 0%Q.

Definition service_utils_sorted (e : Env) (u : nat -> nat -> nat -> Q)
  (node : nat) : list (nat * Q) :=
  sorted_by by_snd_desc
    (map (fun s => (s, service_util e u node s)) (seq 0 (num_services e))).

(** The local state of the placement at one node: the instance vector,
    [remaining_vms] and the accumulators. *)
Record placement : Type := mkPlacement {
  inst : nat -> Z;
  remaining_vms : Z;
  util : nat -> nat -> nat -> Q
}.

(** Lines 183-200. *)
Fixpoint first_pass (e : Env) (node : nat) (l : list (nat * Q))
  (st : placement) : placement :=
  match l with
  | [] => st
  | (service, ut) :: l' =>
      let num_vms := py_round e (ut / replacement_interval e) in
      let u1 :=
        if (0 <? remaining_vms st) && (0 <? num_vms)
        then zero_contributors e node service (util st) else util st in
      let k := Z.min num_vms (remaining_vms st) in
      let st1 := mkPlacement (upd (inst st) service k) (remaining_vms st - k) u1 in
      if remaining_vms st1 =? 0 then st1 else first_pass e node l' st1
  end.

(** Lines 203-228: one round of the [for] inside the [while]; the boolean
    is [newAddition]. *)
Fixpoint top_up_round (e : Env) (node : nat) (l : list (nat * Q))
  (st : placement * bool) : placement * bool :=
  match l with
  | [] => st
  | (service, ut) :: l' =>
      let '(s, added) := st in
      let st1 :=
        if 0 <? inst s service
        then (mkPlacement (upd (inst s) service (inst s service + 1))
                (remaining_vms s - 1) (util s), true)
        else
          let num_vms :=
            Z.min (Qceiling (ut / replacement_interval e)) (remaining_vms s) in
          if 0 <? num_vms
          then (mkPlacement (upd (inst s) service num_vms)
                  (remaining_vms s - num_vms)
                  (zero_contributors e node service (util s)), true)
          else (s, added) in
      if remaining_vms (fst st1) =? 0 then st1 else top_up_round e node l' st1
  end.

(** Lines 201-230: the [while remaining_vms > 0].  A round that adds
    something lowers [remaining_vms], so [fuel] rounds are enough when
    [fuel] is at least [remaining_vms]. *)
Fixpoint top_up (e : Env) (node : nat) (l : list (nat * Q)) (fuel : nat)
  (st : placement) : placement :=
  match fuel with
  | O => st
  | S fuel' =>
      if 0 <? remaining_vms st
      then
        let '(st1, added) := top_up_round e node l (st, false) in
        if added then top_up e node l fuel' st1 else st1
      else st
  end.

(** Lines 160-230 for one node.  A replacement interval of zero makes the
    first division of line 184 fail. *)
Definition place_services (e : Env) (w : World) (node : nat) : result World :=
  let cs := compSpots w node in
  let l := service_utils_sorted e (serviceNodeUtil w) node in
  match l with
  | [] => Ok w
  | _ :: _ =>
      if Qeq_bool (replacement_interval e) 0 then Raise ZeroDivisionError
      else
        let st0 :=
          mkPlacement (numberOfServiceInstances cs) (numOfVMs cs)
            (serviceNodeUtil w) in
        let st1 := first_pass e node l st0 in
        let st2 := top_up e node l (Z.to_nat (remaining_vms st1)) st1 in
        Ok (set_serviceNodeUtil (util st2)
              (set_spot node (set_instances (inst st2) cs) w))
  end.

Definition zero_instances (e : Env) (cs : ComputeSpot) : ComputeSpot :=
  set_instances
    (fold_left (fun f service => upd f service 0) (seq 0 (num_services e))
       (numberOfServiceInstances cs))
    cs.

(** Lines 148-230 for one value of [height]. *)
Definition replace_at_height (e : Env) (w : World) (h : Z) : result World :=
  let nodes :=
    filter (fun node =>
              negb (is_cloud (compSpots w node)) && (depth e node =? h))
      (service_nodes e) in
  let w1 :=
    fold_left (fun w node => set_spot node (zero_instances e (compSpots w node)) w)
      nodes w in
  foldM (place_services e) nodes w1.

(** Lines 238-246: the diff of one service against the snapshot.
    [range(diff)] is what the source iterates over in both branches. *)
Definition diff_service (cs : ComputeSpot)
  (st : (nat -> nat -> Z) * list nat * list nat) (service : nat)
  : (nat -> nat -> Z) * list nat * list nat :=
  let '(snap, servicesToAdd, servicesToReplace) := st in
  let diff := numberOfServiceInstances cs service - snap (cs_node cs) service in
  let snap' := upd2 snap (cs_node cs) service (numberOfServiceInstances cs service) in
  if 0 <? diff
  then (snap', servicesToAdd ++ map (fun _ => service) (py_range diff),
        servicesToReplace)
  else if diff <? 0
  then (snap', servicesToAdd,
        servicesToReplace ++ map (fun _ => service) (py_range diff))
  else (snap', servicesToAdd, servicesToReplace).

(** Lines 232-250 for one node. *)
Definition report_node (e : Env) (w : World) (node : nat) : World :=
  let cs := compSpots w node in
  if is_cloud cs then w
  else
    let '(snap, servicesToAdd, servicesToReplace) :=
      fold_left (diff_service cs) (seq 0 (num_services e))
        (numVMsPerService w, [], []) in
    fold_left
      (fun w indx =>
         log (controller_reassign_vm node (nth_error servicesToReplace indx)
                servicesToAdd) w)
      (seq 0 (length servicesToAdd))
      (set_numVMsPerService snap w).

Definition replace_services (e : Env) (time : Q) (w : World) : result World :=
  do w1 <- foldM (replace_at_height e) (py_range (height e + 1)) w;
  Ok (fold_left (report_node e) (service_nodes e) w1).

(* ----------------------------------------------------------------- *)
(** *** process_event *)

(** Lines 265-270. *)
Definition periodic (e : Env) (time : Q) (flow_id : nat) (w : World)
  : result World :=
  if replacement_due e time w
  then
    let w1 :=
      log (replacement_interval_over flow_id (replacement_interval e) time) w in
    do w2 <- replace_services e time (log (replacement_pass time) w1);
    Ok (initialise_metrics e (set_last_replacement time w2))
  else Ok w.

(** Lines 288-292: the demand of the request is added at every compute
    node of [path[1:]] that is not the cloud.  [self.view.compSpot(n)] is
    [None] at a node without compute spot, and [cs.is_cloud] fails there. *)
Definition account (e : Env) (receiver service : nat) (path : list nat)
  (w : World) : result World :=
  foldM
    (fun w n =>
       do _ <- need_compSpot e n;
       if is_cloud (compSpots w n) then Ok w
       else
         let ap := rcv_index e receiver in
         Ok (set_serviceNodeUtil
               (upd3 (serviceNodeUtil w) ap n service
                  (serviceNodeUtil w ap n service
                   + Service.service_time (services e service))%Q)
               w))
    (tl path) w.

(** Lines 302-305 and 322-325. *)
Definition run_next (e : Env) (node : nat) (time : Q) (w : World) : World :=
  let '(newTask, w1) := call_schedule e node time w in
  match newTask with
  | Some k =>
      let compSpot := compSpots w1 node in
      log (execute_service (Task.flow_id k) (Task.service k) (cs_node compSpot)
             time (is_cloud compSpot))
        (log (add_event (Task.completionTime k) (Task.receiver k)
                (Task.service k) (cs_node compSpot) (Task.flow_id k)
                (Task.expiry k) (Task.rtt_delay k) TASK_COMPLETE) w1)
  | None => w1
  end.

Definition handle (e : Env) (time : Q) (receiver service : nat) (log_ : bool)
  (node flow_id : nat) (deadline rtt_delay : Q) (status : Z) (w : World)
  : result World :=
  let source := content_source e service in
  if Nat.eqb receiver node && (status =? REQUEST) then
    let w1 :=
      log (start_session time receiver service log_ flow_id deadline) w in
    let path := shortest_path e node source in
    do r <- find_topmost_feasible_node e receiver flow_id path time service
              deadline rtt_delay w1;
    let '(upstream_node, w2) := r in
    let delay := path_delay e node upstream_node in
    let rtt_delay := (rtt_delay + delay * 2)%Q in
    let w3 :=
      if negb (Nat.eqb upstream_node source)
      then log (add_event (time + delay) receiver service upstream_node flow_id
                  deadline rtt_delay REQUEST) w2
      else
        let serviceTime := Service.service_time (services e service) in
        log (add_event (time + rtt_delay + serviceTime) receiver service
               receiver flow_id deadline rtt_delay RESPONSE) w2 in
    account e receiver service path w3
  else if (status =? REQUEST) && negb (Nat.eqb node source) then
    do _ <- need_compSpot e node;
    let compSpot := compSpots w node in
    if existsb (fun thisTask => Nat.eqb (Task.flow_id thisTask) flow_id)
         (upcomingTaskQueue (scheduler compSpot))
    then Ok (run_next e node time w)
    else Raise (ValueError
                  "No task with the given flow id in the upcomingTaskQueue")
  else if status =? TASK_COMPLETE then
    do _ <- need_compSpot e node;
    let w1 := run_next e node time w in
    let delay := path_delay e node receiver in
    Ok (log (add_event (time + delay) receiver service receiver flow_id
               deadline rtt_delay RESPONSE) w1)
  else if (status =? RESPONSE) && Nat.eqb node receiver then
    Ok (log (end_session true time flow_id) w)
  else
    Raise (SystemExit "Unexpected request in Coordinated strategy").

Definition process_event (e : Env) (time : Q) (receiver content : nat)
  (log_ : bool) (node flow_id : nat) (deadline rtt_delay : Q) (status : Z)
  (w : World) : result World :=
  do w1 <- periodic e time flow_id w;
  handle e time receiver content log_ node flow_id deadline rtt_delay status w1.

End Coordinated.

(* ================================================================= *)
(** ** LRU *)

Module Lru.

Definition initialise_metrics (e : Env) (w : World) : World :=
  fold_left
    (fun w node =>
       set_spot node
         (set_idleTime 0
            (set_missed_requests (fun _ => 0)
               (set_running_requests (fun _ => 0) (compSpots w node))))
         w)
    (service_nodes e) w.

(** Lines 381-385: LRU has no replacement pass of its own. *)
Definition periodic (e : Env) (time : Q) (flow_id : nat) (w : World) : World :=
  if replacement_due e time w
  then
    let w1 :=
      log (replacement_interval_over flow_id (replacement_interval e) time) w in
    initialise_metrics e (set_last_replacement time w1)
  else w.

(** Lines 448-455: what is done on NO_INSTANCES before the request is
    passed on. *)
Definition install (e : Env) (time : Q) (service node : nat)
  (deadline rtt_delay delay : Q) (w : World) : result World :=
  let compSpot := compSpots w node in
  if qlt (deadline - time - rtt_delay - 2 * delay)
         (Service.service_time (cs_services compSpot service))
  then
    let '(evicted, w1) := call_put_content e node service w in
    call_reassign_vm_checked e node
      [PController; PController; evicted; PService service; PBool (debug e)] w1
  else
    let '(chosen, w1) :=
      if Qeq_bool (p e) 1 then (true, w)
      else (qle (random_random e (rng_pos w)) (p e),
            set_rng_pos (S (rng_pos w)) w) in
    if chosen
    then
      let '(evicted, w2) := call_put_content e node service w1 in
      call_reassign_vm_checked e node
        [PController; evicted; PService service; PBool (debug e)] w2
    else Ok w1.

(** Lines 441-459. *)
Definition handle_request (e : Env) (time : Q) (receiver service : nat)
  (node flow_id : nat) (deadline rtt_delay : Q) (w : World) : result World :=
  let source := content_source e service in
  let path := shortest_path e node source in
  do next_node <- second path;
  let delay := path_delay e node next_node in
  let '((ret, reason), w1) :=
    call_admit_task e node service time flow_id deadline receiver rtt_delay w in
  if negb ret then
    do w2 <-
      (if reason =? NO_INSTANCES
       then install e time service node deadline rtt_delay delay w1
       else Ok w1);
    let rtt_delay := (rtt_delay + 2 * delay)%Q in
    Ok (log (add_event (time + delay) receiver service next_node flow_id
               deadline rtt_delay REQUEST) w2)
  else Ok (log (get_content node service) w1).

Definition handle (e : Env) (time : Q) (receiver service : nat) (log_ : bool)
  (node flow_id : nat) (deadline rtt_delay : Q) (status : Z) (w : World)
  : result World :=
  let source := content_source e service in
  if Nat.eqb receiver node && (status =? REQUEST) then
    let w1 :=
      log (start_session time receiver service log_ flow_id deadline) w in
    let path := shortest_path e node source in
    do next_node <- second path;
    let delay := path_delay e node next_node in
    let rtt_delay := (rtt_delay + delay * 2)%Q in
    Ok (log (add_event (time + delay) receiver service next_node flow_id
               deadline rtt_delay REQUEST) w1)
  else if negb (has_computationalSpot e node) && negb (status =? RESPONSE) then
    if Nat.eqb node source
    then Ok (log (print "Error: reached the source node: ") w)
    else
      let path := shortest_path e node source in
      do next_node <- second path;
      let delay := link_delay e node next_node in
      Ok (log (add_event (time + delay) receiver service next_node flow_id
                 deadline (rtt_delay + 2 * delay)%Q REQUEST) w)
  else if status =? RESPONSE then
    if Nat.eqb node receiver
    then Ok (log (end_session true time flow_id) w)
    else
      let path := shortest_path e node receiver in
      do next_node <- second path;
      let delay := link_delay e node next_node in
      Ok (log (add_event (time + delay) receiver service next_node flow_id
                 deadline rtt_delay RESPONSE) w)
  else if status =? TASK_COMPLETE then
    let '(task, w1) := call_schedule e node time w in
    let w2 :=
      match task with
      | Some k =>
          let compSpot := compSpots w1 node in
          log (execute_service (Task.flow_id k) (Task.service k)
                 (cs_node compSpot) time (is_cloud compSpot))
            (log (add_event (Task.completionTime k) (Task.receiver k)
                    (Task.service k) node (Task.flow_id k) (Task.expiry k)
                    (Task.rtt_delay k) TASK_COMPLETE) w1)
      | None => w1
      end in
    let path := shortest_path e node receiver in
    do next_node <- second path;
    let delay := link_delay e node next_node in
    let path_delay_ := path_delay e node receiver in
    let w3 :=
      if qlt deadline (time + path_delay_) && negb (Nat.eqb node source)
      then log (print "LRU missed a deadline for flow: ") w2 else w2 in
    Ok (log (add_event (time + delay) receiver service next_node flow_id
               deadline rtt_delay RESPONSE) w3)
  else if status =? REQUEST then
    handle_request e time receiver service node flow_id deadline rtt_delay w
  else Ok w.

Definition process_event (e : Env) (time : Q) (receiver content : nat)
  (log_ : bool) (node flow_id : nat) (deadline rtt_delay : Q) (status : Z)
  (w : World) : result World :=
  handle e time receiver content log_ node flow_id deadline rtt_delay status
    (periodic e time flow_id w).

End Lru.

(* ================================================================= *)
(** ** HYBRID *)

Definition xle (a b : xQ) : bool := negb (xlt b a).

(** [if u > interval: u = interval] *)
Definition clip (interval u : Q) : Q := if qlt interval u then interval else u.

Module Hybrid.

Definition initialise_metrics (e : Env) (w : World) : World :=
  fold_left
    (fun w node =>
       let cs := compSpots w node in
       if is_cloud cs then w
       else
         let zero_row (m : nat -> nat -> xQ) :=
           fold_left (fun m s => upd2 m node s (Fin 0)) (seq 0 (num_services e)) m in
         set_cand_deadline_metric (zero_row (cand_deadline_metric w))
           (set_deadline_metric (zero_row (deadline_metric w))
              (set_spot node
                 (set_idleTime 0
                    (set_missed_requests (fun _ => 0)
                       (set_running_requests (fun _ => 0) cs)))
                 w)))
    (service_nodes e) w.

(** The lists and the [delay] dictionary that lines 526-563 build at a
    node; [residual] is [self.deadline_metric[node]], which the loop
    overwrites through its alias [runningServiceResidualTimes]. *)
Record scores : Type := mkScores {
  running_services_utilisation_normalised : list (nat * Q);
  missed_services_utilisation : list (nat * Q);
  delay : nat -> xQ;
  residual : nat -> xQ;
  complaints : list call
}.

Definition score_service (e : Env) (cs : ComputeSpot) (cand : nat -> xQ)
  (sc : scores) (service : nat) : scores :=
  let st := Service.service_time (cs_services cs service) in
  let n := numberOfServiceInstances cs service in
  if n =? 0 then
    let d_metric :=
      if 0 <? missed_requests cs service
      then xdiv (cand service) (missed_requests cs service) else Inf in
    let u_metric :=
      clip (replacement_interval e) (inject_Z (missed_requests cs service) * st) in
    mkScores (running_services_utilisation_normalised sc)
      (missed_services_utilisation sc ++ [(service, u_metric)])
      (upd (delay sc) service d_metric) (residual sc) (complaints sc)
  else if 0 <? n then
    let d_metric :=
      if 0 <? running_requests cs service
      then xdiv (residual sc service) (running_requests cs service) else Inf in
    let u_metric_missed :=
      clip (replacement_interval e)
        (inject_Z (missed_requests cs service) * st * 1) in
    let u_metric_served :=
      (1 * inject_Z (running_requests cs service) * st / inject_Z n)%Q in
    mkScores
      (running_services_utilisation_normalised sc
         ++ [(service, (u_metric_served / inject_Z n)%Q)])
      (missed_services_utilisation sc ++ [(service, u_metric_missed)])
      (upd (delay sc) service d_metric)
      (upd (residual sc) service d_metric) (complaints sc)
  else
    mkScores (running_services_utilisation_normalised sc)
      (missed_services_utilisation sc) (delay sc) (residual sc)
      (complaints sc ++ [print "This should not happen"]).

(** Lines 571-585: one missed service against the running entries, in
    order.  [seen] are the entries already passed. *)
Inductive scan_result : Type :=
| ExitLoop
| Reassign (service_running : nat) (rest : list (nat * Q))
| NoMatch.

Fixpoint scan (delay : nat -> xQ) (service_missed : nat) (missed_util : Q)
  (seen running : list (nat * Q)) : scan_result :=
  match running with
  | [] => NoMatch
  | (service_running, running_util) :: running' =>
      if qlt missed_util running_util then ExitLoop
      else if Nat.eqb service_running service_missed
      then scan delay service_missed missed_util
             (seen ++ [(service_running, running_util)]) running'
      else if qle running_util missed_util
              && xlt (delay service_missed) (delay service_running)
              && xlt (Fin 0) (delay service_missed)
      then Reassign service_running (seen ++ running')
      else scan delay service_missed missed_util
             (seen ++ [(service_running, running_util)]) running'
  end.

(** Lines 567-585. *)
Fixpoint reassign_loop (e : Env) (node : nat) (delay : nat -> xQ)
  (missed running : list (nat * Q)) (w : World) : World :=
  match missed with
  | [] => w
  | (service_missed, missed_util) :: missed' =>
      match scan delay service_missed missed_util [] running with
      | ExitLoop => w
      | Reassign service_running running' =>
          reassign_loop e node delay missed' running'
            (call_reassign_vm e node
               [PController; PService service_running; PService service_missed;
                PBool (debug e)] w)
      | NoMatch => reassign_loop e node delay missed' running w
      end
  end.

Definition score_node (e : Env) (w : World) (node : nat) : scores :=
  fold_left (score_service e (compSpots w node) (cand_deadline_metric w node))
    (seq 0 (num_services e))
    (mkScores [] [] (fun _ => Inf) (deadline_metric w node) []).

Definition replace_node (e : Env) (w : World) (node : nat) : World :=
  let cs := compSpots w node in
  if is_cloud cs then w
  else
    let sc := score_node e w node in
    let w1 :=
      set_trace (trace w ++ complaints sc)
        (set_deadline_metric (upd (deadline_metric w) node (residual sc)) w) in
    reassign_loop e node (delay sc)
      (sorted_by by_snd_desc (missed_services_utilisation sc))
      (sorted_by by_snd_asc (running_services_utilisation_normalised sc))
      w1.

Definition replace_services1 (e : Env) (time : Q) (w : World) : World :=
  fold_left (replace_node e) (service_nodes e) w.

Definition periodic (e : Env) (time : Q) (flow_id : nat) (w : World) : World :=
  if replacement_due e time w
  then
    let w1 :=
      log (replacement_interval_over flow_id (replacement_interval e) time)
        (log (print "Replacement time: ") w) in
    let w2 := replace_services1 e time (log (replacement_pass time) w1) in
    initialise_metrics e (set_last_replacement time w2)
  else w.

(** Lines 627-632, the same in MFU and SDF. *)
Definition at_cloud (e : Env) (time : Q) (receiver service : nat)
  (node flow_id : nat) (deadline rtt_delay : Q) (w : World) : result World :=
  do _ <- need_compSpot e node;
  let '((ret, reason), w1) :=
    call_admit_task e node service time flow_id deadline receiver rtt_delay w in
  if negb ret
  then Raise (ValueError "Task should not be rejected at the cloud.")
  else Ok w1.

(** Lines 635-642, the same in MFU and SDF. *)
Definition at_receiver (e : Env) (time : Q) (receiver service : nat)
  (log_ : bool) (node flow_id : nat) (deadline rtt_delay : Q) (w : World)
  : result World :=
  let source := content_source e service in
  let w1 := log (start_session time receiver service log_ flow_id deadline) w in
  let path := shortest_path e node source in
  do next_node <- second path;
  let delay := path_delay e node next_node in
  let rtt_delay := (rtt_delay + delay * 2)%Q in
  Ok (log (add_event (time + delay) receiver service next_node flow_id
             deadline rtt_delay REQUEST) w1).

(** Lines 674-677, the same in MFU and SDF. *)
Definition forward_response (e : Env) (time : Q) (receiver service : nat)
  (node flow_id : nat) (deadline rtt_delay : Q) (w : World) : result World :=
  let path := shortest_path e node receiver in
  do next_node <- second path;
  let delay := link_delay e node next_node in
  Ok (log (add_event (time + delay) receiver service next_node flow_id
             deadline rtt_delay RESPONSE) w).

Definition bump_missed (node service : nat) (w : World) : World :=
  let cs := compSpots w node in
  set_spot node
    (set_missed_requests
       (upd (missed_requests cs) service (missed_requests cs service + 1)) cs)
    w.

Definition add_cand (node service : nat) (m : Q) (w : World) : World :=
  if qlt 0 m
  then set_cand_deadline_metric
         (upd2 (cand_deadline_metric w) node service
            (xadd (cand_deadline_metric w node service) m)) w
  else w.

Definition add_metric (node service : nat) (m : Q) (w : World) : World :=
  if qlt 0 m
  then set_deadline_metric
         (upd2 (deadline_metric w) node service
            (xadd (deadline_metric w node service) m)) w
  else w.

(** Lines 679-713. *)
Definition handle_request (e : Env) (time : Q) (receiver service : nat)
  (node flow_id : nat) (deadline rtt_delay : Q) (w : World) : result World :=
  let source := content_source e service in
  let path := shortest_path e node source in
  do next_node <- second path;
  let delay := path_delay e node next_node in
  do _ <- need_compSpot e node;
  let compSpot := compSpots w node in
  let deadline_metric :=
    (deadline - time - rtt_delay
     - Service.service_time (cs_services compSpot service))%Q in
  if has_service e w node service then
    let '((ret, reason), w1) :=
      call_admit_task e node service time flow_id deadline receiver rtt_delay w in
    if negb ret then
      let rtt_delay := (rtt_delay + delay * 2)%Q in
      Ok (add_cand node service deadline_metric
            (log (add_event (time + delay) receiver service next_node flow_id
                    deadline rtt_delay REQUEST) w1))
    else Ok (add_metric node service deadline_metric w1)
  else
    let rtt_delay := (rtt_delay + delay * 2)%Q in
    Ok (add_cand node service deadline_metric
          (log (add_event (time + delay) receiver service next_node flow_id
                  deadline rtt_delay REQUEST) w)).

(** Lines 661-677. *)
Definition handle_task_complete (e : Env) (time : Q) (receiver service : nat)
  (node flow_id : nat) (deadline rtt_delay : Q) (w : World) : result World :=
  let source := content_source e service in
  do w2 <-
    (if negb (Nat.eqb node source) then
       do _ <- need_compSpot e node;
       let '(task, w1) := call_schedule e node time w in
       match task with
       | Some k =>
           let compSpot := compSpots w1 node in
           let w2 :=
             log (execute_service (Task.flow_id k) (Task.service k)
                    (cs_node compSpot) time (is_cloud compSpot))
               (log (add_event (Task.completionTime k) (Task.receiver k)
                       (Task.service k) node (Task.flow_id k) (Task.expiry k)
                       (Task.rtt_delay k) TASK_COMPLETE) w1) in
           if qlt (Task.expiry k) (time + path_delay e node (Task.receiver k))
           then Ok (log (print "Error in Hybrid: Time: ") w2)
           else Ok w2
       | None => Ok w1
       end
     else Ok w);
  forward_response e time receiver service node flow_id deadline rtt_delay w2.

Definition handle (e : Env) (time : Q) (receiver service : nat) (log_ : bool)
  (node flow_id : nat) (deadline rtt_delay : Q) (status : Z) (w : World)
  : result World :=
  let source := content_source e service in
  if Nat.eqb source node && (status =? REQUEST) then
    at_cloud e time receiver service node flow_id deadline rtt_delay w
  else if Nat.eqb receiver node && (status =? REQUEST) then
    at_receiver e time receiver service log_ node flow_id deadline rtt_delay w
  else if status =? RESPONSE then
    if Nat.eqb node receiver
    then Ok (log (end_session true time flow_id) w)
    else
      do w1 <- forward_response e time receiver service node flow_id deadline
                 rtt_delay w;
      if qlt deadline (path_delay e node receiver + time)
      then do _ <- need_compSpot e node; Ok (bump_missed node service w1)
      else Ok w1
  else if status =? TASK_COMPLETE then
    handle_task_complete e time receiver service node flow_id deadline
      rtt_delay w
  else if status =? REQUEST then
    handle_request e time receiver service node flow_id deadline rtt_delay w
  else Ok (log (print "Error: unrecognised status value : ") w).

Definition process_event (e : Env) (time : Q) (receiver content : nat)
  (log_ : bool) (node flow_id : nat) (deadline rtt_delay : Q) (status : Z)
  (w : World) : result World :=
  handle e time receiver content log_ node flow_id deadline rtt_delay status
    (periodic e time flow_id w).

End Hybrid.

(* ================================================================= *)
(** ** MFU *)

Module Mfu.

(** The same text as HYBRID's [initialise_metrics]. *)
Definition initialise_metrics (e : Env) (w : World) : World :=
  Hybrid.initialise_metrics e w.

(** Lines 783-798. *)
Definition vms (e : Env) (cs : ComputeSpot) : list (nat * Q) :=
  flat_map
    (fun service =>
       if numberOfServiceInstances cs service =? 0 then []
       else
         let usage_metric :=
           if running_requests cs service =? 0 then 0%Q
           else (inject_Z (running_requests cs service)
                 * Service.service_time (cs_services cs service))%Q in
         [(service, usage_metric)])
    (seq 0 (num_services e)).

(** Lines 800-809. *)
Definition cand_services (e : Env) (cs : ComputeSpot) : list (nat * Q) :=
  flat_map
    (fun service =>
       if missed_requests cs service =? 0 then []
       else [(service,
              (inject_Z (missed_requests cs service)
               * Service.service_time (cs_services cs service))%Q)])
    (seq 0 (num_services e)).

(** Lines 818-832. *)
Fixpoint swap_loop (e : Env) (node : nat) (cands vms : list (nat * Q))
  (indx : nat) (n_replacements : Z) (w : World) : World :=
  match vms with
  | [] => w
  | vm :: vms' =>
      match nth_error cands indx with
      | None => w
      | Some c =>
          if qlt (snd c) (snd vm) then w
          else
            let '(n1, w1) :=
              if negb (Nat.eqb (fst vm) (fst c))
              then (n_replacements - 1,
                    call_reassign_vm e node
                      [PController; PService (fst vm); PService (fst c);
                       PBool (debug e)] w)
              else (n_replacements, w) in
            if (n1 =? 0) || Nat.eqb indx (length cands) then w1
            else swap_loop e node cands vms' (S indx) n1 w1
      end
  end.

Definition replace_node (e : Env) (k : Z) (w : World) (node : nat) : World :=
  let cs := compSpots w node in
  if is_cloud cs then w
  else
    swap_loop e node (sorted_by by_snd_desc (cand_services e cs))
      (sorted_by by_snd_asc (vms e cs)) 0%nat k w.

Definition replace_services (e : Env) (k : Z) (time : Q) (w : World) : World :=
  fold_left (replace_node e k) (service_nodes e) w.

Definition periodic (e : Env) (time : Q) (flow_id : nat) (w : World) : World :=
  if replacement_due e time w
  then
    let w1 :=
      log (replacement_interval_over flow_id (replacement_interval e) time) w in
    let w2 :=
      replace_services e (n_replacements e) time
        (log (replacement_pass time) w1) in
    initialise_metrics e (set_last_replacement time w2)
  else w.

(** Lines 910-943. *)
Definition handle_request (e : Env) (time : Q) (receiver service : nat)
  (node flow_id : nat) (deadline rtt_delay : Q) (w : World) : result World :=
  let source := content_source e service in
  let path := shortest_path e node source in
  do next_node <- second path;
  let delay := path_delay e node next_node in
  do _ <- need_compSpot e node;
  let compSpot := compSpots w node in
  if Qeq_bool deadline 0 then Raise ZeroDivisionError
  else
    let deadline_metric :=
      ((deadline - time - rtt_delay
        - Service.service_time (cs_services compSpot service)) / deadline)%Q in
    if has_service e w node service then
      let '((ret, reason), w1) :=
        call_admit_task e node service time flow_id deadline receiver rtt_delay
          w in
      if negb ret then
        let rtt_delay := (rtt_delay + delay * 2)%Q in
        Ok (Hybrid.add_cand node service deadline_metric
              (log (add_event (time + delay) receiver service next_node flow_id
                      deadline rtt_delay REQUEST) w1))
      else Ok (Hybrid.add_metric node service deadline_metric w1)
    else
      let w1 := Hybrid.bump_missed node service w in
      let rtt_delay := (rtt_delay + delay * 2)%Q in
      Ok (Hybrid.add_cand node service deadline_metric
            (log (add_event (time + delay) receiver service next_node flow_id
                    deadline rtt_delay REQUEST) w1)).

(** Lines 891-907. *)
Definition handle_task_complete (e : Env) (time : Q) (receiver service : nat)
  (node flow_id : nat) (deadline rtt_delay : Q) (w : World) : result World :=
  let source := content_source e service in
  do w2 <-
    (if negb (Nat.eqb node source) then
       do _ <- need_compSpot e node;
       let '(task, w1) := call_schedule e node time w in
       match task with
       | Some k =>
           let compSpot := compSpots w1 node in
           let w2 :=
             log (execute_service (Task.flow_id k) (Task.service k)
                    (cs_node compSpot) time (is_cloud compSpot))
               (log (add_event (Task.completionTime k) (Task.receiver k)
                       (Task.service k) node (Task.flow_id k) (Task.expiry k)
                       (Task.rtt_delay k) TASK_COMPLETE) w1) in
           if qlt (Task.expiry k) (time + path_delay e node (Task.receiver k))
           then Raise (ValueError
                  "This should not happen: a task missed its deadline after being executed at an edge node (non-cloud).")
           else Ok w2
       | None => Ok w1
       end
     else Ok w);
  Hybrid.forward_response e time receiver service node flow_id deadline
    rtt_delay w2.

Definition handle (e : Env) (time : Q) (receiver service : nat) (log_ : bool)
  (node flow_id : nat) (deadline rtt_delay : Q) (status : Z) (w : World)
  : result World :=
  let source := content_source e service in
  if Nat.eqb source node && (status =? REQUEST) then
    Hybrid.at_cloud e time receiver service node flow_id deadline rtt_delay w
  else if Nat.eqb receiver node && (status =? REQUEST) then
    Hybrid.at_receiver e time receiver service log_ node flow_id deadline
      rtt_delay w
  else if status =? RESPONSE then
    if Nat.eqb node receiver
    then Ok (log (end_session true time flow_id) w)
    else Hybrid.forward_response e time receiver service node flow_id deadline
           rtt_delay w
  else if status =? TASK_COMPLETE then
    handle_task_complete e time receiver service node flow_id deadline
      rtt_delay w
  else if status =? REQUEST then
    handle_request e time receiver service node flow_id deadline rtt_delay w
  else Ok (log (print "Error: unrecognised status value : ") w).

Definition process_event (e : Env) (time : Q) (receiver content : nat)
  (log_ : bool) (node flow_id : nat) (deadline rtt_delay : Q) (status : Z)
  (w : World) : result World :=
  handle e time receiver content log_ node flow_id deadline rtt_delay status
    (periodic e time flow_id w).

End Mfu.

(* ================================================================= *)
(** ** SDF *)

Module Sdf.

Definition by_metric_asc (x y : nat * xQ) : bool := xle (snd x) (snd y).
Definition by_metric_desc (x y : nat * xQ) : bool := xle (snd y) (snd x).

(** The same text as HYBRID's [initialise_metrics]. *)
Definition initialise_metrics (e : Env) (w : World) : World :=
  Hybrid.initialise_metrics e w.

(** Lines 1012-1027. *)
Definition vms (e : Env) (cs : ComputeSpot) (vm_metrics : nat -> xQ)
  : list (nat * xQ) :=
  flat_map
    (fun service =>
       if numberOfServiceInstances cs service =? 0 then []
       else
         let d_metric :=
           if running_requests cs service =? 0 then Fin 1
           else xdiv (vm_metrics service) (running_requests cs service) in
         [(service, d_metric)])
    (seq 0 (num_services e)).

(** Lines 1029-1039. *)
Definition cand_services (e : Env) (cs : ComputeSpot) (cand_metric : nat -> xQ)
  : list (nat * xQ) :=
  flat_map
    (fun service =>
       if missed_requests cs service =? 0 then []
       else [(service, xdiv (cand_metric service) (missed_requests cs service))])
    (seq 0 (num_services e)).

(** Lines 1047-1061. *)
Fixpoint swap_loop (e : Env) (node : nat) (cands vms : list (nat * xQ))
  (indx : nat) (n_replacements : Z) (w : World) : World :=
  match vms with
  | [] => w
  | vm :: vms' =>
      match nth_error cands indx with
      | None => w
      | Some c =>
          if xlt (snd vm) (snd c) then w
          else
            let '(n1, w1) :=
              if negb (Nat.eqb (fst vm) (fst c))
              then (n_replacements - 1,
                    call_reassign_vm e node
                      [PController; PService (fst vm); PService (fst c);
                       PBool (debug e)] w)
              else (n_replacements, w) in
            if (n1 =? 0) || Nat.eqb indx (length cands) then w1
            else swap_loop e node cands vms' (S indx) n1 w1
      end
  end.

Definition replace_node (e : Env) (k : Z) (w : World) (node : nat) : World :=
  let cs := compSpots w node in
  if is_cloud cs then w
  else
    swap_loop e node
      (sorted_by by_metric_asc (cand_services e cs (cand_deadline_metric w node)))
      (sorted_by by_metric_desc (vms e cs (deadline_metric w node)))
      0%nat k w.

Definition replace_services (e : Env) (k : Z) (time : Q) (w : World) : World :=
  fold_left (replace_node e k) (service_nodes e) w.

Definition periodic (e : Env) (time : Q) (flow_id : nat) (w : World) : World :=
  if replacement_due e time w
  then
    let w1 :=
      log (replacement_interval_over flow_id (replacement_interval e) time) w in
    let w2 :=
      replace_services e (n_replacements e) time
        (log (replacement_pass time) w1) in
    initialise_metrics e (set_last_replacement time w2)
  else w.

(** Lines 1081-1173 are the text of MFU's lines 853-945. *)
Definition handle (e : Env) (time : Q) (receiver service : nat) (log_ : bool)
  (node flow_id : nat) (deadline rtt_delay : Q) (status : Z) (w : World)
  : result World :=
  Mfu.handle e time receiver service log_ node flow_id deadline rtt_delay
    status w.

Definition process_event (e : Env) (time : Q) (receiver content : nat)
  (log_ : bool) (node flow_id : nat) (deadline rtt_delay : Q) (status : Z)
  (w : World) : result World :=
  handle e time receiver content log_ node flow_id deadline rtt_delay status
    (periodic e time flow_id w).

End Sdf.

(* ================================================================= *)
(** ** Quantities the properties speak about *)

(** The sum of the first [n] entries of a vector. *)
Definition sumf (f : nat -> Z) (n : nat) : Z :=
  fold_right Z.add 0 (map f (seq 0 n)).

(** [sum(cs.numberOfServiceInstances)] over the services of the catalog. *)
Definition total_instances (e : Env) (cs : ComputeSpot) : Z :=
  sumf (numberOfServiceInstances cs) (num_services e).

(** No VM of the spot is assigned to a service. *)
Definition cleared (e : Env) (cs : ComputeSpot) : Prop :=
  forall s, (s < num_services e)%nat -> numberOfServiceInstances cs s = 0.

(** The nodes a COORDINATED replacement pass places services at. *)
Definition placed_node (e : Env) (w : World) (node : nat) : Prop :=
  In node (service_nodes e)
  /\ is_cloud (compSpots w node) = false
  /\ 0 <= depth e node <= height e.

(** **** The search of [find_topmost_feasible_node], in the words of its
    description *)

(** Every queued task of node [n] is projected to complete by its expiry
    less [delay]. *)
Definition all_in_time (delay : Q) (w : World) (n : nat) : Prop :=
  let sch := scheduler (compSpots w n) in
  Forall (fun k => (Task.completionTime k <= Task.expiry k - delay)%Q)
    (_taskQueue sch ++ upcomingTaskQueue sch).


(** Lines 111-119 in the words of the description: the node is not the
    cloud, runs the service, and the round trip between the requesting
    receiver and the node leaves room for the service time before the
    deadline. *)
Definition qualifies (e : Env) (receiver : nat) (time : Q) (service : nat)
  (deadline rtt_delay : Q) (n : nat) (w : World) : Prop :=
  let cs := compSpots w n in
  is_cloud cs = false
  /\ numberOfServiceInstances cs service <> 0
  /\ (Service.service_time (cs_services cs service)
      <= deadline - time - (rtt_delay + 2 * path_delay e receiver n))%Q.




(** The Task objects in the upcoming queues are older than the next one
    to be created. *)
Definition fresh_oids (w : World) : Prop :=
  forall n k, In k (upcomingTaskQueue (scheduler (compSpots w n))) ->
              (Task.oid k < next_oid w)%nat.

(** **** The reassignment test of HYBRID *)

(** Line 579 for the running entry [x]: the missed service is used at
    least as much, its average slack is smaller, and positive. *)
Definition reassignable (delay : nat -> xQ) (service_missed : nat)
  (missed_util : Q) (x : nat * Q) : Prop :=
  (snd x <= missed_util)%Q
  /\ xlt (delay service_missed) (delay (fst x)) = true
  /\ xlt (Fin 0) (delay service_missed) = true.

(** A running entry the scan goes past: it is not used more than the
    missed service, and fails the test. *)
Definition passed_over (delay : nat -> xQ) (service_missed : nat)
  (missed_util : Q) (x : nat * Q) : Prop :=
  (snd x <= missed_util)%Q /\ ~ reassignable delay service_missed missed_util x.

(** What [scan] answers, by case. *)
Definition scan_post (delay : nat -> xQ) (service_missed : nat)
  (missed_util : Q) (seen running : list (nat * Q)) (r : Hybrid.scan_result)
  : Prop :=
  match r with
  | Hybrid.Reassign service_running rest =>
      exists pre running_util post,
        running = pre ++ (service_running, running_util) :: post
        /\ rest = seen ++ pre ++ post
        /\ service_running <> service_missed
        /\ reassignable delay service_missed missed_util
             (service_running, running_util)
        /\ Forall (passed_over delay service_missed missed_util) pre
  | Hybrid.ExitLoop =>
      exists pre x post,
        running = pre ++ x :: post
        /\ (missed_util < snd x)%Q
        /\ Forall (passed_over delay service_missed missed_util) pre
  | Hybrid.NoMatch =>
      Forall (passed_over delay service_missed missed_util) running
  end.

(** The (running, missed) pairs lines 567-585 reassign a VM for, in
    order. *)
Fixpoint reassignments (delay : nat -> xQ) (missed running : list (nat * Q))
  : list (nat * nat) :=
  match missed with
  | [] => []
  | (service_missed, missed_util) :: missed' =>
      match Hybrid.scan delay service_missed missed_util [] running with
      | Hybrid.ExitLoop => []
      | Hybrid.Reassign service_running running' =>
          (service_running, service_missed)
          :: reassignments delay missed' running'
      | Hybrid.NoMatch => reassignments delay missed' running
      end
  end.

(** The pass of lines 567-585 in the words of the description.
    [pass_decides delay missed running pairs]: going through the missed
    services in order, against the running entries in order, the pass
    reassigns a VM for the pairs (running service, missed service) of
    [pairs], in that order.  For each missed service the running entries
    are scanned: an entry used more than the missed service ends the whole
    pass; otherwise the first entry that passes the test of line 579 gives
    its VM and is dropped from the running entries for the missed services
    that follow; when no entry passes, the pass goes on to the next missed
    service with the same running entries. *)
Inductive pass_decides (delay : nat -> xQ)
  : list (nat * Q) -> list (nat * Q) -> list (nat * nat) -> Prop :=
| pd_done running : pass_decides delay [] running []
| pd_stop service_missed missed_util missed pre x post :
    Forall (passed_over delay service_missed missed_util) pre ->
    (missed_util < snd x)%Q ->
    pass_decides delay ((service_missed, missed_util) :: missed)
      (pre ++ x :: post) []
| pd_reassign service_missed missed_util missed pre service_running
    running_util post pairs :
    Forall (passed_over delay service_missed missed_util) pre ->
    service_running <> service_missed ->
    reassignable delay service_missed missed_util
      (service_running, running_util) ->
    pass_decides delay missed (pre ++ post) pairs ->
    pass_decides delay ((service_missed, missed_util) :: missed)
      (pre ++ (service_running, running_util) :: post)
      ((service_running, service_missed) :: pairs)
| pd_none service_missed missed_util missed running pairs :
    Forall (passed_over delay service_missed missed_util) running ->
    pass_decides delay missed running pairs ->
    pass_decides delay ((service_missed, missed_util) :: missed) running pairs.

(** [ComputeSpot.reassign_vm] keeps the total of every spot, whatever it
    is called with. *)
Definition reassign_keeps_total (e : Env) : Prop :=
  forall w node args n,
    total_instances e (reassign_vm e w node args n)
    = total_instances e (compSpots w n).

(** **** Traces and counters *)



(** [round] returns a nearest integer (whichever way it breaks ties). *)
Definition rounds_to_nearest (r : Q -> Z) : Prop :=
  forall x, (Qabs (inject_Z (r x) - x) <= 1 # 2)%Q.

(** The accumulators hold sums of service times. *)
Definition nonneg_util (u : nat -> nat -> nat -> Q) : Prop :=
  forall ap n s, (0 <= u ap n s)%Q.

(** No demand was recorded. *)
Definition zero_util (u : nat -> nat -> nat -> Q) : Prop :=
  forall ap n s, (u ap n s == 0)%Q.

(** What a placement leaves at a spot: every VM assigned, or none. *)
Definition settled (e : Env) (cs : ComputeSpot) : Prop :=
  (forall s, (s < num_services e)%nat -> 0 <= numberOfServiceInstances cs s)
  /\ (total_instances e cs = numOfVMs cs \/ cleared e cs).

(** The invariant of the placement at one spot with [V] VMs. *)
Record placement_ok (e : Env) (V : Z) (st : Coordinated.placement) : Prop :=
  mkPlacementOk {
    ok_rem : 0 <= Coordinated.remaining_vms st;
    ok_inst : forall s, (s < num_services e)%nat -> 0 <= Coordinated.inst st s;
    ok_sum : sumf (Coordinated.inst st) (num_services e)
             + Coordinated.remaining_vms st = V;
    ok_util : nonneg_util (Coordinated.util st)
  }.

(** The compute spots a replacement pass looks at, and what it never
    changes in them. *)
Definition eligible (e : Env) (w : World) (n : nat) : Prop :=
  In n (service_nodes e) /\ is_cloud (compSpots w n) = false.

Definition same_static (w w' : World) : Prop :=
  forall n, is_cloud (compSpots w' n) = is_cloud (compSpots w n)
            /\ numOfVMs (compSpots w' n) = numOfVMs (compSpots w n).

(* ================================================================= *)
(** ** Test fixtures *)

Module Fixture.

Definition catalog (s : nat) : Service.t := Service.mk 1 10.

Definition spot (node : nat) (cloud : bool) (vms : Z) (inst : nat -> Z)
  : ComputeSpot :=
  mkComputeSpot node cloud vms 2 inst (fun _ => 0) (fun _ => 0) catalog
    (mkScheduler [] [] 0).

(** Receiver 10 ("rcv_0"), edge node 0, cloud node 1; two services. *)
Definition spots (n : nat) : ComputeSpot :=
  match n with
  | 0%nat => spot 0 false 2 (fun _ => 0)
  | _ => spot n true 0 (fun _ => 0)
  end.

Definition path (a b : nat) : list nat :=
  match a, b with
  | 10%nat, 0%nat => [10; 0]%nat
  | 10%nat, 1%nat => [10; 0; 1]%nat
  | 0%nat, 1%nat => [0; 1]%nat
  | 0%nat, 10%nat => [0; 10]%nat
  | 1%nat, 10%nat => [1; 0; 10]%nat
  | 1%nat, 0%nat => [1; 0]%nat
  | _, _ => [a]
  end.

Definition hops (a b : nat) : Q := inject_Z (Z.of_nat (length (path a b)) - 1).

(** The collaborators answer as plainly as possible: a task is admitted iff
    the spot is the cloud or runs the service, nothing is ever scheduled or
    evicted, and [reassign_vm] moves one VM when it is called with the four
    arguments (controller, from, to, debug). *)
Definition admits (w : World) (node service : nat) (time : Q) (flow_id : nat)
  (deadline : Q) (receiver : nat) (rtt_delay : Q)
  : (bool * Z) * (nat -> ComputeSpot) :=
  let cs := compSpots w node in
  if is_cloud cs then ((true, CLOUD), compSpots w)
  else if 0 <? numberOfServiceInstances cs service
  then ((true, SUCCESS), compSpots w)
  else ((false, NO_INSTANCES), compSpots w).

Definition moves_vm (w : World) (node : nat) (args : list pyval)
  : nat -> ComputeSpot :=
  match args with
  | [PController; PService a; PService b; PBool _] =>
      let cs := compSpots w node in
      let f := numberOfServiceInstances cs in
      let f1 := upd f a (f a - 1) in
      upd (compSpots w) node (set_instances (upd f1 b (f1 b + 1)) cs)
  | _ => compSpots w
  end.

Definition env : Env :=
  mkEnv (fun _ => 1%nat) path hops hops catalog 2
    (fun n => Nat.leb n 1)
    (fun w n s => 0 <? numberOfServiceInstances (compSpots w n) s)
    [0; 1]%nat
    [10%nat] (fun _ => 0%nat) (fun _ => 0) 0
    10 (1 # 2) 1 false
    round_half_even (fun _ => 0%Q)
    admits
    (fun w _ _ => (None, compSpots w))
    moves_vm
    (fun w n t i => 0%Q)
    (fun _ _ _ => PService 0).

(** The world [__init__] leaves, and the same after requests for
    service 1 worth 20 time units from receiver 10. *)
Definition started : World :=
  match Coordinated.init env spots with
  | Ok w => w
  | Raise _ =>
      mkWorld 0 (fun _ _ _ => 0%Q) (fun _ _ => 0) (fun _ _ => Fin 0)
        (fun _ _ => Fin 0) 0%nat 0%nat spots []
  end.

Definition busy : World :=
  set_serviceNodeUtil (upd3 (serviceNodeUtil started) 0 0 1 20%Q) started.

(** A spot that runs one instance of service 1, which served one request
    with slack 10, and turned away one request for service 0, with slack 5. *)
Definition torn_spot : ComputeSpot :=
  mkComputeSpot 0 false 1 2 (fun s => if Nat.eqb s 1 then 1 else 0)
    (fun s => if Nat.eqb s 1 then 1 else 0)
    (fun s => if Nat.eqb s 0 then 1 else 0)
    catalog (mkScheduler [] [] 0).

Definition torn : World :=
  mkWorld 0 (fun _ _ _ => 0%Q) (fun _ _ => 0)
    (fun n s => if Nat.eqb n 0 && Nat.eqb s 1 then Fin 10 else Fin 0)
    (fun n s => if Nat.eqb n 0 && Nat.eqb s 0 then Fin 5 else Fin 0)
    0%nat 0%nat (fun n => if Nat.eqb n 0 then torn_spot else spots n) [].

(** The world of a strategy that has not seen an event. *)
Definition idle : World :=
  mkWorld 0 (fun _ _ _ => 0%Q) (fun _ _ => 0) (fun _ _ => Fin 0)
    (fun _ _ => Fin 0) 0%nat 0%nat spots [].

(** The same surroundings with compute spots so loaded that every task is
    projected to complete at time 100. *)
Definition slow_env : Env :=
  mkEnv (content_source env) (shortest_path env) (path_delay env)
    (link_delay env) (services env) (num_services env)
    (has_computationalSpot env) (has_service env) (service_nodes env)
    (receivers env) (rcv_index env) (depth env) (height env)
    (replacement_interval env) (p env) (n_replacements env) (debug env)
    (py_round env) (random_random env) (admit_task env) (schedule env)
    (reassign_vm env) (fun w n t i => 100%Q) (put_content_result env).

(** The same surroundings with compute spots that turn every task away. *)
Definition refusing_env : Env :=
  mkEnv (content_source env) (shortest_path env) (path_delay env)
    (link_delay env) (services env) (num_services env)
    (has_computationalSpot env) (has_service env) (service_nodes env)
    (receivers env) (rcv_index env) (depth env) (height env)
    (replacement_interval env) (p env) (n_replacements env) (debug env)
    (py_round env) (random_random env)
    (fun w _ _ _ _ _ _ _ => ((false, CONGESTION), compSpots w))
    (schedule env) (reassign_vm env) (projected_completion env)
    (put_content_result env).


Definition far_task : Task.t :=
  {| Task.oid := 0; Task.time := 0; Task.expiry := 28; Task.rtt_delay := 10;
     Task.node := 0; Task.service := 0; Task.service_time := 1;
     Task.flow_id := 7; Task.receiver := 11; Task.arrivalTime := 5;
     Task.completionTime := 20 |}.


(** The surroundings of [env] with schedulers that start [far_task]
    whenever they are run. *)
Definition queued_env : Env :=
  mkEnv (content_source env) (shortest_path env) (path_delay env)
    (link_delay env) (services env) (num_services env)
    (has_computationalSpot env) (has_service env) (service_nodes env)
    (receivers env) (rcv_index env) (depth env) (height env)
    (replacement_interval env) (p env) (n_replacements env) (debug env)
    (py_round env) (random_random env) (admit_task env)
    (fun w _ _ => (Some far_task, compSpots w))
    (reassign_vm env) (projected_completion env) (put_content_result env).

End Fixture.

(* ================================================================= *)
(** ** Further quantities

    Closed forms of the loops and the vocabulary of the further
    properties. *)

(** [w'] has the trace of [w] followed by calls that all satisfy [P]. *)
Definition adds (P : call -> Prop) (w w' : World) : Prop :=
  exists calls, trace w' = trace w ++ calls /\ Forall P calls.

(** A call that is not [add_event]. *)
Definition no_event (c : call) : Prop :=
  match c with
  | add_event _ _ _ _ _ _ _ _ => False
  | _ => True
  end.

(** The TASK_COMPLETE event of task [k], with [node] for its node (lines
    304, 324, 429, 666, 895 and 1123): the fields of the event are those of
    the task. *)
Definition completion_event (node : nat) (k : Task.t) : call :=
  add_event (Task.completionTime k) (Task.receiver k) (Task.service k) node
    (Task.flow_id k) (Task.expiry k) (Task.rtt_delay k) TASK_COMPLETE.

(** The event of the task that [compSpot.scheduler.schedule(time)] starts
    at [node] in world [w], when it starts one.  COORDINATED gives the event
    the node [compSpot.node], the other strategies [node]. *)
Definition coordinated_started (e : Env) (node : nat) (time : Q) (w : World)
  : option call :=
  let '(task, w1) := call_schedule e node time w in
  option_map (completion_event (cs_node (compSpots w1 node))) task.

Definition started_at (e : Env) (node : nat) (time : Q) (w : World)
  : option call :=
  option_map (completion_event node) (fst (call_schedule e node time w)).

(** What COORDINATED may schedule while it processes the event
    [(time, receiver, service, flow_id, deadline, rtt_delay)]: the event
    [started] of the task its scheduler starts, a REQUEST for a node other
    than the content source, or a RESPONSE addressed to the receiver; the
    last two carry the identity of the event, and a REQUEST adds to
    [rtt_delay] twice the time it adds to [time]. *)
Definition coordinated_event (e : Env) (time : Q) (receiver service flow_id : nat)
  (deadline rtt_delay : Q) (started : option call) (c : call) : Prop :=
  match c with
  | add_event t r s n f d rtt st =>
      started = Some c
      \/ (r = receiver /\ s = service /\ f = flow_id /\ d = deadline
          /\ ((st = REQUEST /\ n <> content_source e service
               /\ (rtt - 2 * t == rtt_delay - 2 * time)%Q)
              \/ (st = RESPONSE /\ n = receiver)))
  | _ => True
  end.

(** What LRU, HYBRID, MFU and SDF may schedule while they process the event
    [(time, receiver, service, flow_id, deadline, rtt_delay)]: the event
    [started] of the task the scheduler of the node starts, or a REQUEST or
    RESPONSE that carries the identity of the event; a REQUEST adds to
    [rtt_delay] twice the time it adds to [time], a RESPONSE keeps
    [rtt_delay]. *)
Definition relayed_event (time : Q) (receiver service flow_id : nat)
  (deadline rtt_delay : Q) (started : option call) (c : call) : Prop :=
  match c with
  | add_event t r s n f d rtt st =>
      started = Some c
      \/ (r = receiver /\ s = service /\ f = flow_id /\ d = deadline
          /\ ((st = REQUEST /\ (rtt - 2 * t == rtt_delay - 2 * time)%Q)
              \/ (st = RESPONSE /\ rtt = rtt_delay)))
  | _ => True
  end.

(** The request on which LRU reaches the call of line 452: a REQUEST at a
    compute node other than its receiver (lines 388, 394, 409, 421, 441),
    with a next hop to the source (line 443), that [admit_task] refuses
    with NO_INSTANCES (lines 445, 448) and whose slack is below the service
    time (lines 449-450). *)
Definition forces_install (e : Env) (time : Q) (receiver service node
  flow_id : nat) (deadline rtt_delay : Q) (status : Z) (w : World) : bool :=
  let w0 := Lru.periodic e time flow_id w in
  negb (Nat.eqb receiver node) && has_computationalSpot e node
  && (status =? REQUEST)
  && match second (shortest_path e node (content_source e service)) with
     | Ok next_node =>
         let '((ret, reason), w1) :=
           call_admit_task e node service time flow_id deadline receiver
             rtt_delay w0 in
         negb ret && (reason =? NO_INSTANCES)
         && qlt (deadline - time - rtt_delay
                 - 2 * path_delay e node next_node)
                (Service.service_time (cs_services (compSpots w1 node) service))
     | Raise _ => false
     end.

(** The flows that have a task in the upcoming queue of [n]. *)
Definition upcoming_flows (w : World) (n : nat) : list nat :=
  map Task.flow_id (upcomingTaskQueue (scheduler (compSpots w n))).

(** A task without its projected completion time. *)
Definition unstamped (k : Task.t) : Task.t := Task.set_completionTime 0 k.

(** What a search never changes in a compute spot: the placement, and the
    tasks of the running queue, of which it only projects the completion
    times anew. *)
Definition same_placement (w w' : World) : Prop :=
  forall n,
    is_cloud (compSpots w' n) = is_cloud (compSpots w n)
    /\ numOfVMs (compSpots w' n) = numOfVMs (compSpots w n)
    /\ numberOfServiceInstances (compSpots w' n)
       = numberOfServiceInstances (compSpots w n)
    /\ cs_services (compSpots w' n) = cs_services (compSpots w n)
    /\ map unstamped (_taskQueue (scheduler (compSpots w' n)))
       = map unstamped (_taskQueue (scheduler (compSpots w n))).

(** What tells the tasks of a queue apart. *)
Definition key (k : Task.t) : nat * nat := (Task.oid k, Task.flow_id k).




(** [servicesToAdd] as lines 238-243 leave it: each service whose count
    grew by [d] since the snapshot [snap], [d] times, in the order of the
    services. *)
Definition grown (e : Env) (cs : ComputeSpot) (snap : nat -> Z) : list nat :=
  flat_map
    (fun s => repeat s (Z.to_nat (numberOfServiceInstances cs s - snap s)))
    (seq 0 (num_services e)).

(** The share of service [s] when [V] VMs are dealt in turn to the first
    [P] services: [ceil((V - s) / P)] for [s < P], nothing beyond. *)
Definition share (V P : Z) (s : nat) : Z :=
  if Z.of_nat s <? P then (V + P - 1 - Z.of_nat s) / P else 0.

(** The calls a COORDINATED pass makes on the controller for [node]: none
    for the cloud, otherwise one [reassign_vm(node, None, servicesToAdd)]
    for each instance gained since the snapshot [snap], every call with the
    whole list [servicesToAdd]. *)
Definition gains (e : Env) (cs : ComputeSpot) (snap : nat -> Z) (node : nat)
  : list call :=
  if is_cloud cs then []
  else
    let servicesToAdd := grown e cs snap in
    repeat (controller_reassign_vm node None servicesToAdd)
      (length servicesToAdd).

(** The longest prefix of [l] whose elements all satisfy [f]. *)
Fixpoint take_while {A : Type} (f : A -> bool) (l : list A) : list A :=
  match l with
  | [] => []
  | x :: l' => if f x then x :: take_while f l' else []
  end.

(** The loop of lines 818-832 (and 1047-1061) in one expression: the i-th
    VM is set against the i-th candidate, up to the first pair that [stop]s
    the loop; the pairs of two different services are the replacements. *)
Definition matched {M : Type} (stop : nat * M -> nat * M -> bool)
  (vms cands : list (nat * M)) : list ((nat * M) * (nat * M)) :=
  filter (fun vc => negb (Nat.eqb (fst (fst vc)) (fst (snd vc))))
    (take_while (fun vc => negb (stop (fst vc) (snd vc))) (combine vms cands)).

(** The first [k] of them, as pairs (service that gives a VM, service that
    receives it). *)
Definition replacements {M : Type} (stop : nat * M -> nat * M -> bool)
  (k : Z) (vms cands : list (nat * M)) : list (nat * nat) :=
  map (fun vc => (fst (fst vc), fst (snd vc)))
    (firstn (Z.to_nat k) (matched stop vms cands)).

(** [cs.reassign_vm(self.controller, from, to, self.debug)] at [node]. *)
Definition reassign_call (e : Env) (node : nat) (x : nat * nat) : call :=
  cs_reassign_vm node
    [PController; PService (fst x); PService (snd x); PBool (debug e)].

(** Line 822: the candidate is used less than the VM. *)
Definition mfu_stop (vm c : nat * Q) : bool := qlt (snd c) (snd vm).

(** [l1] is [l2] with some elements left out. *)
Inductive sublist {A : Type} : list A -> list A -> Prop :=
| sublist_nil : sublist [] []
| sublist_skip x l1 l2 : sublist l1 l2 -> sublist l1 (x :: l2)
| sublist_keep x l1 l2 : sublist l1 l2 -> sublist (x :: l1) (x :: l2).

(** Line 1051: the VM has less slack than the candidate. *)
Definition sdf_stop (vm c : nat * xQ) : bool := xlt (snd vm) (snd c).

(** The average slack of the requests service [s] ran at the spot in the
    interval, 1.0 if it ran none (lines 1017-1023), and the average slack
    of the requests it missed (line 1036). *)
Definition running_slack (cs : ComputeSpot) (vm_metrics : nat -> xQ) (s : nat)
  : xQ :=
  if running_requests cs s =? 0 then Fin 1
  else xdiv (vm_metrics s) (running_requests cs s).

Definition missed_slack (cs : ComputeSpot) (cand_metric : nat -> xQ) (s : nat)
  : xQ :=
  xdiv (cand_metric s) (missed_requests cs s).

(** The average slack HYBRID compares (the [delay] dictionary of lines
    526-561): for a service without instance, the slack of the requests it
    missed, per missed request; for a service with instances, the slack of
    the requests it ran, per request run; [inf] when there was no such
    request. *)
Definition average_slack (cs : ComputeSpot) (residual cand : nat -> xQ)
  (s : nat) : xQ :=
  if numberOfServiceInstances cs s =? 0 then
    if 0 <? missed_requests cs s then xdiv (cand s) (missed_requests cs s)
    else Inf
  else if 0 <? numberOfServiceInstances cs s then
    if 0 <? running_requests cs s
    then xdiv (residual s) (running_requests cs s) else Inf
  else Inf.

(** The three kinds of event MFU and SDF do not handle as HYBRID does: a
    REQUEST at a node that is neither its content source nor its receiver;
    a RESPONSE on its way that will reach its receiver after the deadline;
    a TASK_COMPLETE at a compute node whose scheduler starts a task that
    cannot reach its receiver before it expires. *)
Definition request_inside (e : Env) (receiver service node : nat) (status : Z)
  : bool :=
  (status =? REQUEST) && negb (Nat.eqb (content_source e service) node)
  && negb (Nat.eqb receiver node).

Definition late_response (e : Env) (time : Q) (receiver node : nat)
  (deadline : Q) (status : Z) : bool :=
  (status =? RESPONSE) && negb (Nat.eqb node receiver)
  && qlt deadline (path_delay e node receiver + time).

Definition late_task (e : Env) (time : Q) (service node : nat) (status : Z)
  (w : World) : bool :=
  (status =? TASK_COMPLETE) && negb (Nat.eqb node (content_source e service))
  && has_computationalSpot e node
  && match fst (call_schedule e node time w) with
     | Some k => qlt (Task.expiry k) (time + path_delay e node (Task.receiver k))
     | None => false
     end.

(** [r] is an exception or a world whose [last_replacement] is [q]. *)
Definition clock_at (q : Q) (r : result World) : Prop :=
  match r with
  | Ok w' => last_replacement w' = q
  | Raise _ => True
  end.

(** The clock after the periodic step. *)
Definition clock_after (e : Env) (time : Q) (w : World) : Q :=
  if replacement_due e time w then time else last_replacement w.



(* ================================================================= *)
(** ** Proofs *)

(* ----------------------------------------------------------------- *)
(** *** Numbers, sorting and tables *)

Lemma qlt_true a b : qlt a b = true <-> (a < b)%Q.
Proof.
  unfold qlt. rewrite negb_true_iff. split; intro H.
  - destruct (Qlt_le_dec a b) as [L|L]; [exact L|].
    apply Qle_bool_iff in L. congruence.
  - destruct (Qle_bool b a) eqn:E; [|reflexivity].
    apply Qle_bool_iff in E. exfalso. apply (Qlt_not_le _ _ H E).
Qed.

Lemma qlt_false a b : qlt a b = false <-> (b <= a)%Q.
Proof.
  unfold qlt. rewrite negb_false_iff. apply Qle_bool_iff.
Qed.

Lemma qle_true a b : qle a b = true <-> (a <= b)%Q.
Proof. apply Qle_bool_iff. Qed.

Lemma insert_by_perm {A} (leb : A -> A -> bool) x l :
  Permutation (insert_by leb x l) (x :: l).
Proof.
  induction l as [|y l IH]; simpl; [reflexivity|].
  destruct (leb x y); [reflexivity|].
  rewrite IH. apply perm_swap.
Qed.

Lemma sorted_by_perm {A} (leb : A -> A -> bool) l :
  Permutation (sorted_by leb l) l.
Proof.
  induction l as [|x l IH]; simpl; [reflexivity|].
  unfold sorted_by in *. simpl. rewrite insert_by_perm. now constructor.
Qed.

Lemma rounds_nonneg r x : rounds_to_nearest r -> (0 <= x)%Q -> 0 <= r x.
Proof.
  intros H Hx. specialize (H x).
  destruct (Z_lt_le_dec (r x) 0) as [L|L]; [|exact L].
  exfalso. assert (r x <= -1) by lia.
  assert ((inject_Z (r x) <= -1)%Q).
  { change (-1)%Q with (inject_Z (-1)). rewrite <- Zle_Qle. exact H0. }
  apply Qabs_Qle_condition in H. lra.
Qed.

Lemma rounds_zero r x : rounds_to_nearest r -> (x == 0)%Q -> r x = 0.
Proof.
  intros H Hx. specialize (H x). apply Qabs_Qle_condition in H.
  assert (-1 < r x < 1); [|lia].
  split; rewrite Zlt_Qlt.
  - change (inject_Z (-1)) with (-1 # 1)%Q. lra.
  - change (inject_Z 1) with (1 # 1)%Q. lra.
Qed.

Lemma round_half_even_nearest : rounds_to_nearest round_half_even.
Proof.
  intro x. unfold round_half_even.
  pose proof (Qfloor_le (x + (1#2))) as Hl.
  pose proof (Qlt_floor (x + (1#2))) as Hu.
  set (f := Qfloor (x + (1 # 2))) in *.
  rewrite inject_Z_plus in Hu. change (inject_Z 1) with (1 # 1)%Q in Hu.
  apply Qabs_Qle_condition.
  destruct (Qeq_bool (inject_Z f) (x + (1 # 2)) && Z.odd f) eqn:E.
  - apply andb_true_iff in E. destruct E as [E _]. apply Qeq_bool_iff in E.
    assert (inject_Z (f - 1) == inject_Z f - 1)%Q as K.
    { unfold Z.sub. rewrite inject_Z_plus, inject_Z_opp. change (inject_Z 1) with (1 # 1)%Q. lra. }
    lra.
  - lra.
Qed.

(* ---- tables ---- *)
Lemma upd_same {A} (f : nat -> A) k v : upd f k v k = v.
Proof. unfold upd. now rewrite Nat.eqb_refl. Qed.

Lemma upd_other {A} (f : nat -> A) k v x : x <> k -> upd f k v x = f x.
Proof. intro H. unfold upd. apply Nat.eqb_neq in H. now rewrite H. Qed.


Lemma sum_map_upd_out (f : nat -> Z) k v a n :
  ~ In k (seq a n) ->
  fold_right Z.add 0 (map (upd f k v) (seq a n))
  = fold_right Z.add 0 (map f (seq a n)).
Proof.
  revert a. induction n as [|n IH]; intros a H; simpl; [reflexivity|].
  simpl in H. rewrite IH by tauto.
  rewrite upd_other; [reflexivity|]. intro E. apply H. now left.
Qed.

Lemma sum_map_upd (f : nat -> Z) k v a n :
  In k (seq a n) ->
  fold_right Z.add 0 (map (upd f k v) (seq a n))
  = fold_right Z.add 0 (map f (seq a n)) - f k + v.
Proof.
  revert a. induction n as [|n IH]; intros a H; simpl in *; [tauto|].
  destruct (Nat.eq_dec a k) as [->|N].
  - rewrite upd_same. rewrite sum_map_upd_out; [lia|].
    rewrite in_seq. lia.
  - rewrite upd_other by congruence. rewrite IH; [lia|].
    destruct H; [congruence|assumption].
Qed.

Lemma sumf_upd f k v n : (k < n)%nat -> sumf (upd f k v) n = sumf f n - f k + v.
Proof. intro H. apply sum_map_upd. apply in_seq. lia. Qed.

Lemma sumf_zero f n : (forall s, (s < n)%nat -> f s = 0) -> sumf f n = 0.
Proof.
  unfold sumf. intro H.
  assert (forall a m, (a + m <= n)%nat ->
            fold_right Z.add 0 (map f (seq a m)) = 0) as K.
  { intros a m. revert a. induction m as [|m IH]; intros a L; simpl; [reflexivity|].
    rewrite IH by lia. rewrite H by lia. reflexivity. }
  apply K. lia.
Qed.

Lemma sumf_nonneg f n : (forall s, 0 <= f s) -> 0 <= sumf f n.
Proof.
  unfold sumf. intro H. generalize 0%nat.
  induction n as [|n IH]; intro a; simpl; [lia|].
  specialize (IH (S a)). specialize (H a). lia.
Qed.

(* ---- accumulators ---- *)

Lemma upd3_zero_nonneg u i j k : nonneg_util u -> nonneg_util (upd3 u i j k 0%Q).
Proof.
  intros H ap n s. unfold upd3, upd2, upd.
  destruct (Nat.eqb ap i); [|apply H].
  destruct (Nat.eqb n j); [|apply H].
  destruct (Nat.eqb s k); [|apply H]. apply Qle_refl.
Qed.

Lemma zero_path_nonneg e node service recv u :
  nonneg_util u -> nonneg_util (Coordinated.zero_path e node service recv u).
Proof.
  unfold Coordinated.zero_path. generalize (tl (shortest_path e recv node)).
  intro l. revert u. induction l as [|n l IH]; intros u H; simpl; [exact H|].
  apply IH. now apply upd3_zero_nonneg.
Qed.

Lemma zero_contributors_nonneg e node service u :
  nonneg_util u -> nonneg_util (Coordinated.zero_contributors e node service u).
Proof.
  unfold Coordinated.zero_contributors. generalize (receivers e).
  intro l. revert u. induction l as [|r l IH]; intros u H; simpl; [exact H|].
  apply IH. destruct (Qeq_bool _ _); [exact H|]. now apply zero_path_nonneg.
Qed.

Lemma service_util_nonneg e u node s :
  nonneg_util u -> (0 <= Coordinated.service_util e u node s)%Q.
Proof.
  intro H. unfold Coordinated.service_util.
  assert (forall l acc, (0 <= acc)%Q ->
    (0 <= fold_left
       (fun acc recv =>
          let x := u (rcv_index e recv) node s in
          if Qeq_bool x 0 then acc
          else
            let service_obj := services e s in
            if qlt (2 * path_delay e recv node + Service.service_time service_obj)
                 (Service.deadline service_obj)
            then (acc + x)%Q else acc) l acc)%Q) as K.
  { induction l as [|r l IH]; intros acc Ha; simpl; [exact Ha|].
    apply IH. destruct (Qeq_bool _ _); [exact Ha|].
    destruct (qlt _ _); [|exact Ha].
    specialize (H (rcv_index e r) node s). lra. }
  apply K. apply Qle_refl.
Qed.

Lemma service_util_zero e u node s :
  (forall ap n s, u ap n s == 0)%Q -> Coordinated.service_util e u node s = 0%Q.
Proof.
  intro H. unfold Coordinated.service_util.
  enough (forall l acc,
    fold_left
       (fun acc recv =>
          let x := u (rcv_index e recv) node s in
          if Qeq_bool x 0 then acc
          else
            let service_obj := services e s in
            if qlt (2 * path_delay e recv node + Service.service_time service_obj)
                 (Service.deadline service_obj)
            then (acc + x)%Q else acc) l acc = acc) as K by apply K.
  induction l as [|r l IH]; intro acc; simpl; [reflexivity|].
  specialize (H (rcv_index e r) node s). apply Qeq_bool_iff in H.
  rewrite H. apply IH.
Qed.

(* ---- the sorted scores ---- *)
Lemma service_utils_sorted_in e u node s ut :
  In (s, ut) (Coordinated.service_utils_sorted e u node) ->
  (s < num_services e)%nat /\ ut = Coordinated.service_util e u node s.
Proof.
  unfold Coordinated.service_utils_sorted. intro H.
  apply (Permutation_in _ (sorted_by_perm _ _)) in H.
  apply in_map_iff in H. destruct H as [x [E I]]. inversion E; subst.
  apply in_seq in I. split; [lia|reflexivity].
Qed.

Lemma service_utils_sorted_ids e u node :
  Permutation (map fst (Coordinated.service_utils_sorted e u node))
    (seq 0 (num_services e)).
Proof.
  unfold Coordinated.service_utils_sorted.
  rewrite (Permutation_map fst (sorted_by_perm _ _)).
  rewrite map_map. simpl. rewrite map_id. reflexivity.
Qed.


Lemma Qdiv_nonneg a b : (0 <= a)%Q -> (0 < b)%Q -> (0 <= a / b)%Q.
Proof.
  intros Ha Hb. apply Qle_shift_div_l; [exact Hb|]. lra.
Qed.

Lemma first_pass_ok e node V l : forall st,
  rounds_to_nearest (py_round e) ->
  (0 < replacement_interval e)%Q ->
  NoDup (map fst l) ->
  (forall s ut, In (s, ut) l -> (s < num_services e)%nat /\ (0 <= ut)%Q) ->
  (forall s, In s (map fst l) -> Coordinated.inst st s = 0) ->
  placement_ok e V st ->
  placement_ok e V (Coordinated.first_pass e node l st).
Proof.
  induction l as [|[s ut] l IH]; intros st Hr Hi Hnd Hl Hz Hok; simpl; [exact Hok|].
  destruct (Hl s ut (or_introl eq_refl)) as [Hs Hut].
  pose proof (rounds_nonneg _ _ Hr (Qdiv_nonneg _ _ Hut Hi)) as Hn.
  set (num_vms := py_round e (ut / replacement_interval e)) in *.
  destruct Hok as [H1 H2 H3 H4].
  set (k := Z.min num_vms (Coordinated.remaining_vms st)).
  assert (0 <= k <= Coordinated.remaining_vms st) as Hk by (unfold k; lia).
  match goal with
  | |- context [Coordinated.mkPlacement ?a ?b ?c] =>
      assert (placement_ok e V (Coordinated.mkPlacement a b c)) as Hok1
  end.
  { constructor; simpl.
    - lia.
    - intros s' Hs'. unfold upd. destruct (Nat.eqb s' s); [lia|now apply H2].
    - rewrite sumf_upd by exact Hs. rewrite (Hz s) by (simpl; now left). lia.
    - destruct (_ && _); [now apply zero_contributors_nonneg|exact H4]. }
  inversion Hnd as [|? ? Hnotin Hnd']; subst.
  destruct (_ =? 0); [exact Hok1|].
  apply IH; try assumption.
  - intros s' ut' I. apply Hl. now right.
  - intros s' I. simpl. rewrite upd_other.
    + apply Hz. simpl. now right.
    + intro E. subst. contradiction.
Qed.

(** One round of the second pass. *)
Lemma top_up_round_progress e node l : forall st b st' b',
  Coordinated.top_up_round e node l (st, b) = (st', b') ->
  0 < Coordinated.remaining_vms st ->
  0 <= Coordinated.remaining_vms st' <= Coordinated.remaining_vms st
  /\ (b = true -> b' = true)
  /\ (b = false -> b' = true ->
      Coordinated.remaining_vms st' < Coordinated.remaining_vms st)
  /\ (b = false -> b' = false ->
      st' = st
      /\ forall s ut, In (s, ut) l ->
           Coordinated.inst st s <= 0
           /\ Z.min (Qceiling (ut / replacement_interval e))
                (Coordinated.remaining_vms st) <= 0).
Proof.
  induction l as [|[s ut] l IH]; intros st b st' b' E Hrem; simpl in E.
  - inversion E; subst.
    refine (conj _ (conj _ (conj _ _))); try lia; try congruence.
    intros _ _. split; [reflexivity|]. intros ? ? [].
  - destruct (0 <? Coordinated.inst st s) eqn:Ei.
    + simpl in E.
      destruct (Coordinated.remaining_vms st - 1 =? 0) eqn:Ez.
      * inversion E; subst; simpl.
        refine (conj _ (conj _ (conj _ _))); try lia; congruence.
      * apply Z.eqb_neq in Ez. apply IH in E; simpl in *; [|lia].
        destruct E as [E1 [E2 [E3 E4]]]. specialize (E2 eq_refl). subst b'.
        refine (conj _ (conj _ (conj _ _))); try lia; congruence.
    + set (num_vms := Z.min (Qceiling (ut / replacement_interval e))
                        (Coordinated.remaining_vms st)) in *.
      destruct (0 <? num_vms) eqn:En.
      * simpl in E. apply Z.ltb_lt in En.
        destruct (Coordinated.remaining_vms st - num_vms =? 0) eqn:Ez.
        -- inversion E; subst; simpl.
           refine (conj _ (conj _ (conj _ _))); try lia; congruence.
        -- apply Z.eqb_neq in Ez. apply IH in E; simpl in *; [|lia].
           destruct E as [E1 [E2 [E3 E4]]]. specialize (E2 eq_refl). subst b'.
           refine (conj _ (conj _ (conj _ _))); try lia; congruence.
      * simpl in E. apply Z.ltb_ge in En, Ei.
        destruct (Coordinated.remaining_vms st =? 0) eqn:Ez;
          [apply Z.eqb_eq in Ez; lia|].
        apply IH in E; [|exact Hrem].
        destruct E as [E1 [E2 [E3 E4]]].
        refine (conj E1 (conj E2 (conj E3 _))).
        intros Hb Hb'. destruct (E4 Hb Hb') as [-> K].
        split; [reflexivity|].
        intros s' ut' [I|I].
        -- inversion I; subst. fold num_vms. lia.
        -- apply (K s' ut' I).
Qed.

Lemma top_up_round_ok e node V l : forall st b st' b',
  Coordinated.top_up_round e node l (st, b) = (st', b') ->
  (forall s ut, In (s, ut) l -> (s < num_services e)%nat) ->
  0 < Coordinated.remaining_vms st ->
  placement_ok e V st -> placement_ok e V st'.
Proof.
  induction l as [|[s ut] l IH]; intros st b st' b' E Hl Hrem Hok; simpl in E.
  - inversion E; subst. exact Hok.
  - assert (s < num_services e)%nat as Hs by (apply (Hl s ut); now left).
    assert (forall s ut, In (s, ut) l -> (s < num_services e)%nat) as Hl'
      by (intros s' ut' I; apply (Hl s' ut'); now right).
    destruct Hok as [H1 H2 H3 H4].
    destruct (0 <? Coordinated.inst st s) eqn:Ei.
    + simpl in E.
      match type of E with
      | context [Coordinated.mkPlacement ?a ?b ?c] =>
          assert (placement_ok e V (Coordinated.mkPlacement a b c)) as Hok1
      end.
      { constructor; simpl; try assumption; try lia.
        - intros s' Hs'. unfold upd. destruct (Nat.eqb s' s); [|now apply H2].
          specialize (H2 s Hs). lia.
        - rewrite sumf_upd by exact Hs. lia. }
      destruct (Coordinated.remaining_vms st - 1 =? 0) eqn:Ez.
      * inversion E; subst. exact Hok1.
      * apply Z.eqb_neq in Ez. apply IH in E; simpl; try assumption; lia.
    + set (num_vms := Z.min (Qceiling (ut / replacement_interval e))
                        (Coordinated.remaining_vms st)) in *.
      apply Z.ltb_ge in Ei.
      destruct (0 <? num_vms) eqn:En.
      * simpl in E. apply Z.ltb_lt in En.
        match type of E with
        | context [Coordinated.mkPlacement ?a ?b ?c] =>
            assert (placement_ok e V (Coordinated.mkPlacement a b c)) as Hok1
        end.
        { constructor; simpl.
          - lia.
          - intros s' Hs'. unfold upd. destruct (Nat.eqb s' s); [lia|now apply H2].
          - rewrite sumf_upd by exact Hs. specialize (H2 s Hs). lia.
          - now apply zero_contributors_nonneg. }
        destruct (Coordinated.remaining_vms st - num_vms =? 0) eqn:Ez.
        -- inversion E; subst. exact Hok1.
        -- apply Z.eqb_neq in Ez. apply IH in E; simpl; try assumption; lia.
      * simpl in E.
        destruct (Coordinated.remaining_vms st =? 0) eqn:Ez;
          [apply Z.eqb_eq in Ez; lia|].
        apply IH in E; try assumption. constructor; assumption.
Qed.

(** The [while] loop has left when [top_up] returns: no VM remains, or the
    last round added nothing. *)
Lemma top_up_exits e node l : forall fuel st,
  (Z.to_nat (Coordinated.remaining_vms st) <= fuel)%nat ->
  let st' := Coordinated.top_up e node l fuel st in
  Coordinated.remaining_vms st' <= 0
  \/ Coordinated.top_up_round e node l (st', false) = (st', false).
Proof.
  induction fuel as [|fuel IH]; intros st Hf; simpl.
  - left. lia.
  - destruct (0 <? Coordinated.remaining_vms st) eqn:Er.
    + apply Z.ltb_lt in Er.
      destruct (Coordinated.top_up_round e node l (st, false)) as [st1 added] eqn:E.
      pose proof (top_up_round_progress _ _ _ _ _ _ _ E Er) as [P1 [_ [P3 P4]]].
      destruct added.
      * apply IH. specialize (P3 eq_refl eq_refl). lia.
      * destruct (P4 eq_refl eq_refl) as [-> _]. right. exact E.
    + apply Z.ltb_ge in Er. left. exact Er.
Qed.

Lemma top_up_ok e node V l : forall fuel st,
  (forall s ut, In (s, ut) l -> (s < num_services e)%nat) ->
  placement_ok e V st ->
  placement_ok e V (Coordinated.top_up e node l fuel st).
Proof.
  induction fuel as [|fuel IH]; intros st Hl Hok; simpl; [exact Hok|].
  destruct (0 <? Coordinated.remaining_vms st) eqn:Er; [|exact Hok].
  apply Z.ltb_lt in Er.
  destruct (Coordinated.top_up_round e node l (st, false)) as [st1 added] eqn:E.
  pose proof (top_up_round_ok _ _ V _ _ _ _ _ E Hl Er Hok) as Hok1.
  destruct added; [now apply IH|exact Hok1].
Qed.


Lemma set_instances_id cs : set_instances (numberOfServiceInstances cs) cs = cs.
Proof. destruct cs; reflexivity. Qed.

Lemma place_services_settles e w node :
  rounds_to_nearest (py_round e) ->
  (0 < replacement_interval e)%Q ->
  nonneg_util (serviceNodeUtil w) ->
  0 <= numOfVMs (compSpots w node) ->
  cleared e (compSpots w node) ->
  exists w' f,
    Coordinated.place_services e w node = Ok w'
    /\ nonneg_util (serviceNodeUtil w')
    /\ (forall n, compSpots w' n
                  = upd (compSpots w) node
                      (set_instances f (compSpots w node)) n)
    /\ settled e (set_instances f (compSpots w node)).
Proof.
  intros Hr Hi Hu HV Hc. unfold Coordinated.place_services.
  pose proof (service_utils_sorted_ids e (serviceNodeUtil w) node) as Hp.
  pose proof (service_utils_sorted_in e (serviceNodeUtil w) node) as Hin.
  set (l := Coordinated.service_utils_sorted e (serviceNodeUtil w) node) in *.
  set (cs := compSpots w node) in *.
  destruct l as [|x l'] eqn:El.
  - exists w, (numberOfServiceInstances cs).
    split; [reflexivity|]. split; [exact Hu|].
    rewrite set_instances_id. split.
    + intro n. unfold upd. destruct (Nat.eqb n node) eqn:E; [|reflexivity].
      apply Nat.eqb_eq in E. subst. reflexivity.
    + split; [|right; exact Hc].
      intros s Hs. rewrite (Hc s Hs). lia.
  - rewrite <- El in *. clear El x l'.
    assert (Qeq_bool (replacement_interval e) 0 = false) as Ei.
    { destruct (Qeq_bool (replacement_interval e) 0) eqn:E; [|reflexivity].
      apply Qeq_bool_iff in E. lra. }
    rewrite Ei.
    assert (forall s ut, In (s, ut) l -> (s < num_services e)%nat /\ (0 <= ut)%Q)
      as Hl.
    { intros s ut I. destruct (Hin s ut I) as [Hs ->]. split; [exact Hs|].
      now apply service_util_nonneg. }
    assert (forall s ut, In (s, ut) l -> (s < num_services e)%nat) as Hl'
      by (intros s ut I; apply (Hl s ut I)).
    assert (NoDup (map fst l)) as Hnd.
    { apply (Permutation_NoDup (Permutation_sym Hp)). apply seq_NoDup. }
    set (st0 := Coordinated.mkPlacement (numberOfServiceInstances cs)
                  (numOfVMs cs) (serviceNodeUtil w)).
    assert (placement_ok e (numOfVMs cs) st0) as Hok0.
    { constructor; simpl; try assumption.
      - intros s Hs. rewrite (Hc s Hs). lia.
      - fold (sumf (numberOfServiceInstances cs) (num_services e)).
        rewrite sumf_zero by exact Hc. lia. }
    set (st1 := Coordinated.first_pass e node l st0).
    assert (placement_ok e (numOfVMs cs) st1) as Hok1.
    { apply first_pass_ok; try assumption.
      intros s I. simpl. apply Hc.
      apply (Permutation_in _ Hp) in I. apply in_seq in I. lia. }
    set (st2 := Coordinated.top_up e node l
                  (Z.to_nat (Coordinated.remaining_vms st1)) st1).
    assert (placement_ok e (numOfVMs cs) st2) as Hok2
      by (apply top_up_ok; assumption).
    pose proof (top_up_exits e node l (Z.to_nat (Coordinated.remaining_vms st1))
                  st1 (Nat.le_refl _)) as Hex.
    fold st2 in Hex. simpl in Hex.
    exists (set_serviceNodeUtil (Coordinated.util st2)
              (set_spot node (set_instances (Coordinated.inst st2) cs) w)),
           (Coordinated.inst st2).
    split; [reflexivity|]. split; [apply Hok2|].
    split; [intro n; reflexivity|].
    destruct Hok2 as [H1 H2 H3 H4].
    split; [exact H2|].
    destruct (Z_lt_le_dec 0 (Coordinated.remaining_vms st2)) as [Hpos|Hnp].
    + right. intros s Hs. simpl.
      destruct Hex as [Hex|Hex]; [lia|].
      pose proof (top_up_round_progress _ _ _ _ _ _ _ Hex Hpos)
        as [_ [_ [_ P4]]].
      destruct (P4 eq_refl eq_refl) as [_ K].
      assert (In s (map fst l)) as I.
      { apply (Permutation_in _ (Permutation_sym Hp)). apply in_seq. lia. }
      apply in_map_iff in I. destruct I as [[s' ut] [E I]]. simpl in E. subst s'.
      destruct (K s ut I) as [K1 _]. specialize (H2 s Hs). lia.
    + left. unfold total_instances. simpl.
      fold (sumf (Coordinated.inst st2) (num_services e)). lia.
Qed.

(* ---- zero traffic ---- *)

Lemma Qdiv_zero i : (0 / i == 0)%Q.
Proof. unfold Qdiv. apply Qmult_0_l. Qed.

Lemma first_pass_idle e node l : forall st,
  rounds_to_nearest (py_round e) ->
  (forall s ut, In (s, ut) l -> (s < num_services e)%nat /\ ut = 0%Q) ->
  0 <= Coordinated.remaining_vms st ->
  (forall s, (s < num_services e)%nat -> Coordinated.inst st s = 0) ->
  let st' := Coordinated.first_pass e node l st in
  Coordinated.remaining_vms st' = Coordinated.remaining_vms st
  /\ (forall s, (s < num_services e)%nat -> Coordinated.inst st' s = 0)
  /\ Coordinated.util st' = Coordinated.util st.
Proof.
  induction l as [|[s ut] l IH]; intros st Hr Hl Hrem Hz; simpl.
  - repeat split; [exact Hz].
  - destruct (Hl s ut (or_introl eq_refl)) as [Hs ->].
    rewrite (rounds_zero _ _ Hr (Qdiv_zero _)).
    rewrite andb_false_r. rewrite Z.min_l by exact Hrem.
    rewrite Z.sub_0_r.
    assert (forall s', (s' < num_services e)%nat ->
              upd (Coordinated.inst st) s 0 s' = 0) as Hz1.
    { intros s' Hs'. unfold upd. destruct (Nat.eqb s' s); [reflexivity|now apply Hz]. }
    simpl. destruct (Coordinated.remaining_vms st =? 0).
    + simpl. repeat split; [exact Hz1].
    + specialize (IH (Coordinated.mkPlacement (upd (Coordinated.inst st) s 0)
                        (Coordinated.remaining_vms st) (Coordinated.util st))
                    Hr (fun s' ut' I => Hl s' ut' (or_intror I)) Hrem Hz1).
      exact IH.
Qed.

Lemma top_up_round_idle e node l : forall st b,
  (forall s ut, In (s, ut) l -> (s < num_services e)%nat /\ ut = 0%Q) ->
  (forall s, (s < num_services e)%nat -> Coordinated.inst st s = 0) ->
  0 < Coordinated.remaining_vms st ->
  Coordinated.top_up_round e node l (st, b) = (st, b).
Proof.
  induction l as [|[s ut] l IH]; intros st b Hl Hz Hrem; simpl; [reflexivity|].
  destruct (Hl s ut (or_introl eq_refl)) as [Hs ->].
  rewrite (Hz s Hs). simpl.
  rewrite (Qceiling_comp _ _ (Qdiv_zero (replacement_interval e))).
  change (Qceiling 0) with 0.
  rewrite Z.min_l by lia. simpl.
  destruct (Coordinated.remaining_vms st =? 0) eqn:E; [reflexivity|].
  apply IH; try assumption. intros s' ut' I. apply Hl. now right.
Qed.

Lemma top_up_idle e node l : forall fuel st,
  (forall s ut, In (s, ut) l -> (s < num_services e)%nat /\ ut = 0%Q) ->
  (forall s, (s < num_services e)%nat -> Coordinated.inst st s = 0) ->
  Coordinated.top_up e node l fuel st = st.
Proof.
  destruct fuel as [|fuel]; intros st Hl Hz; simpl; [reflexivity|].
  destruct (0 <? Coordinated.remaining_vms st) eqn:E; [|reflexivity].
  apply Z.ltb_lt in E. rewrite top_up_round_idle by assumption. reflexivity.
Qed.

Lemma place_services_idle e w node :
  rounds_to_nearest (py_round e) ->
  (0 < replacement_interval e)%Q ->
  zero_util (serviceNodeUtil w) ->
  0 <= numOfVMs (compSpots w node) ->
  cleared e (compSpots w node) ->
  exists w' f,
    Coordinated.place_services e w node = Ok w'
    /\ zero_util (serviceNodeUtil w')
    /\ (forall n, compSpots w' n
                  = upd (compSpots w) node
                      (set_instances f (compSpots w node)) n)
    /\ cleared e (set_instances f (compSpots w node)).
Proof.
  intros Hr Hi Hu HV Hc. unfold Coordinated.place_services.
  pose proof (service_utils_sorted_in e (serviceNodeUtil w) node) as Hin.
  set (l := Coordinated.service_utils_sorted e (serviceNodeUtil w) node) in *.
  set (cs := compSpots w node) in *.
  destruct l as [|x l'] eqn:El.
  - exists w, (numberOfServiceInstances cs).
    split; [reflexivity|]. split; [exact Hu|].
    rewrite set_instances_id. split; [|exact Hc].
    intro n. unfold upd. destruct (Nat.eqb n node) eqn:E; [|reflexivity].
    apply Nat.eqb_eq in E. subst. reflexivity.
  - rewrite <- El in *. clear El x l'.
    assert (Qeq_bool (replacement_interval e) 0 = false) as Ei.
    { destruct (Qeq_bool (replacement_interval e) 0) eqn:E; [|reflexivity].
      apply Qeq_bool_iff in E. lra. }
    rewrite Ei.
    assert (forall s ut, In (s, ut) l -> (s < num_services e)%nat /\ ut = 0%Q)
      as Hl.
    { intros s ut I. destruct (Hin s ut I) as [Hs ->]. split; [exact Hs|].
      now apply service_util_zero. }
    set (st0 := Coordinated.mkPlacement (numberOfServiceInstances cs)
                  (numOfVMs cs) (serviceNodeUtil w)).
    destruct (first_pass_idle e node l st0 Hr Hl HV Hc) as [F1 [F2 F3]].
    set (st1 := Coordinated.first_pass e node l st0) in *.
    rewrite (top_up_idle e node l _ st1 Hl F2).
    exists (set_serviceNodeUtil (Coordinated.util st1)
              (set_spot node (set_instances (Coordinated.inst st1) cs) w)),
           (Coordinated.inst st1).
    split; [reflexivity|]. split; [simpl; rewrite F3; exact Hu|].
    split; [intro n; reflexivity|]. exact F2.
Qed.

(* ---- frames ---- *)


Lemma zero_fold_spots e : forall nodes w,
  NoDup nodes ->
  let w1 :=
    fold_left
      (fun w node => set_spot node (Coordinated.zero_instances e (compSpots w node)) w)
      nodes w in
  serviceNodeUtil w1 = serviceNodeUtil w
  /\ (forall n, In n nodes ->
        compSpots w1 n = Coordinated.zero_instances e (compSpots w n))
  /\ (forall n, ~ In n nodes -> compSpots w1 n = compSpots w n).
Proof.
  induction nodes as [|node nodes IH]; intros w Hnd; simpl.
  - split; [reflexivity|]. split; [intros n []|reflexivity].
  - inversion Hnd as [|? ? Hnotin Hnd']; subst.
    destruct (IH (set_spot node (Coordinated.zero_instances e (compSpots w node)) w)
                Hnd') as [I1 [I2 I3]].
    split; [rewrite I1; reflexivity|]. split.
    + intros n [->|I].
      * rewrite I3 by exact Hnotin. simpl. apply upd_same.
      * rewrite I2 by exact I. simpl. rewrite upd_other; [reflexivity|].
        intro; subst; contradiction.
    + intros n N. simpl in N. rewrite I3 by tauto. simpl. apply upd_other.
      intro; subst; tauto.
Qed.

Lemma zero_instances_cleared e cs : cleared e (Coordinated.zero_instances e cs).
Proof.
  unfold cleared, Coordinated.zero_instances. simpl.
  assert (forall l f s, In s l ->
            fold_left (fun f service => upd f service 0) l f s = 0) as K.
  { induction l as [|x l IH]; intros f s I; simpl; [contradiction|].
    destruct (in_dec Nat.eq_dec s l) as [I'|N]; [now apply IH|].
    destruct I as [->|I]; [|contradiction].
    assert (forall l g, ~ In s l -> g s = 0 ->
              fold_left (fun f service => upd f service 0) l g s = 0) as K2.
    { clear. induction l as [|x l IH]; intros g N G; simpl; [exact G|].
      apply IH; [simpl in N; tauto|]. rewrite upd_other; [exact G|].
      simpl in N. intro; subst; tauto. }
    apply K2; [exact N|apply upd_same]. }
  intros s Hs. apply K. apply in_seq. lia.
Qed.

(** The loops of the pass, for any guarantee [Post] that the placement at
    one node gives under an invariant [G] of the accumulators. *)
Section Pass.

Variable e : Env.
Variable G : (nat -> nat -> nat -> Q) -> Prop.
Variable Post : ComputeSpot -> Prop.

Hypothesis place_spec : forall w node,
  G (serviceNodeUtil w) ->
  0 <= numOfVMs (compSpots w node) ->
  cleared e (compSpots w node) ->
  exists w' f,
    Coordinated.place_services e w node = Ok w'
    /\ G (serviceNodeUtil w')
    /\ (forall n, compSpots w' n
                  = upd (compSpots w) node
                      (set_instances f (compSpots w node)) n)
    /\ Post (set_instances f (compSpots w node)).

Lemma foldM_place : forall nodes w,
  NoDup nodes ->
  G (serviceNodeUtil w) ->
  (forall n, In n nodes ->
     0 <= numOfVMs (compSpots w n) /\ cleared e (compSpots w n)) ->
  exists w',
    foldM (Coordinated.place_services e) nodes w = Ok w'
    /\ G (serviceNodeUtil w')
    /\ (forall n, In n nodes ->
          exists f, compSpots w' n = set_instances f (compSpots w n)
                    /\ Post (compSpots w' n))
    /\ (forall n, ~ In n nodes -> compSpots w' n = compSpots w n).
Proof.
  induction nodes as [|node nodes IH]; intros w Hnd Hu Hn; simpl.
  - exists w. repeat split; try assumption; try reflexivity. intros n [].
  - inversion Hnd as [|? ? Hnotin Hnd']; subst.
    destruct (Hn node (or_introl eq_refl)) as [HV Hc].
    destruct (place_spec w node Hu HV Hc) as [w1 [f [E [Hu1 [Hs1 Hset]]]]].
    rewrite E. simpl.
    assert (forall n, n <> node -> compSpots w1 n = compSpots w n) as Hoth.
    { intros n N. rewrite Hs1. now apply upd_other. }
    assert (compSpots w1 node = set_instances f (compSpots w node)) as Hat.
    { rewrite Hs1. apply upd_same. }
    destruct (IH w1 Hnd' Hu1) as [w' [E' [Hu' [Hin' Hout']]]].
    { intros n I. rewrite Hoth.
      - apply Hn. now right.
      - intro; subst; contradiction. }
    exists w'. split; [exact E'|]. split; [exact Hu'|]. split.
    + intros n [->|I].
      * exists f. rewrite (Hout' _ Hnotin). rewrite Hat. split; [reflexivity|exact Hset].
      * destruct (Hin' n I) as [g [Eg Sg]]. exists g. split; [|exact Sg].
        rewrite Eg. rewrite Hoth; [reflexivity|]. intro; subst; contradiction.
    + intros n N. simpl in N. rewrite Hout' by tauto. apply Hoth.
      intro; subst; tauto.
Qed.

Lemma replace_at_height_spec w h :
  NoDup (service_nodes e) ->
  G (serviceNodeUtil w) ->
  (forall n, eligible e w n -> 0 <= numOfVMs (compSpots w n)) ->
  exists w',
    Coordinated.replace_at_height e w h = Ok w'
    /\ G (serviceNodeUtil w')
    /\ (forall n, eligible e w n -> depth e n = h -> Post (compSpots w' n))
    /\ (forall n, ~ (eligible e w n /\ depth e n = h) ->
          compSpots w' n = compSpots w n)
    /\ same_static w w'.
Proof.
  intros Hnd Hu HV. unfold Coordinated.replace_at_height.
  set (nodes := filter _ (service_nodes e)).
  assert (forall n, In n nodes <-> eligible e w n /\ depth e n = h) as Hnodes.
  { intro n. unfold nodes, eligible. rewrite filter_In, andb_true_iff,
      negb_true_iff, Z.eqb_eq. tauto. }
  assert (NoDup nodes) as Hnd' by (apply NoDup_filter; exact Hnd).
  destruct (zero_fold_spots e nodes w Hnd') as [Z1 [Z2 Z3]].
  set (w1 := fold_left _ nodes w) in *.
  destruct (foldM_place nodes w1 Hnd') as [w' [E [Hu' [Hin Hout]]]].
  - rewrite Z1. exact Hu.
  - intros n I. rewrite (Z2 n I). split.
    + simpl. apply HV. apply Hnodes. exact I.
    + apply zero_instances_cleared.
  - exists w'. split; [exact E|]. split; [exact Hu'|].
    assert (forall n, In n nodes ->
              exists f, compSpots w' n = set_instances f (compSpots w n)) as Hf.
    { intros n I. destruct (Hin n I) as [f [Ef _]]. exists f.
      rewrite Ef, (Z2 n I). reflexivity. }
    split; [|split].
    + intros n El Hd. destruct (Hin n) as [f [_ S]]; [|exact S].
      apply Hnodes. tauto.
    + intros n N. rewrite Hout, Z3; try reflexivity; rewrite Hnodes; exact N.
    + intro n. destruct (in_dec Nat.eq_dec n nodes) as [I|N].
      * destruct (Hf n I) as [f ->]. split; reflexivity.
      * rewrite Hout, Z3 by exact N. split; reflexivity.
Qed.

Lemma heights_spec : forall hs w,
  NoDup (service_nodes e) ->
  NoDup hs ->
  G (serviceNodeUtil w) ->
  (forall n, eligible e w n -> 0 <= numOfVMs (compSpots w n)) ->
  exists w',
    foldM (Coordinated.replace_at_height e) hs w = Ok w'
    /\ (forall n, eligible e w n -> In (depth e n) hs -> Post (compSpots w' n))
    /\ (forall n, ~ (eligible e w n /\ In (depth e n) hs) ->
          compSpots w' n = compSpots w n)
    /\ same_static w w'.
Proof.
  induction hs as [|h hs IH]; intros w Hnd Hh Hu HV; simpl.
  - exists w. split; [reflexivity|]. split; [intros n _ []|].
    split; [reflexivity|]. intro n. split; reflexivity.
  - inversion Hh as [|? ? Hnotin Hh']; subst.
    destruct (replace_at_height_spec w h Hnd Hu HV)
      as [w1 [E [Hu1 [S1 [O1 St1]]]]].
    rewrite E. simpl.
    assert (forall n, eligible e w1 n <-> eligible e w n) as Hel.
    { intro n. unfold eligible. destruct (St1 n) as [-> _]. tauto. }
    destruct (IH w1 Hnd Hh' Hu1) as [w' [E' [S' [O' St']]]].
    { intros n El. destruct (St1 n) as [_ ->]. apply HV. now apply Hel. }
    exists w'. split; [exact E'|]. split; [|split].
    + intros n El [Hd|Hd].
      * rewrite O'.
        -- apply S1; [exact El|]. symmetry. exact Hd.
        -- intros [_ I]. rewrite <- Hd in I. contradiction.
      * apply S'; [now apply Hel|exact Hd].
    + intros n N. rewrite O', O1; try reflexivity.
      * intros [El Hd]. apply N. split; [exact El|]. left. symmetry. exact Hd.
      * intros [El Hd]. apply N. split; [now apply Hel|]. now right.
    + intro n. destruct (St1 n) as [A1 A2], (St' n) as [B1 B2].
      rewrite B1, B2, A1, A2. split; reflexivity.
Qed.

End Pass.

Lemma py_range_NoDup n : NoDup (py_range n).
Proof.
  unfold py_range. apply Finite.Injective_map_NoDup.
  - intros a b. apply Nat2Z.inj.
  - apply seq_NoDup.
Qed.

Lemma py_range_In n x : In x (py_range n) <-> 0 <= x < n.
Proof.
  unfold py_range. rewrite in_map_iff. split.
  - intros [k [<- I]]. apply in_seq in I. lia.
  - intro H. exists (Z.to_nat x). split; [lia|]. apply in_seq. lia.
Qed.

Lemma report_node_spots e w node :
  compSpots (Coordinated.report_node e w node) = compSpots w.
Proof.
  unfold Coordinated.report_node. destruct (is_cloud _); [reflexivity|].
  destruct (fold_left _ _ _) as [[snap toAdd] toReplace].
  assert (forall l w0, compSpots
     (fold_left (fun w indx =>
                   log (controller_reassign_vm node (nth_error toReplace indx) toAdd) w)
        l w0) = compSpots w0) as K.
  { induction l as [|x l IH]; intro w0; simpl; [reflexivity|]. now rewrite IH. }
  rewrite K. reflexivity.
Qed.

Lemma report_spots e : forall nodes w,
  compSpots (fold_left (Coordinated.report_node e) nodes w) = compSpots w.
Proof.
  induction nodes as [|n nodes IH]; intro w; simpl; [reflexivity|].
  rewrite IH. apply report_node_spots.
Qed.

Lemma replace_services_spec e G Post time w :
  (forall w node,
     G (serviceNodeUtil w) ->
     0 <= numOfVMs (compSpots w node) ->
     cleared e (compSpots w node) ->
     exists w' f,
       Coordinated.place_services e w node = Ok w'
       /\ G (serviceNodeUtil w')
       /\ (forall n, compSpots w' n
                     = upd (compSpots w) node
                         (set_instances f (compSpots w node)) n)
       /\ Post (set_instances f (compSpots w node))) ->
  NoDup (service_nodes e) ->
  G (serviceNodeUtil w) ->
  (forall n, In n (service_nodes e) -> 0 <= numOfVMs (compSpots w n)) ->
  exists w',
    Coordinated.replace_services e time w = Ok w'
    /\ (forall n, placed_node e w n -> Post (compSpots w' n))
    /\ (forall n, ~ placed_node e w n -> compSpots w' n = compSpots w n).
Proof.
  intros Hplace Hnd Hu HV. unfold Coordinated.replace_services.
  destruct (heights_spec e G Post Hplace (py_range (height e + 1)) w Hnd
              (py_range_NoDup _) Hu) as [w1 [E [S [O _]]]].
  { intros n [I _]. now apply HV. }
  rewrite E. simpl. eexists. split; [reflexivity|].
  assert (forall n, placed_node e w n
                    <-> eligible e w n /\ In (depth e n) (py_range (height e + 1)))
    as Hp.
  { intro n. unfold placed_node, eligible. rewrite py_range_In.
    split; intros; repeat split; try tauto; lia. }
  split; intros n H; rewrite report_spots.
  - apply S; apply Hp; exact H.
  - apply O. rewrite <- Hp. exact H.
Qed.

(* ---- __init__ ---- *)
Lemma deal_vm_sum e cs : forall l st,
  0 < service_population_size cs <= Z.of_nat (num_services e) ->
  (forall vm, In vm l -> 0 <= vm) ->
  sumf (fst (fold_left (Coordinated.deal_vm cs) l st)) (num_services e)
  = sumf (fst st) (num_services e) + Z.of_nat (length l).
Proof.
  induction l as [|vm l IH]; intros [inst snap] Hs Hl; simpl fold_left.
  - simpl. lia.
  - rewrite IH; [|exact Hs|intros; apply Hl; now right].
    unfold Coordinated.deal_vm. cbn [fst].
    rewrite sumf_upd.
    + simpl length. lia.
    + pose proof (Z.mod_pos_bound vm (service_population_size cs)). lia.
Qed.

Lemma init_spot_spec e w node :
  (is_cloud (compSpots w node) = false ->
   0 <= numOfVMs (compSpots w node)
   /\ 0 < service_population_size (compSpots w node) <= Z.of_nat (num_services e)) ->
  exists w' f,
    Coordinated.init_spot e w node = Ok w'
    /\ (forall n, compSpots w' n
                  = upd (compSpots w) node (set_instances f (compSpots w node)) n)
    /\ (is_cloud (compSpots w node) = false ->
        total_instances e (set_instances f (compSpots w node))
        = numOfVMs (compSpots w node)).
Proof.
  intro H. unfold Coordinated.init_spot.
  set (cs := compSpots w node) in *.
  destruct (is_cloud cs) eqn:Ec.
  - exists w, (numberOfServiceInstances cs). split; [reflexivity|].
    rewrite set_instances_id. split; [|discriminate].
    intro n. unfold upd. destruct (Nat.eqb n node) eqn:E; [|reflexivity].
    apply Nat.eqb_eq in E. subst. reflexivity.
  - destruct (H eq_refl) as [HV Hs].
    replace (service_population_size cs =? 0) with false
      by (symmetry; apply Z.eqb_neq; lia).
    rewrite andb_false_r.
    set (zeroed := fold_left _ (seq 0 (num_services e)) _).
    pose proof (deal_vm_sum e cs (py_range (numOfVMs cs))
                  (zeroed, numVMsPerService w) Hs) as Hsum.
    destruct (fold_left (Coordinated.deal_vm cs) _ _) as [inst snap].
    exists (set_numVMsPerService snap (set_spot node (set_instances inst cs) w)), inst.
    split; [reflexivity|]. split; [intro n; reflexivity|].
    intros _. unfold total_instances. simpl.
    fold (sumf inst (num_services e)). simpl in Hsum. rewrite Hsum.
    + rewrite sumf_zero.
      * unfold py_range. rewrite length_map, length_seq. lia.
      * apply (zero_instances_cleared e cs).
    + intros vm I. apply py_range_In in I. lia.
Qed.

Lemma init_fold e : forall nodes w,
  (forall n, In n nodes -> is_cloud (compSpots w n) = false ->
     0 <= numOfVMs (compSpots w n)
     /\ 0 < service_population_size (compSpots w n) <= Z.of_nat (num_services e)) ->
  exists w',
    foldM (Coordinated.init_spot e) nodes w = Ok w'
    /\ (forall n, In n nodes -> is_cloud (compSpots w n) = false ->
          total_instances e (compSpots w' n) = numOfVMs (compSpots w' n))
    /\ (forall n, exists f, compSpots w' n = set_instances f (compSpots w n))
    /\ (forall n, ~ In n nodes -> compSpots w' n = compSpots w n).
Proof.
  induction nodes as [|node nodes IH]; intros w H; simpl.
  - exists w. split; [reflexivity|]. split; [intros n []|].
    split; [|reflexivity]. intro n. exists (numberOfServiceInstances (compSpots w n)).
    now rewrite set_instances_id.
  - destruct (init_spot_spec e w node (H node (or_introl eq_refl)))
      as [w1 [f [E [Hs1 Ht]]]].
    rewrite E. simpl.
    assert (forall n, exists g, compSpots w1 n = set_instances g (compSpots w n))
      as Hform.
    { intro n. rewrite Hs1. unfold upd. destruct (Nat.eqb n node) eqn:En.
      - apply Nat.eqb_eq in En. subst. now exists f.
      - exists (numberOfServiceInstances (compSpots w n)).
        now rewrite set_instances_id. }
    destruct (IH w1) as [w' [E' [T' [F' O']]]].
    { intros n I. destruct (Hform n) as [g ->]. simpl. apply H. now right. }
    exists w'. split; [exact E'|]. split; [|split].
    + intros n I Hc. destruct (in_dec Nat.eq_dec n nodes) as [I'|N].
      * apply T'; [exact I'|]. destruct (Hform n) as [g ->]. exact Hc.
      * destruct I as [->|I]; [|contradiction].
        rewrite (O' n N), Hs1, upd_same. simpl. apply Ht. exact Hc.
    + intro n. destruct (F' n) as [g ->]. destruct (Hform n) as [g' ->].
      exists g. reflexivity.
    + intros n N. simpl in N. rewrite O' by tauto. rewrite Hs1.
      apply upd_other. intro; subst; tauto.
Qed.

Lemma settled_bounds e cs :
  0 <= numOfVMs cs -> settled e cs ->
  0 <= total_instances e cs <= numOfVMs cs.
Proof.
  intros HV [Hn [Ht|Hc]].
  - rewrite Ht. lia.
  - unfold total_instances. fold (sumf (numberOfServiceInstances cs) (num_services e)).
    rewrite sumf_zero by exact Hc. lia.
Qed.


(* ----------------------------------------------------------------- *)
(** *** The instance totals of COORDINATED *)

Lemma fixture_nodes_NoDup : NoDup (service_nodes Fixture.env).
Proof.
  simpl. constructor; [|constructor; [|constructor]]; simpl; intuition discriminate.
Qed.

Lemma fixture_vms_nonneg w :
  (forall n, exists f, compSpots w n = set_instances f (Fixture.spots n)) ->
  forall n, In n (service_nodes Fixture.env) -> 0 <= numOfVMs (compSpots w n).
Proof.
  intros H n I. destruct (H n) as [f ->]. simpl in I.
  destruct I as [<-|[<-|[]]]; simpl; lia.
Qed.

Lemma fixture_started_spots n :
  exists f, compSpots Fixture.started n = set_instances f (Fixture.spots n).
Proof.
  destruct n as [|n].
  - eexists. reflexivity.
  - exists (numberOfServiceInstances (Fixture.spots (S n))). reflexivity.
Qed.

(** C1 (amended): after COORDINATED's [__init__] every non-cloud compute
    spot has as many service instances as VMs; after a COORDINATED
    replacement pass every spot the pass placed services at has all its VMs
    assigned, or none of them (so the sum is numOfVMs or 0, never more). *)
Theorem coordinated_instances_total e spots time w :
  rounds_to_nearest (py_round e) ->
  (0 < replacement_interval e)%Q ->
  NoDup (service_nodes e) ->
  (forall n, In n (service_nodes e) -> is_cloud (spots n) = false ->
     0 <= numOfVMs (spots n)
     /\ 0 < service_population_size (spots n) <= Z.of_nat (num_services e)) ->
  (forall n, In n (service_nodes e) -> 0 <= numOfVMs (compSpots w n)) ->
  (forall ap n s, (0 <= serviceNodeUtil w ap n s)%Q) ->
  (exists w0,
     Coordinated.init e spots = Ok w0
     /\ forall n, In n (service_nodes e) -> is_cloud (spots n) = false ->
          total_instances e (compSpots w0 n) = numOfVMs (compSpots w0 n))
  /\ (exists w',
        Coordinated.replace_services e time w = Ok w'
        /\ forall n, placed_node e w n ->
             0 <= total_instances e (compSpots w' n) <= numOfVMs (compSpots w' n)
             /\ (total_instances e (compSpots w' n) = numOfVMs (compSpots w' n)
                 \/ cleared e (compSpots w' n))).
Proof.
  intros Hr Hi Hnd Hspots HV Hu. split.
  - unfold Coordinated.init.
    destruct (init_fold e (service_nodes e)
                (mkWorld 0 (fun _ _ _ => 0%Q) (fun _ _ => 0) (fun _ _ => Fin 0)
                   (fun _ _ => Fin 0) 0%nat 0%nat spots [])) as [w0 [E [T _]]].
    + exact Hspots.
    + exists w0. split; [exact E|]. exact T.
  - destruct (replace_services_spec e nonneg_util
                (fun cs => 0 <= numOfVMs cs /\ settled e cs) time w)
      as [w' [E [S _]]]; try assumption.
    + intros w1 node G1 V1 C1.
      destruct (place_services_settles e w1 node Hr Hi G1 V1 C1)
        as [w2 [f [E2 [G2 [F2 S2]]]]].
      exists w2, f. repeat split; try assumption; apply S2.
    + exists w'. split; [exact E|].
      intros n Hp. destruct (S n Hp) as [V S']. split.
      * now apply settled_bounds.
      * apply S'.
Qed.

(** The fixture meets the hypotheses: two VMs at edge spot 0, demand for
    service 1. *)
Lemma coordinated_instances_total_witness :
  (exists w0,
     Coordinated.init Fixture.env Fixture.spots = Ok w0
     /\ forall n, In n (service_nodes Fixture.env) ->
          is_cloud (Fixture.spots n) = false ->
          total_instances Fixture.env (compSpots w0 n) = numOfVMs (compSpots w0 n))
  /\ (exists w',
        Coordinated.replace_services Fixture.env 20 Fixture.busy = Ok w'
        /\ forall n, placed_node Fixture.env Fixture.busy n ->
             0 <= total_instances Fixture.env (compSpots w' n)
               <= numOfVMs (compSpots w' n)
             /\ (total_instances Fixture.env (compSpots w' n)
                 = numOfVMs (compSpots w' n)
                 \/ cleared Fixture.env (compSpots w' n))).
Proof.
  apply (coordinated_instances_total Fixture.env Fixture.spots 20 Fixture.busy).
  - exact round_half_even_nearest.
  - reflexivity.
  - exact fixture_nodes_NoDup.
  - intros n I C. simpl in I. destruct I as [<-|[<-|[]]]; simpl in *.
    + lia.
    + discriminate.
  - exact (fixture_vms_nonneg Fixture.busy fixture_started_spots).
  - intros ap n s. simpl. unfold upd3, upd2, upd.
    destruct (Nat.eqb ap 0); [|apply Qle_refl].
    destruct (Nat.eqb n 0); [|apply Qle_refl].
    destruct (Nat.eqb s 1); [discriminate|apply Qle_refl].
Defined.

(** C1, as stated, fails: the event at time 20 starts a replacement pass
    over an interval without requests, and when the event has been
    processed the edge spot 0, which is not the cloud and has 2 VMs, runs no
    service instance. *)
Lemma coordinated_instances_total_counterexample :
  exists w',
    Coordinated.process_event Fixture.env 20 10 0 true 10 1 30 0 REQUEST
      Fixture.started = Ok w'
    /\ is_cloud (compSpots w' 0%nat) = false
    /\ numOfVMs (compSpots w' 0%nat) = 2
    /\ total_instances Fixture.env (compSpots w' 0%nat) = 0.
Proof.
  eexists. split; [vm_compute; reflexivity|]. vm_compute. repeat split.
Qed.

(* ----------------------------------------------------------------- *)
(** *** A replacement pass without traffic *)

(** C4 (amended): when every [serviceNodeUtil] accumulator is zero, a
    COORDINATED replacement pass leaves every compute spot it places
    services at without any service instance, and does not touch the other
    spots; so the vector after the pass equals the vector before it only
    where that was zero already. *)
Theorem zero_traffic_pass_clears e time w :
  rounds_to_nearest (py_round e) ->
  (0 < replacement_interval e)%Q ->
  NoDup (service_nodes e) ->
  (forall n, In n (service_nodes e) -> 0 <= numOfVMs (compSpots w n)) ->
  (forall ap n s, (serviceNodeUtil w ap n s == 0)%Q) ->
  exists w',
    Coordinated.replace_services e time w = Ok w'
    /\ (forall n, placed_node e w n -> cleared e (compSpots w' n))
    /\ (forall n, ~ placed_node e w n -> compSpots w' n = compSpots w n).
Proof.
  intros Hr Hi Hnd HV Hu.
  apply (replace_services_spec e zero_util (cleared e) time w); try assumption.
  intros w1 node G1 V1 C1. now apply place_services_idle.
Qed.

(** The fixture right after [__init__] meets the hypotheses. *)
Lemma zero_traffic_pass_clears_witness :
  exists w',
    Coordinated.replace_services Fixture.env 20 Fixture.started = Ok w'
    /\ (forall n, placed_node Fixture.env Fixture.started n ->
          cleared Fixture.env (compSpots w' n))
    /\ (forall n, ~ placed_node Fixture.env Fixture.started n ->
          compSpots w' n = compSpots Fixture.started n).
Proof.
  apply (zero_traffic_pass_clears Fixture.env 20 Fixture.started).
  - exact round_half_even_nearest.
  - reflexivity.
  - exact fixture_nodes_NoDup.
  - exact (fixture_vms_nonneg Fixture.started fixture_started_spots).
  - intros ap n s. reflexivity.
Defined.

(** C4, as stated, fails: [__init__] gives edge spot 0 one instance of
    each of the two services, no request is recorded, and the replacement
    pass leaves it with none. *)
Lemma zero_traffic_pass_counterexample :
  exists w',
    (forall ap n s, serviceNodeUtil Fixture.started ap n s = 0%Q)
    /\ Coordinated.replace_services Fixture.env 20 Fixture.started = Ok w'
    /\ is_cloud (compSpots Fixture.started 0%nat) = false
    /\ map (numberOfServiceInstances (compSpots Fixture.started 0%nat)) [0; 1]%nat
       = [1; 1]
    /\ map (numberOfServiceInstances (compSpots w' 0%nat)) [0; 1]%nat = [0; 0].
Proof.
  eexists. split; [intros; reflexivity|].
  split; [vm_compute; reflexivity|]. vm_compute. repeat split.
Qed.

(* ----------------------------------------------------------------- *)
(** *** The report of a COORDINATED pass *)

Lemma py_range_nonpos d : d <= 0 -> py_range d = [].
Proof.
  intro H. unfold py_range. replace (Z.to_nat d) with 0%nat by lia. reflexivity.
Qed.

(** [servicesToReplace] never grows: the loop that should fill it runs over
    [range(diff)] with [diff < 0]. *)
Lemma diff_service_replace cs st service :
  snd (Coordinated.diff_service cs st service) = snd st.
Proof.
  destruct st as [[snap toAdd] toReplace]. unfold Coordinated.diff_service.
  destruct (0 <? _) eqn:E1; [reflexivity|].
  destruct (_ <? 0) eqn:E2; [|reflexivity].
  apply Z.ltb_lt in E2. rewrite py_range_nonpos by lia. simpl.
  apply app_nil_r.
Qed.

Lemma diff_fold_replace cs : forall l st,
  snd (fold_left (Coordinated.diff_service cs) l st) = snd st.
Proof.
  induction l as [|s l IH]; intro st; simpl; [reflexivity|].
  rewrite IH. apply diff_service_replace.
Qed.

(** C3 (code defect): at edge spot 0 the snapshot is one VM for each
    service and the pass moves both VMs to service 1.  Service 0 lost one
    VM, yet the report carries no eviction: the only call is
    [reassign_vm(0, None, [1])]. *)
Theorem coordinated_report_has_no_eviction :
  exists w',
    Coordinated.replace_services Fixture.env 20 Fixture.busy = Ok w'
    /\ map (numVMsPerService Fixture.busy 0%nat) [0; 1]%nat = [1; 1]
    /\ map (numberOfServiceInstances (compSpots w' 0%nat)) [0; 1]%nat = [0; 2]
    /\ trace w' = trace Fixture.busy ++ [controller_reassign_vm 0 None [1%nat]].
Proof.
  eexists. split; [vm_compute; reflexivity|]. vm_compute. repeat split.
Qed.

(* ----------------------------------------------------------------- *)
(** *** find_topmost_feasible_node *)

Lemma refresh_oids proj : forall q start,
  map Task.oid (Coordinated.refresh proj start q) = map Task.oid q.
Proof.
  unfold Coordinated.refresh.
  induction q as [|k q IH]; intro start; simpl; [reflexivity|].
  f_equal. apply IH.
Qed.

Lemma probed_upcoming_oids e receiver flow_id time service deadline rtt_delay n w :
  Permutation
    (map Task.oid
       (upcomingTaskQueue
          (scheduler
             (compSpots
                (Coordinated.probed e receiver flow_id time service deadline
                   rtt_delay n w) n))))
    (next_oid w
     :: map Task.oid (upcomingTaskQueue (scheduler (compSpots w n)))).
Proof.
  unfold Coordinated.probed, Coordinated.compute_completion_times. simpl.
  rewrite !upd_same. simpl. rewrite refresh_oids.
  rewrite (Permutation_map Task.oid (sorted_by_perm _ _)).
  rewrite map_app. simpl. symmetry. apply Permutation_cons_append.
Qed.

Lemma probed_other e receiver flow_id time service deadline rtt_delay n w m :
  m <> n ->
  compSpots (Coordinated.probed e receiver flow_id time service deadline
               rtt_delay n w) m = compSpots w m.
Proof.
  intro H. unfold Coordinated.probed, Coordinated.compute_completion_times.
  simpl. rewrite !upd_other by exact H. reflexivity.
Qed.

Lemma remove_task_unique o : forall q,
  count_occ Nat.eq_dec (map Task.oid q) o = 1%nat ->
  Coordinated.remove_task o q
  = Some (filter (fun k => negb (Nat.eqb (Task.oid k) o)) q).
Proof.
  induction q as [|k q IH]; intro H; simpl in *; [discriminate|].
  destruct (Nat.eq_dec (Task.oid k) o) as [E|N].
  - rewrite E, Nat.eqb_refl. simpl. f_equal.
    assert (count_occ Nat.eq_dec (map Task.oid q) o = 0%nat) as Z by lia.
    apply count_occ_not_In in Z.
    symmetry. apply forallb_filter_id. apply forallb_forall.
    intros x I. apply negb_true_iff, Nat.eqb_neq. intro Ex. apply Z.
    rewrite <- Ex. now apply in_map.
  - apply Nat.eqb_neq in N. rewrite N. simpl. rewrite IH by exact H. reflexivity.
Qed.

Lemma violates_iff delay k :
  Coordinated.violates delay k = false
  <-> (Task.completionTime k <= Task.expiry k - delay)%Q.
Proof. unfold Coordinated.violates. apply qlt_false. Qed.

Lemma existsb_violates delay l :
  existsb (Coordinated.violates delay) l = false
  <-> Forall (fun k => (Task.completionTime k <= Task.expiry k - delay)%Q) l.
Proof.
  induction l as [|k l IH]; simpl.
  - split; [constructor|reflexivity].
  - rewrite orb_false_iff, IH, violates_iff. split.
    + intros [A B]. now constructor.
    + intro H. inversion H; subst. tauto.
Qed.

Lemma candidate_qualifies e receiver time service deadline rtt_delay n w :
  Coordinated.candidate e receiver time service deadline rtt_delay n w = true
  <-> qualifies e receiver time service deadline rtt_delay n w.
Proof.
  unfold Coordinated.candidate, qualifies. cbv zeta.
  rewrite !andb_true_iff, !negb_true_iff, Z.eqb_neq, qlt_false. tauto.
Qed.




Lemma fixture_started_fresh : fresh_oids Fixture.started.
Proof.
  intros n k I. destruct (fixture_started_spots n) as [f E]. rewrite E in I.
  destruct n as [|n]; simpl in I; contradiction.
Qed.


(** On the path 10 - 0 - 1 the edge node 0 takes the request when its
    queue stays in time, keeping the tentative task; when the projection
    is late the task is withdrawn and the origin 1 is the answer. *)
Example find_topmost_accepts :
  exists w',
    Coordinated.find_topmost_feasible_node Fixture.env 10 1 [10; 0; 1]%nat 5 0
      30 0 Fixture.started = Ok (0%nat, w')
    /\ map Task.flow_id (upcomingTaskQueue (scheduler (compSpots w' 0%nat)))
       = [1%nat].
Proof. eexists. split; vm_compute; reflexivity. Qed.

Example find_topmost_falls_back :
  exists w',
    Coordinated.find_topmost_feasible_node Fixture.slow_env 10 1 [10; 0; 1]%nat
      5 0 30 0 Fixture.started = Ok (1%nat, w')
    /\ upcomingTaskQueue (scheduler (compSpots w' 0%nat)) = []
    /\ next_oid w' = 1%nat.
Proof. eexists. split; [|split]; vm_compute; reflexivity. Qed.


(* ----------------------------------------------------------------- *)
(** *** LRU: a request at an intermediate node *)

Lemma lru_handle_is_request e time receiver service log_ node flow_id deadline
  rtt_delay w :
  receiver <> node ->
  has_computationalSpot e node = true ->
  Lru.handle e time receiver service log_ node flow_id deadline rtt_delay
    REQUEST w
  = Lru.handle_request e time receiver service node flow_id deadline rtt_delay w.
Proof.
  intros Hn Hc. unfold Lru.handle.
  apply Nat.eqb_neq in Hn. rewrite Hn, Hc. reflexivity.
Qed.

(** The slack test of line 450. *)
Lemma lru_install_outcome e time service node deadline rtt_delay delay w :
  let forced :=
    qlt (deadline - time - rtt_delay - 2 * delay)
        (Service.service_time (cs_services (compSpots w node) service)) in
  (forced = true ->
   Lru.install e time service node deadline rtt_delay delay w
   = Raise (TypeError "reassign_vm"
              [PController; PController;
               put_content_result e (log (put_content node service) w) node
                 service;
               PService service; PBool (debug e)]))
  /\ (forced = false ->
      exists w2 evict,
        Lru.install e time service node deadline rtt_delay delay w = Ok w2
        /\ trace w2 = trace w ++ evict
        /\ (evict = []
            \/ exists evicted,
                 evict
                 = [put_content node service;
                    cs_reassign_vm node
                      [PController; evicted; PService service;
                       PBool (debug e)]])).
Proof.
  intro forced. subst forced. unfold Lru.install.
  destruct (qlt _ _); split; try discriminate; intros _.
  - reflexivity.
  - destruct (Qeq_bool (p e) 1).
    + eexists. eexists. split; [reflexivity|].
      split; [simpl; rewrite <- app_assoc; reflexivity|].
      right. eexists. reflexivity.
    + destruct (qle _ _).
      * eexists. eexists. split; [reflexivity|].
        split; [simpl; rewrite <- app_assoc; reflexivity|].
        right. eexists. reflexivity.
      * eexists. exists []. split; [reflexivity|].
        split; [simpl; now rewrite app_nil_r|]. now left.
Qed.

(** C10 (code defect): at an intermediate compute node LRU calls
    [admit_task] once.  If the task is accepted the only further call is
    [get_content(node, service)].  If it is rejected and the forced
    installation of line 452 is not reached, the last call is the REQUEST
    event for the next node, at [time + delay] and with
    [rtt_delay + 2 * delay]; before it come [put_content] and the
    four-argument [reassign_vm], or nothing, and nothing unless the reason
    is NO_INSTANCES.  If it is rejected with NO_INSTANCES and the slack
    test of line 450 holds, the five-argument call of line 452 raises
    TypeError and the request is not forwarded. *)
Theorem lru_request_outcomes e time receiver service log_ node flow_id deadline
  rtt_delay w next_node :
  receiver <> node ->
  has_computationalSpot e node = true ->
  second (shortest_path e node (content_source e service)) = Ok next_node ->
  let w0 := Lru.periodic e time flow_id w in
  let delay := path_delay e node next_node in
  let admitted :=
    call_admit_task e node service time flow_id deadline receiver rtt_delay w0 in
  let ret := fst (fst admitted) in
  let reason := snd (fst admitted) in
  let w1 := snd admitted in
  let forced :=
    (reason =? NO_INSTANCES)
    && qlt (deadline - time - rtt_delay - 2 * delay)
         (Service.service_time (cs_services (compSpots w1 node) service)) in
  let outcome :=
    Lru.process_event e time receiver service log_ node flow_id deadline
      rtt_delay REQUEST w in
  (ret = true ->
   exists w', outcome = Ok w' /\ trace w' = trace w1 ++ [get_content node service])
  /\ (ret = false -> forced = false ->
      exists w' evict,
        outcome = Ok w'
        /\ trace w'
           = trace w1 ++ evict
             ++ [add_event (time + delay) receiver service next_node flow_id
                   deadline (rtt_delay + 2 * delay) REQUEST]
        /\ (evict = []
            \/ exists evicted,
                 evict
                 = [put_content node service;
                    cs_reassign_vm node
                      [PController; evicted; PService service;
                       PBool (debug e)]])
        /\ (reason <> NO_INSTANCES -> evict = []))
  /\ (ret = false -> forced = true ->
      outcome
      = Raise (TypeError "reassign_vm"
                 [PController; PController;
                  put_content_result e (log (put_content node service) w1) node
                    service;
                  PService service; PBool (debug e)])).
Proof.
  intros Hn Hc Hp w0 delay admitted ret reason w1 forced outcome.
  subst outcome. unfold Lru.process_event. fold w0.
  rewrite lru_handle_is_request by assumption.
  unfold Lru.handle_request. rewrite Hp. cbn [bind]. fold delay. fold admitted.
  subst forced ret reason w1.
  destruct admitted as [[ret reason] w1]. cbn [fst snd].
  destruct (lru_install_outcome e time service node deadline rtt_delay delay w1)
    as [Hforced Hfree].
  split; [|split].
  - intros ->. cbn [negb]. eexists. split; reflexivity.
  - intros -> Hf. cbn [negb].
    destruct (reason =? NO_INSTANCES) eqn:Er; cbn [andb] in Hf.
    + destruct (Hfree Hf) as [w2 [evict [Ei [Et Hev]]]]. rewrite Ei. cbn [bind].
      eexists. exists evict. split; [reflexivity|].
      split; [simpl; rewrite Et, <- app_assoc; reflexivity|].
      split; [exact Hev|]. apply Z.eqb_eq in Er. congruence.
    + cbn [bind]. eexists. exists []. split; [reflexivity|].
      split; [reflexivity|]. split; [now left|reflexivity].
  - intros -> Hf. cbn [negb]. apply andb_true_iff in Hf. destruct Hf as [Er Hf].
    rewrite Er, (Hforced Hf). reflexivity.
Qed.

(** The request of the fixture that finds no instance at edge node 0, with
    the slack [2 - 1 - 2 - 2*1 < 1]: it is not forwarded. *)
Lemma lru_request_outcomes_witness :
  fst (call_admit_task Fixture.env 0 0 1 1 2 10 2
         (Lru.periodic Fixture.env 1 1 Fixture.idle))
  = (false, NO_INSTANCES)
  /\ Lru.process_event Fixture.env 1 10 0 true 0 1 2 2 REQUEST Fixture.idle
     = Raise (TypeError "reassign_vm"
                [PController; PController; PService 0; PService 0; PBool false]).
Proof.
  split; [reflexivity|].
  destruct (lru_request_outcomes Fixture.env 1 10 0 true 0 1 2 2 Fixture.idle 1)
    as [_ [_ H]].
  - discriminate.
  - reflexivity.
  - reflexivity.
  - apply H; reflexivity.
Defined.

(** C8 (code defect): a request for service 0 reaches edge node 0, which
    runs no instance of it, with slack [2 - 1 - 2 - 2*1 < 1].  LRU evicts
    through [put_content], and then the call on the compute spot is
    [reassign_vm(controller, controller, evicted, service, debug)], five
    positional arguments with the controller twice, not the four-argument
    form of the other branch: the call is a TypeError. *)
Theorem lru_forced_install_call :
  let admitted :=
    snd (call_admit_task Fixture.env 0 0 1 1 2 10 2
           (Lru.periodic Fixture.env 1 1 Fixture.idle)) in
  trace (snd (call_put_content Fixture.env 0 0 admitted))
  = [cs_admit_task 0 0 1 1 2 10 2; put_content 0 0]
  /\ Lru.install Fixture.env 1 0 0 2 2 1 admitted
     = call_reassign_vm_checked Fixture.env 0
         [PController; PController;
          fst (call_put_content Fixture.env 0 0 admitted);
          PService 0; PBool (debug Fixture.env)]
         (snd (call_put_content Fixture.env 0 0 admitted))
  /\ Lru.process_event Fixture.env 1 10 0 true 0 1 2 2 REQUEST Fixture.idle
     = Raise (TypeError "reassign_vm"
                [PController; PController; PService 0; PService 0; PBool false]).
Proof. split; [|split]; vm_compute; reflexivity. Qed.

(* ----------------------------------------------------------------- *)
(** *** HYBRID: which VM is reassigned *)



Lemma xlt_irrefl a : xlt a a = false.
Proof.
  destruct a as [x|]; simpl; [|reflexivity].
  apply qlt_false. apply Qle_refl.
Qed.


Lemma scan_post_cons delay service_missed missed_util seen x running r :
  passed_over delay service_missed missed_util x ->
  scan_post delay service_missed missed_util (seen ++ [x]) running r ->
  scan_post delay service_missed missed_util seen (x :: running) r.
Proof.
  intros Hx H. destruct r as [|sr rest|]; simpl in *.
  - destruct H as [pre [y [post [E [L F]]]]].
    exists (x :: pre), y, post. subst. repeat split; try assumption.
    now constructor.
  - destruct H as [pre [ru [post [E [R [N [A F]]]]]]].
    exists (x :: pre), ru, post. subst. split; [reflexivity|].
    split; [now rewrite <- app_assoc|].
    repeat split; try assumption; try apply A. now constructor.
  - now constructor.
Qed.

(** One scan of the running entries for a missed service: it answers
    [ExitLoop] at the first entry used more than the missed service;
    otherwise [Reassign] with the first entry, of another service, that
    passes the test of line 579, and the entries without it; every entry
    before it fails that test. *)
Lemma hybrid_scan_decides delay service_missed missed_util :
  forall running seen,
    scan_post delay service_missed missed_util seen running
      (Hybrid.scan delay service_missed missed_util seen running).
Proof.
  induction running as [|[sr ru] running IH]; intro seen; cbn [Hybrid.scan].
  - constructor.
  - destruct (qlt missed_util ru) eqn:E1.
    + cbn [scan_post]. exists [], (sr, ru), running. split; [reflexivity|].
      split; [now apply qlt_true|constructor].
    + apply qlt_false in E1.
      destruct (Nat.eqb sr service_missed) eqn:E2.
      * apply scan_post_cons; [|apply IH].
        split; [exact E1|]. intros [_ [R2 _]]. simpl in R2.
        apply Nat.eqb_eq in E2. subst. rewrite xlt_irrefl in R2. discriminate.
      * destruct (qle ru missed_util
                  && xlt (delay service_missed) (delay sr)
                  && xlt (Fin 0) (delay service_missed)) eqn:E3.
        -- apply andb_true_iff in E3. destruct E3 as [E3 R3].
           apply andb_true_iff in E3. destruct E3 as [_ R2].
           cbn [scan_post]. exists [], ru, running. split; [reflexivity|].
           split; [reflexivity|]. split; [now apply Nat.eqb_neq|].
           split; [|constructor]. repeat split; assumption.
        -- apply scan_post_cons; [|apply IH].
           split; [exact E1|]. intros [_ [R2 R3]]. simpl in R2.
           rewrite R2, R3 in E3. apply qle_true in E1. rewrite E1 in E3.
           discriminate.
Qed.

(** The calls of the loop are the reassignments the scans decide. *)
Lemma reassign_loop_trace e node delay : forall missed running w,
  trace (Hybrid.reassign_loop e node delay missed running w)
  = trace w
    ++ map (fun x => cs_reassign_vm node
                       [PController; PService (fst x); PService (snd x);
                        PBool (debug e)])
         (reassignments delay missed running).
Proof.
  induction missed as [|[sm mu] missed IH]; intros running w; simpl.
  - now rewrite app_nil_r.
  - destruct (Hybrid.scan delay sm mu [] running) as [|sr rest|]; simpl.
    + now rewrite app_nil_r.
    + rewrite IH. simpl. now rewrite <- app_assoc.
    + apply IH.
Qed.

Lemma insert_by_sorted {A} (leb : A -> A -> bool) (R : A -> A -> Prop) x l :
  (forall a b, leb a b = true -> R a b) ->
  (forall a b, leb a b = false -> R b a) ->
  (forall a b c, R a b -> R b c -> R a c) ->
  StronglySorted R l -> StronglySorted R (insert_by leb x l).
Proof.
  intros Hle Hgt Htr. induction l as [|y l IH]; intro Hs; simpl.
  - constructor; constructor.
  - inversion Hs as [|? ? Hl Hy]; subst. destruct (leb x y) eqn:E.
    + constructor; [exact Hs|]. constructor; [now apply Hle|].
      eapply Forall_impl; [|exact Hy]. intros a Ha.
      apply (Htr x y a); [now apply Hle|exact Ha].
    + constructor; [now apply IH|].
      apply (Permutation_Forall (Permutation_sym (insert_by_perm leb x l))).
      constructor; [now apply Hgt|exact Hy].
Qed.

Lemma sorted_by_sorted {A} (leb : A -> A -> bool) (R : A -> A -> Prop) l :
  (forall a b, leb a b = true -> R a b) ->
  (forall a b, leb a b = false -> R b a) ->
  (forall a b c, R a b -> R b c -> R a c) ->
  StronglySorted R (sorted_by leb l).
Proof.
  intros Hle Hgt Htr. induction l as [|x l IH]; simpl; [constructor|].
  now apply insert_by_sorted.
Qed.

Lemma sorted_by_snd_asc (l : list (nat * Q)) :
  StronglySorted (fun a b => (snd a <= snd b)%Q) (sorted_by by_snd_asc l).
Proof.
  apply sorted_by_sorted.
  - intros a b H. now apply qle_true in H.
  - intros a b H. unfold by_snd_asc in H.
    destruct (Qlt_le_dec (snd b) (snd a)) as [L|L]; [now apply Qlt_le_weak|].
    apply qle_true in L. congruence.
  - intros a b c H1 H2. now apply (Qle_trans _ (snd b)).
Qed.

Lemma sorted_by_snd_desc (l : list (nat * Q)) :
  StronglySorted (fun a b => (snd b <= snd a)%Q) (sorted_by by_snd_desc l).
Proof.
  apply sorted_by_sorted.
  - intros a b H. now apply qle_true in H.
  - intros a b H. unfold by_snd_desc in H.
    destruct (Qlt_le_dec (snd a) (snd b)) as [L|L]; [now apply Qlt_le_weak|].
    apply qle_true in L. congruence.
  - intros a b c H1 H2. now apply (Qle_trans _ (snd b)).
Qed.

Lemma reassignments_decided delay : forall missed running,
  pass_decides delay missed running (reassignments delay missed running).
Proof.
  induction missed as [|[sm mu] missed IH]; intro running; simpl.
  - constructor.
  - pose proof (hybrid_scan_decides delay sm mu running []) as H.
    destruct (Hybrid.scan delay sm mu [] running) as [|sr rest|];
      cbn [scan_post] in H.
    + destruct H as [pre [x [post [-> [L F]]]]]. now apply pd_stop.
    + destruct H as [pre [ru [post [-> [-> [N [R F]]]]]]]. cbn [app].
      apply pd_reassign; try assumption. apply IH.
    + apply pd_none; [exact H|apply IH].
Qed.

(** C5 (amended): the reassignments of HYBRID at a node that is not the
    cloud.  The missed services are taken in descending order of
    utilisation, the running entries in ascending order of normalised
    utilisation.  For each missed service the running entries are scanned:
    the first entry used more than the missed service ends the whole pass;
    otherwise a VM is reassigned, by [reassign_vm(controller, running,
    missed, debug)], from the first entry, of another service, for which
    the missed service's utilisation is greater than or equal to the
    entry's, the entry's average slack exceeds the missed service's and the
    missed service's average slack is positive; that entry is dropped for
    the missed services that follow.  These are the only calls of the pass
    at the node, after its complaints. *)
Theorem hybrid_replacement_decides e w node :
  is_cloud (compSpots w node) = false ->
  let sc := Hybrid.score_node e w node in
  exists missed running pairs,
    Permutation missed (Hybrid.missed_services_utilisation sc)
    /\ StronglySorted (fun a b => (snd b <= snd a)%Q) missed
    /\ Permutation running (Hybrid.running_services_utilisation_normalised sc)
    /\ StronglySorted (fun a b => (snd a <= snd b)%Q) running
    /\ pass_decides (Hybrid.delay sc) missed running pairs
    /\ trace (Hybrid.replace_node e w node)
       = trace w ++ Hybrid.complaints sc
         ++ map (fun x => cs_reassign_vm node
                            [PController; PService (fst x); PService (snd x);
                             PBool (debug e)]) pairs.
Proof.
  intros Hc sc.
  exists (sorted_by by_snd_desc (Hybrid.missed_services_utilisation sc)),
    (sorted_by by_snd_asc (Hybrid.running_services_utilisation_normalised sc)),
    (reassignments (Hybrid.delay sc)
       (sorted_by by_snd_desc (Hybrid.missed_services_utilisation sc))
       (sorted_by by_snd_asc (Hybrid.running_services_utilisation_normalised sc))).
  split; [apply sorted_by_perm|]. split; [apply sorted_by_snd_desc|].
  split; [apply sorted_by_perm|]. split; [apply sorted_by_snd_asc|].
  split; [apply reassignments_decided|].
  unfold Hybrid.replace_node. rewrite Hc. fold sc.
  rewrite reassign_loop_trace. simpl. now rewrite <- app_assoc.
Qed.

(** The spot of [Fixture.torn]: the missed services are 0 (utilisation 1)
    and 1 (utilisation 0), the only running entry is service 1 (normalised
    utilisation 1), and its VM goes to service 0. *)
Lemma hybrid_replacement_decides_witness :
  exists missed running,
    Permutation missed [(0%nat, 1%Q); (1%nat, 0%Q)]
    /\ StronglySorted (fun a b => (snd b <= snd a)%Q) missed
    /\ Permutation running [(1%nat, 1%Q)]
    /\ pass_decides
         (Hybrid.delay (Hybrid.score_node Fixture.env Fixture.torn 0)) missed
         running [(1%nat, 0%nat)]
    /\ trace (Hybrid.replace_node Fixture.env Fixture.torn 0)
       = [cs_reassign_vm 0 [PController; PService 1; PService 0; PBool false]].
Proof.
  destruct (hybrid_replacement_decides Fixture.env Fixture.torn 0 eq_refl)
    as [missed [running [pairs [Pm [Sm [Pr [_ [D T]]]]]]]].
  assert (trace (Hybrid.replace_node Fixture.env Fixture.torn 0)
          = [cs_reassign_vm 0 [PController; PService 1; PService 0; PBool false]])
    as T0 by (vm_compute; reflexivity).
  assert (pairs = [(1%nat, 0%nat)]) as ->.
  { rewrite T0 in T. simpl in T. destruct pairs as [|[a b] [|q pairs]];
      simpl in T; try discriminate. now injection T as <- <-. }
  exists missed, running. split; [exact Pm|]. split; [exact Sm|].
  split; [exact Pr|]. split; [exact D|exact T0].
Defined.

(** C5, as stated, fails: at the spot of [Fixture.torn] the missed service 0
    and the running service 1 have the same utilisation 1, so the former
    is not strictly greater, and a VM is reassigned from 1 to 0. *)
Lemma hybrid_scan_counterexample :
  let sc := Hybrid.score_node Fixture.env Fixture.torn 0 in
  Hybrid.missed_services_utilisation sc = [(0%nat, 1%Q); (1%nat, 0%Q)]
  /\ Hybrid.running_services_utilisation_normalised sc = [(1%nat, 1%Q)]
  /\ trace (Hybrid.replace_services1 Fixture.env 20 Fixture.torn)
     = [cs_reassign_vm 0 [PController; PService 1; PService 0; PBool false]].
Proof. vm_compute. repeat split. Qed.

(* ----------------------------------------------------------------- *)
(** *** The periodic step of process_event *)







Lemma fold_left_inv {A B : Type} (f : A -> B -> A) (P : A -> Prop) :
  (forall a b, P a -> P (f a b)) ->
  forall l a, P a -> P (fold_left f l a).
Proof.
  intros H. induction l as [|b l IH]; intros a Ha; simpl; [exact Ha|].
  apply IH. now apply H.
Qed.


(* ---- initialise_metrics ---- *)
Lemma coordinated_initialise_last e w :
  last_replacement (Coordinated.initialise_metrics e w) = last_replacement w
  /\ trace (Coordinated.initialise_metrics e w) = trace w.
Proof.
  unfold Coordinated.initialise_metrics. simpl.
  apply (fold_left_inv _
           (fun w' => last_replacement w' = last_replacement w
                      /\ trace w' = trace w)); [|split; reflexivity].
  intros a b [H1 H2]. split; assumption.
Qed.


Lemma lru_initialise_last e w :
  last_replacement (Lru.initialise_metrics e w) = last_replacement w
  /\ trace (Lru.initialise_metrics e w) = trace w.
Proof.
  unfold Lru.initialise_metrics.
  apply (fold_left_inv _
           (fun w' => last_replacement w' = last_replacement w
                      /\ trace w' = trace w)); [|split; reflexivity].
  intros a b [H1 H2]. split; assumption.
Qed.



Lemma hybrid_initialise_last e w :
  last_replacement (Hybrid.initialise_metrics e w) = last_replacement w
  /\ trace (Hybrid.initialise_metrics e w) = trace w.
Proof.
  unfold Hybrid.initialise_metrics.
  apply (fold_left_inv _
           (fun w' => last_replacement w' = last_replacement w
                      /\ trace w' = trace w)); [|split; reflexivity].
  intros a b [H1 H2]. destruct (is_cloud (compSpots a b)); split; assumption.
Qed.


(* ---- the passes only add to the trace ---- *)
Lemma foldM_inv {A B : Type} (f : A -> B -> result A) (P : A -> Prop) :
  (forall a b a', f a b = Ok a' -> P a -> P a') ->
  forall l a a', foldM f l a = Ok a' -> P a -> P a'.
Proof.
  intro H. induction l as [|b l IH]; intros a a' E Ha; simpl in E.
  - inversion E; subst. exact Ha.
  - destruct (f a b) as [a1|x] eqn:E1; simpl in E; [|discriminate].
    apply (IH a1 a' E). apply (H a b a1 E1 Ha).
Qed.

Lemma place_services_trace e w node w' :
  Coordinated.place_services e w node = Ok w' -> trace w' = trace w.
Proof.
  unfold Coordinated.place_services.
  destruct (Coordinated.service_utils_sorted _ _ _); [intro E; now inversion E|].
  destruct (Qeq_bool _ _); [discriminate|]. intro E. now inversion E.
Qed.

Lemma replace_at_height_trace e w h w' :
  Coordinated.replace_at_height e w h = Ok w' -> trace w' = trace w.
Proof.
  unfold Coordinated.replace_at_height. intro E.
  apply (foldM_inv _ (fun x => trace x = trace w)) in E; [exact E| |].
  - intros a b a' Ea Ha. rewrite <- Ha. now apply place_services_trace in Ea.
  - apply (fold_left_inv _ (fun x => trace x = trace w)); [|reflexivity].
    intros a b Ha. exact Ha.
Qed.















(* ----------------------------------------------------------------- *)
(** *** MFU against HYBRID *)

Lemma hybrid_handle_is_request e time receiver service log_ node flow_id deadline
  rtt_delay w :
  content_source e service <> node -> receiver <> node ->
  Hybrid.handle e time receiver service log_ node flow_id deadline rtt_delay
    REQUEST w
  = Hybrid.handle_request e time receiver service node flow_id deadline
      rtt_delay w.
Proof.
  intros Hs Hr. unfold Hybrid.handle.
  apply Nat.eqb_neq in Hs, Hr. rewrite Hs, Hr. reflexivity.
Qed.

Lemma mfu_handle_is_request e time receiver service log_ node flow_id deadline
  rtt_delay w :
  content_source e service <> node -> receiver <> node ->
  Mfu.handle e time receiver service log_ node flow_id deadline rtt_delay
    REQUEST w
  = Mfu.handle_request e time receiver service node flow_id deadline
      rtt_delay w.
Proof.
  intros Hs Hr. unfold Mfu.handle.
  apply Nat.eqb_neq in Hs, Hr. rewrite Hs, Hr. reflexivity.
Qed.

(** C6 (amended): for a REQUEST at an intermediate compute node, with a
    positive deadline, MFU and HYBRID make the same [admit_task] call and
    forward the same event, so their traces agree, and they update the same
    metric in the same cases; but MFU adds the slack divided by the
    deadline where HYBRID adds the slack, and MFU also increments
    [missed_requests[service]] when the service is not resident. *)
Theorem mfu_request_vs_hybrid e time receiver service log_ node flow_id deadline
  rtt_delay w next_node :
  content_source e service <> node ->
  receiver <> node ->
  has_computationalSpot e node = true ->
  second (shortest_path e node (content_source e service)) = Ok next_node ->
  (0 < deadline)%Q ->
  let delay := path_delay e node next_node in
  let slack :=
    (deadline - time - rtt_delay
     - Service.service_time (cs_services (compSpots w node) service))%Q in
  let forwarded :=
    add_event (time + delay) receiver service next_node flow_id deadline
      (rtt_delay + delay * 2) REQUEST in
  let admitted :=
    call_admit_task e node service time flow_id deadline receiver rtt_delay w in
  let hybrid :=
    Hybrid.handle e time receiver service log_ node flow_id deadline rtt_delay
      REQUEST w in
  let mfu :=
    Mfu.handle e time receiver service log_ node flow_id deadline rtt_delay
      REQUEST w in
  exists wh wm,
    hybrid = Ok wh /\ mfu = Ok wm /\ trace wm = trace wh
    /\ if has_service e w node service then
         if fst (fst admitted) then
           wh = Hybrid.add_metric node service slack (snd admitted)
           /\ wm = Hybrid.add_metric node service (slack / deadline)
                    (snd admitted)
         else
           wh = Hybrid.add_cand node service slack
                  (log forwarded (snd admitted))
           /\ wm = Hybrid.add_cand node service (slack / deadline)
                    (log forwarded (snd admitted))
       else
         wh = Hybrid.add_cand node service slack (log forwarded w)
         /\ wm = Hybrid.add_cand node service (slack / deadline)
                  (log forwarded (Hybrid.bump_missed node service w)).
Proof.
  intros Hs Hr Hc Hp Hd delay slack forwarded admitted hybrid mfu.
  subst hybrid mfu.
  rewrite hybrid_handle_is_request, mfu_handle_is_request by assumption.
  unfold Hybrid.handle_request, Mfu.handle_request, need_compSpot.
  rewrite Hp, Hc. cbn [bind].
  assert (Qeq_bool deadline 0 = false) as Hz.
  { destruct (Qeq_bool deadline 0) eqn:E; [|reflexivity].
    apply Qeq_bool_iff in E. lra. }
  rewrite Hz. fold delay. fold slack. fold forwarded. fold admitted.
  assert (forall x y b1 b2, trace (Hybrid.add_metric node service x b1)
                            = trace b1
                            /\ trace (Hybrid.add_cand node service y b2)
                               = trace b2) as Ht.
  { intros x y b1 b2. unfold Hybrid.add_metric, Hybrid.add_cand.
    destruct (qlt 0 x), (qlt 0 y); split; reflexivity. }
  destruct (has_service e w node service).
  - destruct admitted as [[ret reason] w1]. cbn [fst snd].
    destruct ret; cbn [negb]; eexists; eexists;
      (split; [reflexivity|]); (split; [reflexivity|]);
      (split; [|split; reflexivity]).
    + now rewrite !(proj1 (Ht _ 0%Q _ w)).
    + now rewrite !(proj2 (Ht 0%Q _ w _)).
  - eexists; eexists; (split; [reflexivity|]); (split; [reflexivity|]);
      (split; [|split; reflexivity]).
    now rewrite !(proj2 (Ht 0%Q _ w _)).
Qed.


(** A request accepted at edge node 0 of the fixture. *)
Lemma mfu_request_vs_hybrid_witness :
  let e := Fixture.env in
  let w := Fixture.started in
  let delay := path_delay e 0 1 in
  let slack :=
    (10 - 1 - 2 - Service.service_time (cs_services (compSpots w 0%nat) 0))%Q in
  let forwarded := add_event (1 + delay) 10 0 1 1 10 (2 + delay * 2) REQUEST in
  let admitted := call_admit_task e 0 0 1 1 10 10 2 w in
  let hybrid := Hybrid.handle e 1 10 0 true 0 1 10 2 REQUEST w in
  let mfu := Mfu.handle e 1 10 0 true 0 1 10 2 REQUEST w in
  exists wh wm,
    hybrid = Ok wh /\ mfu = Ok wm /\ trace wm = trace wh
    /\ if has_service e w 0%nat 0%nat then
         if fst (fst admitted) then
           wh = Hybrid.add_metric 0 0 slack (snd admitted)
           /\ wm = Hybrid.add_metric 0 0 (slack / 10) (snd admitted)
         else
           wh = Hybrid.add_cand 0 0 slack (log forwarded (snd admitted))
           /\ wm = Hybrid.add_cand 0 0 (slack / 10)
                    (log forwarded (snd admitted))
       else
         wh = Hybrid.add_cand 0 0 slack (log forwarded w)
         /\ wm = Hybrid.add_cand 0 0 (slack / 10)
                  (log forwarded (Hybrid.bump_missed 0 0 w)).
Proof.
  apply (mfu_request_vs_hybrid Fixture.env 1 10 0 true 0 1 10 2 Fixture.started 1).
  - discriminate.
  - discriminate.
  - reflexivity.
  - reflexivity.
  - reflexivity.
Defined.

(** C6, as stated, fails: for the same request in the same world, accepted
    by both, HYBRID adds the slack 6 to [deadline_metric[0][0]] and MFU adds
    6/10. *)
Lemma mfu_request_vs_hybrid_counterexample :
  exists wh wm,
    Hybrid.process_event Fixture.env 1 10 0 true 0 1 10 2 REQUEST Fixture.started
    = Ok wh
    /\ Mfu.process_event Fixture.env 1 10 0 true 0 1 10 2 REQUEST Fixture.started
       = Ok wm
    /\ deadline_metric wh 0%nat 0%nat = Fin (6 # 1)
    /\ deadline_metric wm 0%nat 0%nat = Fin (6 # 10).
Proof.
  eexists. eexists. split; [vm_compute; reflexivity|].
  split; [vm_compute; reflexivity|]. split; vm_compute; reflexivity.
Qed.

(* ----------------------------------------------------------------- *)
(** *** Invariant violations *)

Lemma unknown_status status :
  status <> REQUEST -> status <> RESPONSE -> status <> TASK_COMPLETE ->
  (status =? REQUEST) = false /\ (status =? RESPONSE) = false
  /\ (status =? TASK_COMPLETE) = false.
Proof. intros. repeat split; apply Z.eqb_neq; assumption. Qed.

(** C9 (amended): a REQUEST at a COORDINATED compute node without a task
    of its flow in [upcomingTaskQueue] raises ValueError (at a node without
    compute spot the queue cannot be read, and the request fails with an
    AttributeError instead); a task rejected by [admit_task] at the origin
    raises ValueError in HYBRID, MFU and SDF; an event with an unknown
    status code makes COORDINATED exit, while HYBRID, MFU and SDF print an
    error message and return, and LRU, at a node with a compute spot,
    returns without a word. *)
Theorem invariant_violations e time receiver service log_ node flow_id deadline
  rtt_delay status w :
  (forall w1,
     status = REQUEST -> receiver <> node -> node <> content_source e service ->
     Coordinated.periodic e time flow_id w = Ok w1 ->
     (forall k, In k (upcomingTaskQueue (scheduler (compSpots w1 node))) ->
                Task.flow_id k <> flow_id) ->
     Coordinated.process_event e time receiver service log_ node flow_id
       deadline rtt_delay status w
     = if has_computationalSpot e node
       then Raise (ValueError
                     "No task with the given flow id in the upcomingTaskQueue")
       else Raise AttributeError)
  /\ (status = REQUEST -> content_source e service = node ->
      has_computationalSpot e node = true ->
      (fst (fst (call_admit_task e node service time flow_id deadline receiver
                   rtt_delay (Hybrid.periodic e time flow_id w))) = false ->
       Hybrid.process_event e time receiver service log_ node flow_id deadline
         rtt_delay status w
       = Raise (ValueError "Task should not be rejected at the cloud."))
      /\ (fst (fst (call_admit_task e node service time flow_id deadline
                      receiver rtt_delay (Mfu.periodic e time flow_id w)))
          = false ->
          Mfu.process_event e time receiver service log_ node flow_id deadline
            rtt_delay status w
          = Raise (ValueError "Task should not be rejected at the cloud."))
      /\ (fst (fst (call_admit_task e node service time flow_id deadline
                      receiver rtt_delay (Sdf.periodic e time flow_id w)))
          = false ->
          Sdf.process_event e time receiver service log_ node flow_id deadline
            rtt_delay status w
          = Raise (ValueError "Task should not be rejected at the cloud.")))
  /\ (status <> REQUEST -> status <> RESPONSE -> status <> TASK_COMPLETE ->
      (forall w1,
         Coordinated.periodic e time flow_id w = Ok w1 ->
         Coordinated.process_event e time receiver service log_ node flow_id
           deadline rtt_delay status w
         = Raise (SystemExit "Unexpected request in Coordinated strategy"))
      /\ Hybrid.process_event e time receiver service log_ node flow_id deadline
           rtt_delay status w
         = Ok (log (print "Error: unrecognised status value : ")
                 (Hybrid.periodic e time flow_id w))
      /\ Mfu.process_event e time receiver service log_ node flow_id deadline
           rtt_delay status w
         = Ok (log (print "Error: unrecognised status value : ")
                 (Mfu.periodic e time flow_id w))
      /\ Sdf.process_event e time receiver service log_ node flow_id deadline
           rtt_delay status w
         = Ok (log (print "Error: unrecognised status value : ")
                 (Sdf.periodic e time flow_id w))
      /\ (has_computationalSpot e node = true ->
          Lru.process_event e time receiver service log_ node flow_id deadline
            rtt_delay status w
          = Ok (Lru.periodic e time flow_id w))).
Proof.
  split; [|split].
  - intros w1 -> Hr Hn Hp Hq.
    unfold Coordinated.process_event. rewrite Hp. cbn [bind].
    unfold Coordinated.handle, need_compSpot.
    apply Nat.eqb_neq in Hr, Hn. rewrite Hr, Hn.
    destruct (has_computationalSpot e node); simpl; [|reflexivity].
    replace (existsb _ _) with false; [reflexivity|].
    symmetry. apply not_true_is_false. intro Hx.
    apply existsb_exists in Hx. destruct Hx as [k [I E]].
    apply Nat.eqb_eq in E. now apply (Hq k I).
  - intros -> Hs Hc.
    assert (forall w0,
      fst (fst (call_admit_task e node service time flow_id deadline receiver
                  rtt_delay w0)) = false ->
      Hybrid.at_cloud e time receiver service node flow_id deadline rtt_delay w0
      = Raise (ValueError "Task should not be rejected at the cloud.")) as K.
    { intros w0 H. unfold Hybrid.at_cloud, need_compSpot. rewrite Hc. cbn [bind].
      destruct (call_admit_task _ _ _ _ _ _ _ _ _) as [[ret reason] w1].
      simpl in H. subst ret. reflexivity. }
    apply Nat.eqb_eq in Hs.
    split; [|split]; intro H.
    + unfold Hybrid.process_event, Hybrid.handle. rewrite Hs. simpl. now apply K.
    + unfold Mfu.process_event, Mfu.handle. rewrite Hs. simpl. now apply K.
    + unfold Sdf.process_event, Sdf.handle, Mfu.handle. rewrite Hs. simpl.
      now apply K.
  - intros H1 H2 H3.
    destruct (unknown_status status H1 H2 H3) as [E1 [E2 E3]].
    split; [|split; [|split; [|split]]].
    + intros w1 Hp. unfold Coordinated.process_event. rewrite Hp. cbn [bind].
      unfold Coordinated.handle. rewrite E1, E2, E3.
      rewrite !andb_false_r. reflexivity.
    + unfold Hybrid.process_event, Hybrid.handle. rewrite E1, E2, E3.
      rewrite !andb_false_r. reflexivity.
    + unfold Mfu.process_event, Mfu.handle. rewrite E1, E2, E3.
      rewrite !andb_false_r. reflexivity.
    + unfold Sdf.process_event, Sdf.handle, Mfu.handle. rewrite E1, E2, E3.
      rewrite !andb_false_r. reflexivity.
    + intro Hc. unfold Lru.process_event, Lru.handle. rewrite E1, E2, E3, Hc.
      rewrite !andb_false_r. reflexivity.
Qed.

(** Each kind of violation on the fixture. *)
Lemma invariant_violations_witness :
  Coordinated.process_event Fixture.env 1 10 0 true 0 1 30 2 REQUEST
    Fixture.started
  = Raise (ValueError "No task with the given flow id in the upcomingTaskQueue")
  /\ Coordinated.process_event Fixture.env 1 10 0 true 0 1 30 2 7
       Fixture.started
     = Raise (SystemExit "Unexpected request in Coordinated strategy")
  /\ Hybrid.process_event Fixture.env 1 10 0 true 0 1 30 2 7 Fixture.started
     = Ok (log (print "Error: unrecognised status value : ")
             (Hybrid.periodic Fixture.env 1 1 Fixture.started))
  /\ Hybrid.process_event Fixture.refusing_env 1 10 0 true 1 1 30 2 REQUEST
       Fixture.started
     = Raise (ValueError "Task should not be rejected at the cloud.").
Proof.
  split; [|split; [|split]]; cycle 3.
  - pose proof (proj1 (proj2 (invariant_violations Fixture.refusing_env 1 10 0
                                true 1 1 30 2 REQUEST Fixture.started))) as H.
    specialize (H eq_refl eq_refl eq_refl). destruct H as [H _].
    apply H. reflexivity.
  - apply (proj1 (invariant_violations Fixture.env 1 10 0 true 0 1 30 2 REQUEST
                    Fixture.started) Fixture.started).
    + reflexivity.
    + discriminate.
    + discriminate.
    + reflexivity.
    + intros k I. destruct (fixture_started_spots 0) as [f E].
      rewrite E in I. contradiction.
  - pose proof (proj2 (proj2 (invariant_violations Fixture.env 1 10 0 true 0 1
                                30 2 7 Fixture.started))) as H.
    destruct H as [H _]; try discriminate.
    apply (H Fixture.started). reflexivity.
  - pose proof (proj2 (proj2 (invariant_violations Fixture.env 1 10 0 true 0 1
                                30 2 7 Fixture.started))) as H.
    destruct H as [_ [H _]]; try discriminate. exact H.
Defined.

(** C9, as stated, fails: HYBRID handles an event with status code 7 by
    printing a message and returning normally. *)
Lemma invariant_violations_counterexample :
  exists w',
    Hybrid.process_event Fixture.env 1 10 0 true 0 1 30 2 7 Fixture.started
    = Ok w'
    /\ trace w' = [print "Error: unrecognised status value : "].
Proof. eexists. split; vm_compute; reflexivity. Qed.

(* ----------------------------------------------------------------- *)
(** *** The instance totals of HYBRID, MFU and SDF *)

(** These three move VMs through [ComputeSpot.reassign_vm] only; when that
    method keeps the total of every spot, so do their replacement passes. *)
Lemma hybrid_reassign_loop_total e node delay n :
  reassign_keeps_total e ->
  forall missed running w,
    total_instances e
      (compSpots (Hybrid.reassign_loop e node delay missed running w) n)
    = total_instances e (compSpots w n).
Proof.
  intro H. unfold reassign_keeps_total in H. induction missed as [|[sm mu] missed IH]; intros running w; simpl;
    [reflexivity|].
  destruct (Hybrid.scan delay sm mu [] running) as [|sr rest|];
    [reflexivity| |apply IH].
  rewrite IH. simpl. now rewrite H.
Qed.

Lemma hybrid_pass_keeps_total e time w n :
  reassign_keeps_total e ->
  total_instances e (compSpots (Hybrid.replace_services1 e time w) n)
  = total_instances e (compSpots w n).
Proof.
  intro H. unfold Hybrid.replace_services1.
  apply (fold_left_inv _
           (fun w' => total_instances e (compSpots w' n)
                      = total_instances e (compSpots w n))); [|reflexivity].
  intros a node Ha. rewrite <- Ha. unfold Hybrid.replace_node.
  destruct (is_cloud _); [reflexivity|].
  now rewrite hybrid_reassign_loop_total.
Qed.

Lemma mfu_swap_loop_total e node cands n :
  reassign_keeps_total e ->
  forall vms indx k w,
    total_instances e (compSpots (Mfu.swap_loop e node cands vms indx k w) n)
    = total_instances e (compSpots w n).
Proof.
  intro H. unfold reassign_keeps_total in H.
  induction vms as [|vm vms IH]; intros indx k w; simpl; [reflexivity|].
  destruct (nth_error cands indx) as [c|]; [|reflexivity].
  destruct (qlt _ _); [reflexivity|].
  destruct (negb _).
  - destruct (_ || _); [simpl; now rewrite H|]. rewrite IH. simpl.
    now rewrite H.
  - destruct (_ || _); [reflexivity|apply IH].
Qed.

Lemma mfu_pass_keeps_total e k time w n :
  reassign_keeps_total e ->
  total_instances e (compSpots (Mfu.replace_services e k time w) n)
  = total_instances e (compSpots w n).
Proof.
  intro H. unfold Mfu.replace_services.
  apply (fold_left_inv _
           (fun w' => total_instances e (compSpots w' n)
                      = total_instances e (compSpots w n))); [|reflexivity].
  intros a node Ha. rewrite <- Ha. unfold Mfu.replace_node.
  destruct (is_cloud _); [reflexivity|].
  now apply mfu_swap_loop_total.
Qed.

Lemma sdf_swap_loop_total e node cands n :
  reassign_keeps_total e ->
  forall vms indx k w,
    total_instances e (compSpots (Sdf.swap_loop e node cands vms indx k w) n)
    = total_instances e (compSpots w n).
Proof.
  intro H. unfold reassign_keeps_total in H.
  induction vms as [|vm vms IH]; intros indx k w; simpl; [reflexivity|].
  destruct (nth_error cands indx) as [c|]; [|reflexivity].
  destruct (xlt _ _); [reflexivity|].
  destruct (negb _).
  - destruct (_ || _); [simpl; now rewrite H|]. rewrite IH. simpl.
    now rewrite H.
  - destruct (_ || _); [reflexivity|apply IH].
Qed.

Lemma sdf_pass_keeps_total e k time w n :
  reassign_keeps_total e ->
  total_instances e (compSpots (Sdf.replace_services e k time w) n)
  = total_instances e (compSpots w n).
Proof.
  intro H. unfold Sdf.replace_services.
  apply (fold_left_inv _
           (fun w' => total_instances e (compSpots w' n)
                      = total_instances e (compSpots w n))); [|reflexivity].
  intros a node Ha. rewrite <- Ha. unfold Sdf.replace_node.
  destruct (is_cloud _); [reflexivity|].
  now apply sdf_swap_loop_total.
Qed.

(* ================================================================= *)
(** ** Further properties *)

Lemma fixture_ids w :
  (forall n, exists f, compSpots w n = set_instances f (Fixture.spots n)) ->
  forall n, In n (service_nodes Fixture.env) -> cs_node (compSpots w n) = n.
Proof.
  intros H n I. destruct (H n) as [f ->]. simpl in I.
  destruct I as [<-|[<-|[]]]; reflexivity.
Qed.




(* ----------------------------------------------------------------- *)
(** *** What the strategies schedule *)

Lemma adds_refl P w : adds P w w.
Proof. exists []. split; [now rewrite app_nil_r|constructor]. Qed.

Lemma adds_same P w w' : trace w' = trace w -> adds P w w'.
Proof. intro E. exists []. split; [now rewrite app_nil_r|constructor]. Qed.

Lemma adds_trans P w1 w2 w3 : adds P w1 w2 -> adds P w2 w3 -> adds P w1 w3.
Proof.
  intros [c1 [E1 F1]] [c2 [E2 F2]]. exists (c1 ++ c2).
  split; [now rewrite E2, E1, app_assoc|]. apply Forall_app. now split.
Qed.

Lemma adds_log (P : call -> Prop) c w : P c -> adds P w (log c w).
Proof. intro H. exists [c]. split; [reflexivity|]. now constructor. Qed.

Lemma adds_snoc (P : call -> Prop) c w w0 :
  adds P w w0 -> P c -> adds P w (log c w0).
Proof. intros H Hc. eapply adds_trans; [exact H|now apply adds_log]. Qed.

Lemma adds_impl (P Q : call -> Prop) w w' :
  (forall c, P c -> Q c) -> adds P w w' -> adds Q w w'.
Proof.
  intros H [c [E F]]. exists c. split; [exact E|].
  eapply Forall_impl; [|exact F]. exact H.
Qed.

(* find_topmost_feasible_node makes no call *)
Lemma probe_trace e receiver flow_id time service deadline rtt_delay n w o :
  Coordinated.probe e receiver flow_id time service deadline rtt_delay n w = Ok o ->
  match o with
  | Coordinated.Skipped => True
  | Coordinated.Rejected w' | Coordinated.Accepted w' => trace w' = trace w
  end.
Proof.
  unfold Coordinated.probe.
  destruct (need_service_node e n); cbn [bind]; [|discriminate].
  destruct (Coordinated.candidate _ _ _ _ _ _ _ _).
  - cbv zeta. destruct (existsb _ _).
    + destruct (Coordinated.remove_task _ _); [|discriminate].
      intro E. inversion E; subst. reflexivity.
    + intro E. inversion E; subst. reflexivity.
  - intro E. inversion E; subst. exact I.
Qed.

Lemma probe_loop_trace e receiver flow_id time service deadline rtt_delay source :
  forall nodes w r w',
    Coordinated.probe_loop e receiver flow_id time service deadline rtt_delay
      source nodes w = Ok (r, w') ->
    trace w' = trace w.
Proof.
  induction nodes as [|n nodes IH]; intros w r w' E; cbn [Coordinated.probe_loop] in E.
  - inversion E; subst. reflexivity.
  - destruct (Coordinated.probe e receiver flow_id time service deadline rtt_delay n w)
      as [o|x] eqn:Ep; cbn [bind] in E; [|discriminate].
    apply probe_trace in Ep. destruct o as [|w1|w1].
    + now apply IH in E.
    + apply IH in E. congruence.
    + inversion E; subst. exact Ep.
Qed.

Lemma call_admit_task_trace e node service time flow_id deadline receiver rtt_delay w :
  trace (snd (call_admit_task e node service time flow_id deadline receiver
                rtt_delay w))
  = trace w ++ [cs_admit_task node service time flow_id deadline receiver rtt_delay].
Proof.
  unfold call_admit_task. destruct (admit_task _ _ _ _ _ _ _ _ _) as [r spots].
  reflexivity.
Qed.

Lemma call_schedule_trace e node time w :
  trace (snd (call_schedule e node time w)) = trace w ++ [cs_schedule node time].
Proof.
  unfold call_schedule. destruct (schedule _ _ _ _) as [r spots]. reflexivity.
Qed.

Lemma call_put_content_trace e node service w :
  trace (snd (call_put_content e node service w))
  = trace w ++ [put_content node service].
Proof. reflexivity. Qed.

Lemma adds_eq (P : call -> Prop) w w' calls :
  trace w' = trace w ++ calls -> Forall P calls -> adds P w w'.
Proof. intros E F. now exists calls. Qed.

Lemma adds_call_reassign_vm (P : call -> Prop) e node args w :
  P (cs_reassign_vm node args) -> adds P w (call_reassign_vm e node args w).
Proof. intro H. apply (adds_eq _ _ _ [cs_reassign_vm node args]); [reflexivity|]. now constructor. Qed.

Lemma adds_fold_left {B} (P : call -> Prop) (f : World -> B -> World) :
  (forall a b, adds P a (f a b)) ->
  forall l w, adds P w (fold_left f l w).
Proof.
  intro H. induction l as [|b l IH]; intro w; simpl; [apply adds_refl|].
  eapply adds_trans; [apply H|apply IH].
Qed.

Lemma adds_foldM {B} (P : call -> Prop) (f : World -> B -> result World) :
  (forall a b a', f a b = Ok a' -> adds P a a') ->
  forall l w w', foldM f l w = Ok w' -> adds P w w'.
Proof.
  intro H. induction l as [|b l IH]; intros w w' E; simpl in E.
  - inversion E; subst. apply adds_refl.
  - destruct (f w b) as [w1|x] eqn:E1; simpl in E; [|discriminate].
    eapply adds_trans; [apply (H _ _ _ E1)|now apply IH].
Qed.

(* ---- the passes make no add_event call ---- *)
Lemma coordinated_report_node_adds e w node :
  adds no_event w (Coordinated.report_node e w node).
Proof.
  unfold Coordinated.report_node. destruct (is_cloud _); [apply adds_refl|].
  destruct (fold_left _ _ _) as [[snap toAdd] toReplace].
  eapply adds_trans; [apply (adds_same _ w (set_numVMsPerService snap w)); reflexivity|].
  apply adds_fold_left. intros a b. now apply adds_log.
Qed.

Lemma coordinated_replace_adds e time w w' :
  Coordinated.replace_services e time w = Ok w' -> adds no_event w w'.
Proof.
  unfold Coordinated.replace_services. intro E.
  destruct (foldM _ _ w) as [w1|x] eqn:E1; simpl in E; [|discriminate].
  inversion E; subst. clear E.
  eapply adds_trans.
  - apply adds_same. apply (foldM_inv _ (fun x => trace x = trace w)) in E1;
      [exact E1| |reflexivity].
    intros a b a' Ea Ha. rewrite <- Ha. now apply replace_at_height_trace in Ea.
  - apply adds_fold_left. intros a b. apply coordinated_report_node_adds.
Qed.

Lemma coordinated_periodic_adds e time flow_id w w' :
  Coordinated.periodic e time flow_id w = Ok w' -> adds no_event w w'.
Proof.
  unfold Coordinated.periodic. destruct (replacement_due e time w).
  - destruct (Coordinated.replace_services _ _ _) as [w2|x] eqn:E2; simpl;
      [|discriminate].
    intro E. inversion E; subst. clear E.
    apply coordinated_replace_adds in E2.
    apply (adds_trans _ _ w2);
      [|apply adds_same; rewrite (proj2 (coordinated_initialise_last e _));
        reflexivity].
    eapply adds_trans; [|exact E2].
    apply adds_snoc; [|exact I]. apply adds_snoc; [|exact I]. apply adds_refl.
  - intro E. inversion E; subst. apply adds_refl.
Qed.

Lemma hybrid_periodic_adds e time flow_id w :
  adds no_event w (Hybrid.periodic e time flow_id w).
Proof.
  unfold Hybrid.periodic. destruct (replacement_due e time w); [|apply adds_refl].
  eapply adds_trans;
    [|apply adds_same; rewrite (proj2 (hybrid_initialise_last e _)); reflexivity].
  apply (adds_trans _ _ (set_last_replacement time
           (Hybrid.replace_services1 e time
              (log (replacement_pass time)
                 (log (replacement_interval_over flow_id (replacement_interval e) time)
                    (log (print "Replacement time: ") w))))));
    [|apply adds_refl].
  apply (adds_trans _ _ (log (replacement_pass time)
                 (log (replacement_interval_over flow_id (replacement_interval e) time)
                    (log (print "Replacement time: ") w))));
    [repeat (apply adds_snoc; [|exact I]); apply adds_refl|].
  apply (adds_trans _ _ (Hybrid.replace_services1 e time
              (log (replacement_pass time)
                 (log (replacement_interval_over flow_id (replacement_interval e) time)
                    (log (print "Replacement time: ") w)))));
    [|apply adds_same; reflexivity].
  unfold Hybrid.replace_services1. apply adds_fold_left. intros a node.
  unfold Hybrid.replace_node. destruct (is_cloud _); [apply adds_refl|].
  eapply adds_eq.
  - rewrite reassign_loop_trace. simpl. rewrite <- app_assoc. reflexivity.
  - apply Forall_app. split.
    + unfold Hybrid.score_node.
      apply (fold_left_inv _ (fun sc => Forall no_event (Hybrid.complaints sc)));
        [|constructor].
      intros sc s H. unfold Hybrid.score_service.
      destruct (_ =? 0); [exact H|]. destruct (0 <? _); [exact H|].
      simpl. apply Forall_app. split; [exact H|]. now constructor.
    + apply Forall_forall. intros c I. apply in_map_iff in I.
      destruct I as [x [<- _]]. exact I.
Qed.

Lemma mfu_swap_loop_adds e node cands : forall vms indx k w,
  adds no_event w (Mfu.swap_loop e node cands vms indx k w).
Proof.
  induction vms as [|vm vms IH]; intros indx k w; simpl; [apply adds_refl|].
  destruct (nth_error cands indx) as [c|]; [|apply adds_refl].
  destruct (qlt _ _); [apply adds_refl|].
  destruct (negb _).
  - destruct (_ || _); [now apply adds_call_reassign_vm|].
    eapply adds_trans; [now apply adds_call_reassign_vm|apply IH].
  - destruct (_ || _); [apply adds_refl|apply IH].
Qed.

Lemma mfu_periodic_adds e time flow_id w :
  adds no_event w (Mfu.periodic e time flow_id w).
Proof.
  unfold Mfu.periodic. destruct (replacement_due e time w); [|apply adds_refl].
  eapply adds_trans;
    [|apply adds_same; unfold Mfu.initialise_metrics;
      rewrite (proj2 (hybrid_initialise_last e _)); reflexivity].
  apply (adds_trans _ _ (log (replacement_pass time)
                 (log (replacement_interval_over flow_id (replacement_interval e) time)
                    w)));
    [repeat (apply adds_snoc; [|exact I]); apply adds_refl|].
  apply (adds_trans _ _ (Mfu.replace_services e (n_replacements e) time
              (log (replacement_pass time)
                 (log (replacement_interval_over flow_id (replacement_interval e) time)
                    w))));
    [|apply adds_same; reflexivity].
  unfold Mfu.replace_services. apply adds_fold_left. intros a node.
  unfold Mfu.replace_node. destruct (is_cloud _); [apply adds_refl|].
  apply mfu_swap_loop_adds.
Qed.

Lemma sdf_swap_loop_adds e node cands : forall vms indx k w,
  adds no_event w (Sdf.swap_loop e node cands vms indx k w).
Proof.
  induction vms as [|vm vms IH]; intros indx k w; simpl; [apply adds_refl|].
  destruct (nth_error cands indx) as [c|]; [|apply adds_refl].
  destruct (xlt _ _); [apply adds_refl|].
  destruct (negb _).
  - destruct (_ || _); [now apply adds_call_reassign_vm|].
    eapply adds_trans; [now apply adds_call_reassign_vm|apply IH].
  - destruct (_ || _); [apply adds_refl|apply IH].
Qed.

Lemma sdf_periodic_adds e time flow_id w :
  adds no_event w (Sdf.periodic e time flow_id w).
Proof.
  unfold Sdf.periodic. destruct (replacement_due e time w); [|apply adds_refl].
  eapply adds_trans;
    [|apply adds_same; unfold Sdf.initialise_metrics;
      rewrite (proj2 (hybrid_initialise_last e _)); reflexivity].
  apply (adds_trans _ _ (log (replacement_pass time)
                 (log (replacement_interval_over flow_id (replacement_interval e) time)
                    w)));
    [repeat (apply adds_snoc; [|exact I]); apply adds_refl|].
  apply (adds_trans _ _ (Sdf.replace_services e (n_replacements e) time
              (log (replacement_pass time)
                 (log (replacement_interval_over flow_id (replacement_interval e) time)
                    w))));
    [|apply adds_same; reflexivity].
  unfold Sdf.replace_services. apply adds_fold_left. intros a node.
  unfold Sdf.replace_node. destruct (is_cloud _); [apply adds_refl|].
  apply sdf_swap_loop_adds.
Qed.

Lemma lru_periodic_adds e time flow_id w :
  adds no_event w (Lru.periodic e time flow_id w).
Proof.
  unfold Lru.periodic. destruct (replacement_due e time w); [|apply adds_refl].
  eapply adds_trans;
    [|apply adds_same; rewrite (proj2 (lru_initialise_last e _)); reflexivity].
  apply (adds_snoc no_event _ w w); [apply adds_refl|exact I].
Qed.

Lemma no_event_coordinated e time receiver service flow_id deadline rtt_delay
  started c :
  no_event c ->
  coordinated_event e time receiver service flow_id deadline rtt_delay started c.
Proof. destruct c; simpl; tauto. Qed.

Lemma account_trace e receiver service path w w' :
  Coordinated.account e receiver service path w = Ok w' -> trace w' = trace w.
Proof.
  unfold Coordinated.account. intro E.
  refine (foldM_inv _ (fun x => trace x = trace w) _ _ _ _ E _); [|reflexivity].
  intros a b a' Ea Ha. destruct (need_compSpot e b); cbn [bind] in Ea;
    [|discriminate].
  destruct (is_cloud _); injection Ea as <-; exact Ha.
Qed.

Lemma run_next_adds (P : call -> Prop) e node time w :
  (forall c, no_event c -> P c) ->
  (forall c, coordinated_started e node time w = Some c -> P c) ->
  adds P w (Coordinated.run_next e node time w).
Proof.
  intros Hn Ht. unfold Coordinated.run_next.
  pose proof (call_schedule_trace e node time w) as T.
  unfold coordinated_started in Ht.
  destruct (call_schedule e node time w) as [newTask w1]. simpl in T.
  assert (adds P w w1) as A.
  { eapply adds_eq; [exact T|]. constructor; [|constructor]. now apply Hn. }
  destruct newTask as [k|]; [|exact A].
  apply adds_snoc; [|now apply Hn]. apply adds_snoc; [exact A|].
  apply Ht. reflexivity.
Qed.

(** X8: While COORDINATED processes an event, every event it schedules is
    the TASK_COMPLETE event of the task that the scheduler of the node
    starts in that step, a REQUEST of the same flow for a node other than
    the content source, or a RESPONSE of the same flow addressed to its
    receiver; a REQUEST adds to [rtt_delay] twice the time it adds to
    [time]. *)
Theorem coordinated_schedules_what_it_handles e time receiver service log_ node
  flow_id deadline rtt_delay status w w' :
  Coordinated.process_event e time receiver service log_ node flow_id deadline
    rtt_delay status w = Ok w' ->
  exists w0 calls,
    Coordinated.periodic e time flow_id w = Ok w0
    /\ trace w' = trace w ++ calls
    /\ Forall
         (coordinated_event e time receiver service flow_id deadline rtt_delay
            (coordinated_started e node time w0))
         calls.
Proof.
  unfold Coordinated.process_event. intro E.
  destruct (Coordinated.periodic e time flow_id w) as [w0|x] eqn:Ep;
    cbn [bind] in E; [|discriminate].
  exists w0.
  set (P := coordinated_event e time receiver service flow_id deadline rtt_delay
              (coordinated_started e node time w0)).
  assert (forall c, no_event c -> P c) as Hn
    by (intro c; apply no_event_coordinated).
  assert (forall c, coordinated_started e node time w0 = Some c -> P c) as Ht.
  { intros c Ec. unfold P. rewrite Ec. destruct c; simpl; try exact I.
    now left. }
  enough (adds P w w') as [calls [T F]] by (exists calls; now repeat split).
  apply coordinated_periodic_adds in Ep.
  apply (adds_impl _ P) in Ep; [|exact Hn].
  apply (adds_trans _ _ _ _ Ep). clear Ep.
  unfold Coordinated.handle in E.
  destruct (Nat.eqb receiver node && (status =? REQUEST)) eqn:B1.
  - apply andb_true_iff in B1. destruct B1 as [B1 B1']. apply Nat.eqb_eq in B1.
    apply Z.eqb_eq in B1'. subst node status.
    destruct (Coordinated.find_topmost_feasible_node _ _ _ _ _ _ _ _ _)
      as [[upstream w2]|x] eqn:Ef; cbn [bind] in E; [|discriminate].
    unfold Coordinated.find_topmost_feasible_node in Ef.
    apply probe_loop_trace in Ef. apply account_trace in E.
    eapply adds_trans; [|apply adds_same; exact E].
    destruct (Nat.eqb upstream (content_source e service)) eqn:Eu; cbn [negb].
    + apply adds_snoc.
      * eapply adds_trans; [|apply adds_same; exact Ef].
        apply adds_log. now apply Hn.
      * simpl. right. do 4 (split; [reflexivity|]). right. split; reflexivity.
    + apply adds_snoc.
      * eapply adds_trans; [|apply adds_same; exact Ef].
        apply adds_log. now apply Hn.
      * simpl. right. do 4 (split; [reflexivity|]). left. split; [reflexivity|].
        split; [now apply Nat.eqb_neq|]. ring.
  - destruct ((status =? REQUEST) && negb (Nat.eqb node (content_source e service)))
      eqn:B2.
    + destruct (need_compSpot e node); cbn [bind] in E; [|discriminate].
      destruct (existsb _ _); [|discriminate]. inversion E; subst.
      now apply run_next_adds.
    + destruct (status =? TASK_COMPLETE) eqn:B3.
      * destruct (need_compSpot e node); cbn [bind] in E; [|discriminate].
        inversion E; subst. apply adds_snoc; [now apply run_next_adds|].
        simpl. right. do 4 (split; [reflexivity|]). right. split; reflexivity.
      * destruct ((status =? RESPONSE) && Nat.eqb node receiver); [|discriminate].
        inversion E; subst. apply adds_log. now apply Hn.
Qed.

(** A task completes at edge node 0 of the fixture while another one, of
    flow 7, waits in its queue. *)
Lemma coordinated_schedules_what_it_handles_witness :
  exists w' calls,
    Coordinated.process_event Fixture.queued_env 5 10 0 true 0 1 30 0
      TASK_COMPLETE Fixture.started = Ok w'
    /\ trace w' = trace Fixture.started ++ calls
    /\ In (completion_event 0 Fixture.far_task) calls
    /\ Forall
         (coordinated_event Fixture.queued_env 5 10 0 1 30 0
            (Some (completion_event 0 Fixture.far_task)))
         calls.
Proof.
  assert (exists w',
            Coordinated.process_event Fixture.queued_env 5 10 0 true 0 1 30 0
              TASK_COMPLETE Fixture.started = Ok w'
            /\ trace w'
               = trace Fixture.started
                 ++ [cs_schedule 0 5; completion_event 0 Fixture.far_task;
                     execute_service 7 0 0 5 false;
                     add_event 6 10 0 10 1 30 0 RESPONSE]) as [w' [E T']]
    by (eexists; split; vm_compute; reflexivity).
  destruct (coordinated_schedules_what_it_handles Fixture.queued_env 5 10 0 true
              0 1 30 0 TASK_COMPLETE Fixture.started w' E)
    as [w0 [calls [Ep [T F]]]].
  assert (Coordinated.periodic Fixture.queued_env 5 1 Fixture.started
          = Ok Fixture.started) as Ep' by reflexivity.
  rewrite Ep' in Ep. injection Ep as <-.
  exists w', calls. split; [exact E|]. split; [exact T|].
  split; [|exact F].
  rewrite T' in T. apply app_inv_head in T. subst calls. right. now left.
Defined.

Lemma no_event_relayed time receiver service flow_id deadline rtt_delay started
  c :
  no_event c ->
  relayed_event time receiver service flow_id deadline rtt_delay started c.
Proof. destruct c; simpl; tauto. Qed.

Ltac relayed_request :=
  simpl; right; do 4 (split; [reflexivity|]); left; split; [reflexivity|ring].
Ltac relayed_response :=
  simpl; right; do 4 (split; [reflexivity|]); right; split; reflexivity.

Section Relay.

Variable e : Env.
Variables (time : Q) (receiver service flow_id : nat) (deadline rtt_delay : Q).
Variable node : nat.
Variable w0 : World.

Let P :=
  relayed_event time receiver service flow_id deadline rtt_delay
    (started_at e node time w0).

Lemma relayed_no_event c : no_event c -> P c.
Proof. apply no_event_relayed. Qed.

Lemma lru_install_adds delay w w' :
  Lru.install e time service node deadline rtt_delay delay w = Ok w' ->
  adds P w w'.
Proof.
  destruct (lru_install_outcome e time service node deadline rtt_delay delay w)
    as [Hforced Hfree].
  destruct (qlt _ _).
  - rewrite (Hforced eq_refl). discriminate.
  - destruct (Hfree eq_refl) as [w2 [evict [E [T Hev]]]]. rewrite E.
    intro E'. injection E' as <-.
    destruct Hev as [->|[evicted ->]].
    + now apply adds_same; rewrite T, app_nil_r.
    + eapply adds_eq; [exact T|]. constructor; [exact I|].
      constructor; [exact I|]. constructor.
Qed.

(** The scheduler is run on the world the handler starts from. *)
Lemma scheduled_adds :
  let '(task, w1) := call_schedule e node time w0 in
  adds P w0
    match task with
    | Some k =>
        log (execute_service (Task.flow_id k) (Task.service k)
               (cs_node (compSpots w1 node)) time (is_cloud (compSpots w1 node)))
          (log (add_event (Task.completionTime k) (Task.receiver k)
                  (Task.service k) node (Task.flow_id k) (Task.expiry k)
                  (Task.rtt_delay k) TASK_COMPLETE) w1)
    | None => w1
    end.
Proof.
  pose proof (call_schedule_trace e node time w0) as T.
  assert (forall k, fst (call_schedule e node time w0) = Some k ->
                    P (completion_event node k)) as Hk.
  { intros k Ek. unfold P, started_at. rewrite Ek. simpl. now left. }
  destruct (call_schedule e node time w0) as [task w1]. simpl in T.
  assert (adds P w0 w1) as A.
  { eapply adds_eq; [exact T|]. constructor; [exact I|constructor]. }
  destruct task as [k|]; [|exact A].
  apply adds_snoc; [|exact I]. apply adds_snoc; [exact A|].
  apply (Hk k eq_refl).
Qed.

Lemma lru_handle_adds log_ status w' :
  Lru.handle e time receiver service log_ node flow_id deadline rtt_delay status
    w0 = Ok w' ->
  adds P w0 w'.
Proof.
  unfold Lru.handle.
  destruct (Nat.eqb receiver node && (status =? REQUEST)).
  { destruct (second _) as [next|]; cbn [bind]; [|discriminate].
    intro E. inversion E; subst. apply adds_snoc; [now apply adds_log, relayed_no_event|].
    relayed_request. }
  destruct (negb (has_computationalSpot e node) && negb (status =? RESPONSE)).
  { destruct (Nat.eqb node (content_source e service)).
    - intro E. inversion E; subst. now apply adds_log, relayed_no_event.
    - destruct (second _) as [next|]; cbn [bind]; [|discriminate].
      intro E. inversion E; subst. apply adds_log. relayed_request. }
  destruct (status =? RESPONSE).
  { destruct (Nat.eqb node receiver).
    - intro E. inversion E; subst. now apply adds_log, relayed_no_event.
    - destruct (second _) as [next|]; cbn [bind]; [|discriminate].
      intro E. inversion E; subst. apply adds_log. relayed_response. }
  destruct (status =? TASK_COMPLETE).
  { pose proof scheduled_adds as A.
    destruct (call_schedule e node time w0) as [task w1].
    destruct (second _) as [next|]; cbn [bind]; [|discriminate].
    intro E. inversion E; subst. clear E.
    apply adds_snoc; [|relayed_response].
    match goal with
    | |- adds P w0 (if ?b then log ?c ?x else ?x) =>
        destruct b; [apply adds_snoc; [exact A|exact I]|exact A]
    end. }
  destruct (status =? REQUEST); [|intro E; inversion E; subst; apply adds_refl].
  unfold Lru.handle_request.
  destruct (second _) as [next|]; cbn [bind]; [|discriminate].
  pose proof (call_admit_task_trace e node service time flow_id deadline receiver
                rtt_delay w0) as T.
  destruct (call_admit_task _ _ _ _ _ _ _ _ _) as [[ret reason] w1]. simpl in T.
  assert (adds P w0 w1) as A.
  { eapply adds_eq; [exact T|]. constructor; [exact I|constructor]. }
  destruct ret; cbn [negb].
  - intro E. inversion E; subst. apply adds_snoc; [exact A|exact I].
  - destruct (reason =? NO_INSTANCES).
    + destruct (Lru.install _ _ _ _ _ _ _ _) as [w2|x] eqn:Ei; cbn [bind];
        [|discriminate].
      intro E. inversion E; subst. apply adds_snoc; [|relayed_request].
      eapply adds_trans; [exact A|]. now apply (lru_install_adds _ _ _ Ei).
    + cbn [bind]. intro E. inversion E; subst.
      apply adds_snoc; [exact A|relayed_request].
Qed.

Lemma at_cloud_adds w' :
  Hybrid.at_cloud e time receiver service node flow_id deadline rtt_delay w0
  = Ok w' ->
  adds P w0 w'.
Proof.
  unfold Hybrid.at_cloud. destruct (need_compSpot e node); cbn [bind]; [|discriminate].
  pose proof (call_admit_task_trace e node service time flow_id deadline receiver
                rtt_delay w0) as T.
  destruct (call_admit_task _ _ _ _ _ _ _ _ _) as [[ret reason] w1]. simpl in T.
  destruct ret; cbn [negb]; [|discriminate].
  intro E. inversion E; subst. eapply adds_eq; [exact T|].
  constructor; [exact I|constructor].
Qed.

Lemma at_receiver_adds log_ w' :
  Hybrid.at_receiver e time receiver service log_ node flow_id deadline rtt_delay
    w0 = Ok w' ->
  adds P w0 w'.
Proof.
  unfold Hybrid.at_receiver.
  destruct (second _) as [next|]; cbn [bind]; [|discriminate].
  intro E. inversion E; subst. apply adds_snoc; [now apply adds_log|].
  relayed_request.
Qed.

Lemma forward_response_adds w w' :
  Hybrid.forward_response e time receiver service node flow_id deadline rtt_delay w
  = Ok w' ->
  adds P w w'.
Proof.
  unfold Hybrid.forward_response.
  destruct (second _) as [next|]; cbn [bind]; [|discriminate].
  intro E. inversion E; subst. apply adds_log. relayed_response.
Qed.

Lemma add_cand_adds m w : adds P w (Hybrid.add_cand node service m w).
Proof. apply adds_same. unfold Hybrid.add_cand. now destruct (qlt 0 m). Qed.

Lemma add_metric_adds m w : adds P w (Hybrid.add_metric node service m w).
Proof. apply adds_same. unfold Hybrid.add_metric. now destruct (qlt 0 m). Qed.

Lemma hybrid_handle_request_adds w' :
  Hybrid.handle_request e time receiver service node flow_id deadline rtt_delay w0
  = Ok w' ->
  adds P w0 w'.
Proof.
  unfold Hybrid.handle_request.
  destruct (second _) as [next|]; cbn [bind]; [|discriminate].
  destruct (need_compSpot e node); cbn [bind]; [|discriminate].
  destruct (has_service e w0 node service).
  - pose proof (call_admit_task_trace e node service time flow_id deadline receiver
                  rtt_delay w0) as T.
    destruct (call_admit_task _ _ _ _ _ _ _ _ _) as [[ret reason] w1]. simpl in T.
    assert (adds P w0 w1) as A.
    { eapply adds_eq; [exact T|]. constructor; [exact I|constructor]. }
    destruct ret; cbn [negb]; intro E; inversion E; subst.
    + eapply adds_trans; [exact A|apply add_metric_adds].
    + eapply adds_trans; [|apply add_cand_adds].
      apply adds_snoc; [exact A|relayed_request].
  - intro E. inversion E; subst.
    eapply adds_trans; [|apply add_cand_adds]. apply adds_log. relayed_request.
Qed.

Lemma mfu_handle_request_adds w' :
  Mfu.handle_request e time receiver service node flow_id deadline rtt_delay w0
  = Ok w' ->
  adds P w0 w'.
Proof.
  unfold Mfu.handle_request.
  destruct (second _) as [next|]; cbn [bind]; [|discriminate].
  destruct (need_compSpot e node); cbn [bind]; [|discriminate].
  destruct (Qeq_bool deadline 0); [discriminate|].
  destruct (has_service e w0 node service).
  - pose proof (call_admit_task_trace e node service time flow_id deadline receiver
                  rtt_delay w0) as T.
    destruct (call_admit_task _ _ _ _ _ _ _ _ _) as [[ret reason] w1]. simpl in T.
    assert (adds P w0 w1) as A.
    { eapply adds_eq; [exact T|]. constructor; [exact I|constructor]. }
    destruct ret; cbn [negb]; intro E; inversion E; subst.
    + eapply adds_trans; [exact A|apply add_metric_adds].
    + eapply adds_trans; [|apply add_cand_adds].
      apply adds_snoc; [exact A|relayed_request].
  - intro E. inversion E; subst.
    eapply adds_trans; [|apply add_cand_adds].
    apply adds_snoc; [apply adds_same; reflexivity|relayed_request].
Qed.

Lemma hybrid_handle_task_complete_adds w' :
  Hybrid.handle_task_complete e time receiver service node flow_id deadline
    rtt_delay w0 = Ok w' ->
  adds P w0 w'.
Proof.
  unfold Hybrid.handle_task_complete.
  destruct (negb (Nat.eqb node (content_source e service))).
  - destruct (need_compSpot e node); cbn [bind]; [|discriminate].
    pose proof scheduled_adds as A.
    destruct (call_schedule e node time w0) as [task w1].
    destruct task as [k|].
    + destruct (qlt _ _); cbn [bind]; intro E; apply forward_response_adds in E.
      * eapply adds_trans; [|exact E]. apply adds_snoc; [exact A|exact I].
      * eapply adds_trans; [exact A|exact E].
    + cbn [bind]. intro E. apply forward_response_adds in E.
      eapply adds_trans; [exact A|exact E].
  - cbn [bind]. apply forward_response_adds.
Qed.

Lemma mfu_handle_task_complete_adds w' :
  Mfu.handle_task_complete e time receiver service node flow_id deadline
    rtt_delay w0 = Ok w' ->
  adds P w0 w'.
Proof.
  unfold Mfu.handle_task_complete.
  destruct (negb (Nat.eqb node (content_source e service))).
  - destruct (need_compSpot e node); cbn [bind]; [|discriminate].
    pose proof scheduled_adds as A.
    destruct (call_schedule e node time w0) as [task w1].
    destruct task as [k|].
    + destruct (qlt _ _); cbn [bind]; [discriminate|].
      intro E; apply forward_response_adds in E.
      eapply adds_trans; [exact A|exact E].
    + cbn [bind]. intro E. apply forward_response_adds in E.
      eapply adds_trans; [exact A|exact E].
  - cbn [bind]. apply forward_response_adds.
Qed.

Lemma hybrid_handle_adds log_ status w' :
  Hybrid.handle e time receiver service log_ node flow_id deadline rtt_delay status
    w0 = Ok w' ->
  adds P w0 w'.
Proof.
  unfold Hybrid.handle.
  destruct (_ && _); [apply at_cloud_adds|].
  destruct (_ && _); [apply at_receiver_adds|].
  destruct (status =? RESPONSE).
  { destruct (Nat.eqb node receiver).
    - intro E. inversion E; subst. now apply adds_log.
    - destruct (Hybrid.forward_response _ _ _ _ _ _ _ _ _) as [w1|] eqn:Ef;
        cbn [bind]; [|discriminate].
      apply forward_response_adds in Ef.
      destruct (qlt _ _).
      + destruct (need_compSpot e node); cbn [bind]; [|discriminate].
        intro E. inversion E; subst.
        eapply adds_trans; [exact Ef|apply adds_same; reflexivity].
      + intro E. inversion E; subst. exact Ef. }
  destruct (status =? TASK_COMPLETE); [apply hybrid_handle_task_complete_adds|].
  destruct (status =? REQUEST); [apply hybrid_handle_request_adds|].
  intro E. inversion E; subst. now apply adds_log.
Qed.

Lemma mfu_handle_adds log_ status w' :
  Mfu.handle e time receiver service log_ node flow_id deadline rtt_delay status
    w0 = Ok w' ->
  adds P w0 w'.
Proof.
  unfold Mfu.handle.
  destruct (_ && _); [apply at_cloud_adds|].
  destruct (_ && _); [apply at_receiver_adds|].
  destruct (status =? RESPONSE).
  { destruct (Nat.eqb node receiver).
    - intro E. inversion E; subst. now apply adds_log.
    - apply forward_response_adds. }
  destruct (status =? TASK_COMPLETE); [apply mfu_handle_task_complete_adds|].
  destruct (status =? REQUEST); [apply mfu_handle_request_adds|].
  intro E. inversion E; subst. now apply adds_log.
Qed.

End Relay.

(** X11: While LRU, HYBRID, MFU or SDF processes an event, every event it
    schedules is the TASK_COMPLETE event of the task that the scheduler of
    the node starts in that step, or a REQUEST or RESPONSE with the
    receiver, service, flow and deadline of the event in hand; a REQUEST
    adds to [rtt_delay] twice the time it adds to [time], a RESPONSE keeps
    [rtt_delay]. *)
Theorem distributed_strategies_relay_events e time receiver service log_ node
  flow_id deadline rtt_delay status w :
  let relayed w0 w' :=
    exists calls,
      trace w' = trace w ++ calls
      /\ Forall
           (relayed_event time receiver service flow_id deadline rtt_delay
              (started_at e node time w0))
           calls in
  (forall w',
     Lru.process_event e time receiver service log_ node flow_id deadline
       rtt_delay status w = Ok w' ->
     relayed (Lru.periodic e time flow_id w) w')
  /\ (forall w',
        Hybrid.process_event e time receiver service log_ node flow_id deadline
          rtt_delay status w = Ok w' ->
        relayed (Hybrid.periodic e time flow_id w) w')
  /\ (forall w',
        Mfu.process_event e time receiver service log_ node flow_id deadline
          rtt_delay status w = Ok w' ->
        relayed (Mfu.periodic e time flow_id w) w')
  /\ (forall w',
        Sdf.process_event e time receiver service log_ node flow_id deadline
          rtt_delay status w = Ok w' ->
        relayed (Sdf.periodic e time flow_id w) w').
Proof.
  intro relayed. subst relayed.
  split; [|split; [|split]]; intros w' E.
  - unfold Lru.process_event in E. apply lru_handle_adds in E.
    eapply adds_trans; [|exact E].
    eapply adds_impl; [|apply lru_periodic_adds]. apply no_event_relayed.
  - unfold Hybrid.process_event in E. apply hybrid_handle_adds in E.
    eapply adds_trans; [|exact E].
    eapply adds_impl; [|apply hybrid_periodic_adds]. apply no_event_relayed.
  - unfold Mfu.process_event in E. apply mfu_handle_adds in E.
    eapply adds_trans; [|exact E].
    eapply adds_impl; [|apply mfu_periodic_adds]. apply no_event_relayed.
  - unfold Sdf.process_event, Sdf.handle in E. apply mfu_handle_adds in E.
    eapply adds_trans; [|exact E].
    eapply adds_impl; [|apply sdf_periodic_adds]. apply no_event_relayed.
Qed.

(** A task completes at edge node 0 under LRU while the scheduler starts
    the task of flow 7: its TASK_COMPLETE event is the one event that does
    not carry the identity of the event in hand. *)
Lemma distributed_strategies_relay_events_witness :
  exists w' calls,
    Lru.process_event Fixture.queued_env 5 10 0 true 0 1 30 0 TASK_COMPLETE
      Fixture.idle = Ok w'
    /\ trace w' = trace Fixture.idle ++ calls
    /\ In (completion_event 0 Fixture.far_task) calls
    /\ Forall
         (relayed_event 5 10 0 1 30 0
            (Some (completion_event 0 Fixture.far_task)))
         calls.
Proof.
  assert (exists w',
            Lru.process_event Fixture.queued_env 5 10 0 true 0 1 30 0
              TASK_COMPLETE Fixture.idle = Ok w'
            /\ trace w'
               = trace Fixture.idle
                 ++ [cs_schedule 0 5; completion_event 0 Fixture.far_task;
                     execute_service 7 0 0 5 false;
                     add_event 6 10 0 10 1 30 0 RESPONSE]) as [w' [E T']]
    by (eexists; split; vm_compute; reflexivity).
  destruct (proj1 (distributed_strategies_relay_events Fixture.queued_env 5 10 0
                     true 0 1 30 0 TASK_COMPLETE Fixture.idle) w' E)
    as [calls [T F]].
  exists w', calls. split; [exact E|]. split; [exact T|].
  split; [|exact F].
  rewrite T' in T. apply app_inv_head in T. subst calls. right. now left.
Defined.

(* ----------------------------------------------------------------- *)
(** *** How process_event fails *)

Lemma foldM_raise {A B : Type} (f : A -> B -> result A) (R : exn -> Prop) :
  (forall a b x, f a b = Raise x -> R x) ->
  forall l a x, foldM f l a = Raise x -> R x.
Proof.
  intro H. induction l as [|b l IH]; intros a x E; simpl in E; [discriminate|].
  destruct (f a b) as [a1|y] eqn:E1; simpl in E.
  - now apply (IH a1).
  - inversion E; subst. now apply (H a b).
Qed.

Lemma coordinated_replace_raise e time w x :
  Coordinated.replace_services e time w = Raise x -> x = ZeroDivisionError.
Proof.
  unfold Coordinated.replace_services. intro E.
  destruct (foldM _ _ w) as [w1|y] eqn:E1; simpl in E; [discriminate|].
  inversion E; subst. clear E.
  apply (foldM_raise _ (fun x => x = ZeroDivisionError)) in E1; [exact E1|].
  intros a h y. unfold Coordinated.replace_at_height.
  apply (foldM_raise _ (fun x => x = ZeroDivisionError)).
  intros a' node z. unfold Coordinated.place_services.
  destruct (Coordinated.service_utils_sorted _ _ _); [discriminate|].
  destruct (Qeq_bool _ _); [|discriminate]. intro E. now inversion E.
Qed.

Lemma coordinated_periodic_raise e time flow_id w x :
  Coordinated.periodic e time flow_id w = Raise x -> x = ZeroDivisionError.
Proof.
  unfold Coordinated.periodic. destruct (replacement_due e time w); [|discriminate].
  destruct (Coordinated.replace_services _ _ _) as [w2|y] eqn:E2; simpl;
    [discriminate|].
  intro E. inversion E; subst. now apply coordinated_replace_raise in E2.
Qed.

Lemma probe_loop_raise e receiver flow_id time service deadline rtt_delay source :
  forall nodes w x,
    Coordinated.probe_loop e receiver flow_id time service deadline rtt_delay
      source nodes w = Raise x ->
    x = ValueError "list.remove(x): x not in list" \/ x = KeyError.
Proof.
  induction nodes as [|n nodes IH]; intros w x E; cbn [Coordinated.probe_loop] in E;
    [discriminate|].
  destruct (Coordinated.probe e receiver flow_id time service deadline rtt_delay n w)
    as [o|y] eqn:Ep; cbn [bind] in E.
  - destruct o as [|w1|w1]; [now apply IH in E|now apply IH in E|discriminate].
  - inversion E; subst. unfold Coordinated.probe, need_service_node in Ep.
    destruct (existsb _ (service_nodes e)); cbn [bind] in Ep;
      [|right; now inversion Ep].
    destruct (Coordinated.candidate _ _ _ _ _ _ _ _); [|discriminate].
    cbv zeta in Ep. destruct (existsb _ _); [|discriminate].
    destruct (Coordinated.remove_task _ _); [discriminate|]. left. now inversion Ep.
Qed.

Lemma account_raise e receiver service path w x :
  Coordinated.account e receiver service path w = Raise x -> x = AttributeError.
Proof.
  unfold Coordinated.account.
  apply (foldM_raise _ (fun x => x = AttributeError)).
  intros a n y. unfold need_compSpot.
  destruct (has_computationalSpot e n); cbn [bind].
  - destruct (is_cloud _); discriminate.
  - intro E. now inversion E.
Qed.

(** X9: COORDINATED stops the simulation with [sys.exit] exactly when the
    periodic step has returned and the event is a REQUEST that reaches the
    content source away from its receiver, a RESPONSE away from its
    receiver, or carries an unknown status code. *)
Theorem coordinated_exits_exactly_when e time receiver service log_ node flow_id
  deadline rtt_delay status w :
  Coordinated.process_event e time receiver service log_ node flow_id deadline
    rtt_delay status w
  = Raise (SystemExit "Unexpected request in Coordinated strategy")
  <-> (exists w1, Coordinated.periodic e time flow_id w = Ok w1)
      /\ ((status = REQUEST /\ receiver <> node
           /\ node = content_source e service)
          \/ (status = RESPONSE /\ node <> receiver)
          \/ (status <> REQUEST /\ status <> RESPONSE
              /\ status <> TASK_COMPLETE)).
Proof.
  unfold Coordinated.process_event.
  destruct (Coordinated.periodic e time flow_id w) as [w1|x] eqn:Ep; cbn [bind].
  - unfold Coordinated.handle.
    destruct (Nat.eqb_spec receiver node) as [Hr|Hr];
      destruct (Z.eqb_spec status REQUEST) as [H0|H0]; cbn [andb negb].
    + destruct (Coordinated.find_topmost_feasible_node _ _ _ _ _ _ _ _ _)
        as [[u w2]|x] eqn:Ef; cbn [bind].
      * destruct (Coordinated.account _ _ _ _ _) as [w3|x] eqn:Ea.
        -- split; [discriminate|]. intros [_ [H|[H|H]]]; [tauto| |tauto].
           unfold REQUEST, RESPONSE in *. lia.
        -- apply account_raise in Ea. subst x.
           split; [discriminate|]. intros [_ [H|[H|H]]]; [tauto| |tauto].
           unfold REQUEST, RESPONSE in *. lia.
      * unfold Coordinated.find_topmost_feasible_node in Ef.
        apply probe_loop_raise in Ef.
        split; [destruct Ef; subst x; discriminate|].
        intros [_ [H|[H|H]]]; [tauto| |tauto].
        unfold REQUEST, RESPONSE in *. lia.
    + destruct (Z.eqb_spec status TASK_COMPLETE) as [H2|H2].
      * unfold need_compSpot. destruct (has_computationalSpot e node); cbn [bind];
          (split; [discriminate|]); intros [_ [H|[H|H]]]; try tauto;
          unfold TASK_COMPLETE, RESPONSE in *; lia.
      * destruct (Z.eqb_spec status RESPONSE) as [H1|H1]; cbn [andb].
        -- subst node. rewrite Nat.eqb_refl.
           split; [discriminate|]. intros [_ [H|[H|H]]]; tauto.
        -- split; [intros _|reflexivity]. split; [now exists w1|tauto].
    + destruct (Nat.eqb_spec node (content_source e service)) as [Hs|Hs]; cbn [negb].
      * destruct (Z.eqb_spec status TASK_COMPLETE) as [H2|H2];
          [unfold TASK_COMPLETE, REQUEST in *; lia|].
        destruct (Z.eqb_spec status RESPONSE) as [H1|H1];
          [unfold RESPONSE, REQUEST in *; lia|].
        cbn [andb]. split; [intros _|reflexivity]. split; [now exists w1|tauto].
      * unfold need_compSpot. destruct (has_computationalSpot e node); cbn [bind];
          [destruct (existsb _ _)|];
          (split; [discriminate|]); intros [_ [H|[H|H]]]; try tauto;
          unfold REQUEST, RESPONSE in *; lia.
    + destruct (Z.eqb_spec status TASK_COMPLETE) as [H2|H2].
      * unfold need_compSpot. destruct (has_computationalSpot e node); cbn [bind];
          (split; [discriminate|]); intros [_ [H|[H|H]]]; try tauto;
          unfold TASK_COMPLETE, RESPONSE in *; lia.
      * destruct (Z.eqb_spec status RESPONSE) as [H1|H1]; cbn [andb].
        -- destruct (Nat.eqb_spec node receiver) as [Hn|Hn]; [congruence|].
           split; [intros _|reflexivity]. split; [now exists w1|tauto].
        -- split; [intros _|reflexivity]. split; [now exists w1|tauto].
  - apply coordinated_periodic_raise in Ep. subst x. split; [discriminate|].
    intros [[w1 E] _]. discriminate.
Qed.

(** A RESPONSE delivered to edge node 0, which is not its receiver. *)
Lemma coordinated_exits_exactly_when_witness :
  Coordinated.process_event Fixture.env 5 10 0 true 0 1 30 0 RESPONSE
    Fixture.started
  = Raise (SystemExit "Unexpected request in Coordinated strategy").
Proof.
  apply (proj2 (coordinated_exits_exactly_when Fixture.env 5 10 0 true 0 1 30 0
                  RESPONSE Fixture.started)).
  split.
  - eexists. vm_compute. reflexivity.
  - right. left. split; [reflexivity|discriminate].
Defined.

Lemma second_cases path :
  (exists n, second path = Ok n /\ (2 <= length path)%nat)
  \/ (second path = Raise IndexError /\ (length path < 2)%nat).
Proof.
  unfold second. destruct path as [|a [|b path]]; simpl.
  - right. split; [reflexivity|lia].
  - right. split; [reflexivity|lia].
  - left. exists b. split; [reflexivity|lia].
Qed.

(** X10: The [process_event] of LRU fails in two ways only: with the IndexError
    of [path[1]], and only when the path from the node to the content
    source or to the receiver has fewer than two nodes; and with the
    TypeError of the five-argument [reassign_vm] call of line 452, exactly
    on the requests that reach that call.  With two nodes or more on both
    paths every other event is handled. *)
Theorem lru_fails_in_two_ways e time receiver service log_ node flow_id
  deadline rtt_delay status w :
  let to_source := shortest_path e node (content_source e service) in
  let to_receiver := shortest_path e node receiver in
  let forced :=
    forces_install e time receiver service node flow_id deadline rtt_delay
      status w in
  let outcome :=
    Lru.process_event e time receiver service log_ node flow_id deadline
      rtt_delay status w in
  (forall x,
     outcome = Raise x ->
     (x = IndexError
      /\ ((length to_source < 2)%nat \/ (length to_receiver < 2)%nat))
     \/ (forced = true /\ exists args, x = TypeError "reassign_vm" args))
  /\ (forced = true ->
      exists args, outcome = Raise (TypeError "reassign_vm" args))
  /\ ((2 <= length to_source)%nat -> (2 <= length to_receiver)%nat ->
      forced = false ->
      exists w', outcome = Ok w').
Proof.
  intros to_source to_receiver forced outcome.
  assert ((forall x,
     outcome = Raise x ->
     (x = IndexError
      /\ ((length to_source < 2)%nat \/ (length to_receiver < 2)%nat))
     \/ (forced = true /\ exists args, x = TypeError "reassign_vm" args))
     /\ (forced = true ->
         exists args, outcome = Raise (TypeError "reassign_vm" args))) as [K F].
  { subst forced outcome.
    unfold forces_install, Lru.process_event, Lru.handle, Lru.handle_request.
    fold to_source to_receiver.
    set (w0 := Lru.periodic e time flow_id w).
    destruct (Nat.eqb receiver node); cbn [negb andb].
    { destruct (status =? REQUEST); cbn [andb].
      - split; [|discriminate].
        destruct (second_cases to_source) as [[n1 [E1 L1]]|[E1 L1]]; rewrite E1;
          cbn [bind]; intros x E; [discriminate|].
        inversion E; subst. left. auto.
      - destruct (has_computationalSpot e node); cbn [negb andb].
        + split; [|discriminate].
          destruct (status =? RESPONSE).
          * destruct (Nat.eqb node receiver); [discriminate|].
            destruct (second_cases to_receiver) as [[n2 [E2 L2]]|[E2 L2]];
              rewrite E2; cbn [bind]; intros x E; [discriminate|].
            inversion E; subst. left. auto.
          * destruct (status =? TASK_COMPLETE); [|discriminate].
            destruct (call_schedule e node time w0) as [task w1].
            destruct (second_cases to_receiver) as [[n2 [E2 L2]]|[E2 L2]];
              rewrite E2; cbn [bind]; intros x E; [discriminate|].
            inversion E; subst. left. auto.
        + split; [|discriminate].
          destruct (status =? RESPONSE); cbn [negb].
          * destruct (Nat.eqb node receiver); [discriminate|].
            destruct (second_cases to_receiver) as [[n2 [E2 L2]]|[E2 L2]];
              rewrite E2; cbn [bind]; intros x E; [discriminate|].
            inversion E; subst. left. auto.
          * destruct (Nat.eqb node (content_source e service)); [discriminate|].
            destruct (second_cases to_source) as [[n1 [E1 L1]]|[E1 L1]];
              rewrite E1; cbn [bind]; intros x E; [discriminate|].
            inversion E; subst. left. auto. }
    destruct (has_computationalSpot e node); cbn [negb andb].
    2:{ split; [|discriminate].
        destruct (status =? RESPONSE); cbn [negb].
        * destruct (Nat.eqb node receiver); [discriminate|].
          destruct (second_cases to_receiver) as [[n2 [E2 L2]]|[E2 L2]];
            rewrite E2; cbn [bind]; intros x E; [discriminate|].
          inversion E; subst. left. auto.
        * destruct (Nat.eqb node (content_source e service)); [discriminate|].
          destruct (second_cases to_source) as [[n1 [E1 L1]]|[E1 L1]];
            rewrite E1; cbn [bind]; intros x E; [discriminate|].
          inversion E; subst. left. auto. }
    destruct (Z.eqb_spec status RESPONSE) as [H1|H1].
    { replace (status =? REQUEST) with false
        by (subst status; reflexivity). cbn [andb].
      split; [|discriminate].
      destruct (Nat.eqb node receiver); [discriminate|].
      destruct (second_cases to_receiver) as [[n2 [E2 L2]]|[E2 L2]];
        rewrite E2; cbn [bind]; intros x E; [discriminate|].
      inversion E; subst. left. auto. }
    destruct (Z.eqb_spec status TASK_COMPLETE) as [H2|H2].
    { replace (status =? REQUEST) with false
        by (subst status; reflexivity). cbn [andb].
      split; [|discriminate].
      destruct (call_schedule e node time w0) as [task w1].
      destruct (second_cases to_receiver) as [[n2 [E2 L2]]|[E2 L2]];
        rewrite E2; cbn [bind]; intros x E; [discriminate|].
      inversion E; subst. left. auto. }
    destruct (status =? REQUEST); cbn [andb]; [|split; discriminate].
    destruct (second_cases to_source) as [[n1 [E1 L1]]|[E1 L1]]; rewrite E1;
      cbn [bind].
    2:{ split; [|discriminate]. intros x E. inversion E; subst. left. auto. }
    destruct (call_admit_task e node service time flow_id deadline receiver
                rtt_delay w0) as [[ret reason] w1].
    destruct ret; cbn [negb andb]; [split; discriminate|].
    destruct (reason =? NO_INSTANCES); cbn [andb bind]; [|split; discriminate].
    destruct (lru_install_outcome e time service node deadline rtt_delay
                (path_delay e node n1) w1) as [Hforced Hfree].
    destruct (qlt _ _).
    - rewrite (Hforced eq_refl). cbn [bind]. split.
      + intros x E. inversion E; subst. right. split; [reflexivity|].
        eexists. reflexivity.
      + intros _. eexists. reflexivity.
    - destruct (Hfree eq_refl) as [w2 [evict [E _]]]. rewrite E. cbn [bind].
      split; discriminate. }
  split; [exact K|]. split; [exact F|]. intros L1 L2 Hf.
  destruct outcome as [w'|x] eqn:E; [now exists w'|].
  destruct (K x eq_refl) as [[_ [H|H]]|[H _]]; [lia|lia|congruence].
Qed.

(** Edge node 0 of the fixture runs no instance.  A request with deadline 2
    has no slack left and runs into the call of line 452; the same request
    with deadline 30 is sent on. *)
Lemma lru_fails_in_two_ways_witness :
  (exists args,
     Lru.process_event Fixture.env 1 10 0 true 0 1 2 2 REQUEST Fixture.idle
     = Raise (TypeError "reassign_vm" args))
  /\ exists w',
       Lru.process_event Fixture.env 1 10 0 true 0 1 30 2 REQUEST Fixture.idle
       = Ok w'.
Proof.
  split.
  - apply (proj1 (proj2 (lru_fails_in_two_ways Fixture.env 1 10 0 true 0 1 2 2
                           REQUEST Fixture.idle))).
    reflexivity.
  - apply (proj2 (proj2 (lru_fails_in_two_ways Fixture.env 1 10 0 true 0 1 30 2
                           REQUEST Fixture.idle))).
    + simpl. lia.
    + simpl. lia.
    + reflexivity.
Defined.

(* ----------------------------------------------------------------- *)
(** *** find_topmost_feasible_node: what the search leaves behind *)

Lemma same_placement_refl w : same_placement w w.
Proof. intro n. repeat split. Qed.

Lemma same_placement_trans w1 w2 w3 :
  same_placement w1 w2 -> same_placement w2 w3 -> same_placement w1 w3.
Proof.
  intros H1 H2 n. destruct (H1 n) as [A1 [A2 [A3 [A4 A5]]]].
  destruct (H2 n) as [B1 [B2 [B3 [B4 B5]]]].
  rewrite B1, B2, B3, B4, B5. repeat split; assumption.
Qed.

Lemma refresh_keys proj : forall q start,
  map key (Coordinated.refresh proj start q) = map key q.
Proof.
  unfold Coordinated.refresh.
  induction q as [|k q IH]; intro start; simpl; [reflexivity|].
  f_equal. apply IH.
Qed.

Lemma refresh_unstamped proj : forall q start,
  map unstamped (Coordinated.refresh proj start q) = map unstamped q.
Proof.
  unfold Coordinated.refresh.
  induction q as [|k q IH]; intro start; simpl; [reflexivity|].
  f_equal. apply IH.
Qed.

Lemma filter_perm {A} (f : A -> bool) l l' :
  Permutation l l' -> Permutation (filter f l) (filter f l').
Proof.
  induction 1; simpl.
  - constructor.
  - destruct (f x); [now constructor|assumption].
  - destruct (f x), (f y); try reflexivity. apply perm_swap.
  - etransitivity; eassumption.
Qed.

Lemma probed_keys e receiver flow_id time service deadline rtt_delay n w :
  Permutation
    (map key
       (upcomingTaskQueue
          (scheduler
             (compSpots
                (Coordinated.probed e receiver flow_id time service deadline
                   rtt_delay n w) n))))
    ((next_oid w, flow_id)
     :: map key (upcomingTaskQueue (scheduler (compSpots w n)))).
Proof.
  unfold Coordinated.probed, Coordinated.compute_completion_times. simpl.
  rewrite !upd_same. simpl. rewrite refresh_keys.
  rewrite (Permutation_map key (sorted_by_perm _ _)).
  rewrite map_app. simpl. symmetry. apply Permutation_cons_append.
Qed.

Lemma probed_same e receiver flow_id time service deadline rtt_delay n w :
  same_placement w
    (Coordinated.probed e receiver flow_id time service deadline rtt_delay n w)
  /\ trace (Coordinated.probed e receiver flow_id time service deadline rtt_delay
              n w) = trace w
  /\ serviceNodeUtil
       (Coordinated.probed e receiver flow_id time service deadline rtt_delay n w)
     = serviceNodeUtil w
  /\ next_oid (Coordinated.probed e receiver flow_id time service deadline
                 rtt_delay n w) = S (next_oid w).
Proof.
  split; [|repeat split].
  intro m. destruct (Nat.eq_dec m n) as [->|N].
  - unfold Coordinated.probed, Coordinated.compute_completion_times, set_spot,
      set_compSpots.
    cbn [compSpots]. rewrite !upd_same.
    unfold set_scheduler, set_upcoming. cbn [is_cloud numOfVMs
      numberOfServiceInstances cs_services scheduler _taskQueue].
    rewrite refresh_unstamped. repeat split.
  - rewrite probed_other by exact N. repeat split.
Qed.

Lemma keys_fresh_filter o f : forall q,
  (forall k, In k q -> (Task.oid k < o)%nat) ->
  filter (fun p : nat * nat => negb (Nat.eqb (fst p) o)) ((o, f) :: map key q)
  = map key q.
Proof.
  intros q H. simpl. rewrite Nat.eqb_refl. simpl.
  induction q as [|k q IH]; simpl; [reflexivity|].
  assert (Task.oid k <> o) as N by (specialize (H k (or_introl eq_refl)); lia).
  apply Nat.eqb_neq in N. rewrite N. simpl. f_equal.
  apply IH. intros k' I. apply H. now right.
Qed.

Lemma filter_map_key o q :
  map key (filter (fun k => negb (Nat.eqb (Task.oid k) o)) q)
  = filter (fun p : nat * nat => negb (Nat.eqb (fst p) o)) (map key q).
Proof.
  induction q as [|k q IH]; simpl; [reflexivity|].
  destruct (Nat.eqb (Task.oid k) o); simpl; [exact IH|now f_equal].
Qed.

(** One round of the search. *)
Lemma probe_net e receiver flow_id time service deadline rtt_delay n w o :
  fresh_oids w ->
  Coordinated.probe e receiver flow_id time service deadline rtt_delay n w = Ok o ->
  match o with
  | Coordinated.Skipped => True
  | Coordinated.Rejected w' =>
      fresh_oids w' /\ same_placement w w' /\ trace w' = trace w
      /\ serviceNodeUtil w' = serviceNodeUtil w
      /\ forall m, Permutation (upcoming_flows w' m) (upcoming_flows w m)
  | Coordinated.Accepted w' =>
      fresh_oids w' /\ same_placement w w' /\ trace w' = trace w
      /\ serviceNodeUtil w' = serviceNodeUtil w
      /\ qualifies e receiver time service deadline rtt_delay n w
      /\ all_in_time (path_delay e receiver n) w' n
      /\ forall m, Permutation (upcoming_flows w' m)
                     ((if Nat.eqb m n then [flow_id] else [])
                      ++ upcoming_flows w m)
  end.
Proof.
  intros Hf. unfold Coordinated.probe.
  destruct (need_service_node e n); cbn [bind]; [|discriminate].
  destruct (Coordinated.candidate _ _ _ _ _ _ _ _) eqn:Ec;
    [|intro E; inversion E; subst; exact I].
  cbv zeta.
  pose proof (probed_keys e receiver flow_id time service deadline rtt_delay n w)
    as Pk.
  pose proof (probed_same e receiver flow_id time service deadline rtt_delay n w)
    as [Ps [Pt [Pu Pn]]].
  pose proof (probed_upcoming_oids e receiver flow_id time service
                    deadline rtt_delay n w) as Pids.
  assert (forall m, m <> n ->
            compSpots (Coordinated.probed e receiver flow_id time service deadline
                         rtt_delay n w) m = compSpots w m) as Po
    by (intros m N; apply probed_other; exact N).
  remember (Coordinated.probed e receiver flow_id time service deadline
               rtt_delay n w) as w3 eqn:Ew3.
  clear Ew3.
  assert (fresh_oids w3) as Hf3.
  { intros m k I. rewrite Pn. destruct (Nat.eq_dec m n) as [->|N].
    - apply (in_map key) in I. apply (Permutation_in _ Pk) in I.
      destruct I as [I|I].
      + unfold key in I. inversion I. lia.
      + apply in_map_iff in I. destruct I as [k' [Ek I]].
        unfold key in Ek. inversion Ek. apply Hf in I. lia.
    - rewrite Po in I by exact N. apply Hf in I. lia. }
  destruct (existsb _ _) eqn:Ex.
  - assert (count_occ Nat.eq_dec
              (map Task.oid (upcomingTaskQueue (scheduler (compSpots w3 n))))
              (next_oid w) = 1%nat) as Hc.
    { rewrite (proj1 (Permutation_count_occ Nat.eq_dec _ _) Pids).
      simpl. destruct (Nat.eq_dec _ _); [|congruence]. f_equal.
      apply count_occ_not_In. intro I. apply in_map_iff in I.
      destruct I as [k [Ek I]]. apply Hf in I. lia. }
    unfold Coordinated.tentative. cbn [Task.oid].
    rewrite (remove_task_unique _ _ Hc).
    intro E. injection E as <-.
    set (q := filter _ _).
    assert (Permutation (map key q)
              (map key (upcomingTaskQueue (scheduler (compSpots w n))))) as Pq.
    { unfold q. rewrite filter_map_key.
      rewrite (filter_perm _ _ _ Pk).
      rewrite keys_fresh_filter; [reflexivity|]. intros k I. now apply Hf in I. }
    split; [|split; [|split; [|split]]].
    + intros m k I. simpl in I |- *. rewrite Pn.
      unfold upd in I. destruct (Nat.eqb m n) eqn:Em.
      * simpl in I. unfold q in I. apply filter_In in I. destruct I as [I _].
        apply Nat.eqb_eq in Em. subst m. apply Hf3 in I. lia.
      * apply Hf3 in I. lia.
    + apply (same_placement_trans _ _ _ Ps). intro m. simpl. unfold upd.
      destruct (Nat.eqb m n) eqn:Em; [|repeat split].
      apply Nat.eqb_eq in Em. subst m. simpl. repeat split.
    + exact Pt.
    + exact Pu.
    + intro m. unfold upcoming_flows. simpl. unfold upd.
      destruct (Nat.eqb m n) eqn:Em.
      * apply Nat.eqb_eq in Em. subst m. simpl.
        apply (Permutation_map snd) in Pq. rewrite !map_map in Pq. exact Pq.
      * apply Nat.eqb_neq in Em. rewrite (Po m Em). reflexivity.
  - intro E. injection E as <-.
    split; [exact Hf3|]. split; [exact Ps|]. split; [exact Pt|].
    split; [exact Pu|]. split; [now apply candidate_qualifies|]. split.
    + unfold all_in_time. apply existsb_violates. exact Ex.
    + intro m. unfold upcoming_flows. destruct (Nat.eqb m n) eqn:Em.
      * apply Nat.eqb_eq in Em. subst m.
        apply (Permutation_map snd) in Pk. simpl in Pk.
        rewrite !map_map in Pk. simpl in Pk. exact Pk.
      * apply Nat.eqb_neq in Em. rewrite (Po m Em). reflexivity.
Qed.

Lemma qualifies_same e receiver time service deadline rtt_delay n w w' :
  same_placement w w' ->
  qualifies e receiver time service deadline rtt_delay n w' ->
  qualifies e receiver time service deadline rtt_delay n w.
Proof.
  intro H. destruct (H n) as [H1 [_ [H3 [H4 _]]]].
  unfold qualifies. cbv zeta. now rewrite H1, H3, H4.
Qed.

Lemma probe_loop_net e receiver flow_id time service deadline rtt_delay source :
  forall nodes w r w',
    fresh_oids w ->
    Coordinated.probe_loop e receiver flow_id time service deadline rtt_delay
      source nodes w = Ok (r, w') ->
    fresh_oids w' /\ same_placement w w' /\ trace w' = trace w
    /\ serviceNodeUtil w' = serviceNodeUtil w
    /\ exists taken : bool,
         (taken = false -> r = source)
         /\ (taken = true ->
             In r nodes
             /\ qualifies e receiver time service deadline rtt_delay r w
             /\ all_in_time (path_delay e receiver r) w' r)
         /\ forall m,
              Permutation (upcoming_flows w' m)
                ((if taken && Nat.eqb m r then [flow_id] else [])
                 ++ upcoming_flows w m).
Proof.
  induction nodes as [|n nodes IH]; intros w r w' Hf E;
    cbn [Coordinated.probe_loop] in E.
  - injection E as <- <-. split; [exact Hf|]. split; [apply same_placement_refl|].
    split; [reflexivity|]. split; [reflexivity|]. exists false.
    split; [reflexivity|]. split; [discriminate|]. intro m. reflexivity.
  - destruct (Coordinated.probe e receiver flow_id time service deadline rtt_delay
                n w) as [o|x] eqn:Ep; cbn [bind] in E; [|discriminate].
    apply (probe_net _ _ _ _ _ _ _ _ _ _ Hf) in Ep.
    destruct o as [|w1|w1].
    + destruct (IH w r w' Hf E) as [F [S [T [U [taken [X1 [X2 X3]]]]]]].
      split; [exact F|]. split; [exact S|]. split; [exact T|]. split; [exact U|].
      exists taken. split; [exact X1|]. split; [|exact X3].
      intro Ht. destruct (X2 Ht) as [I [C A]]. split; [now right|]. now split.
    + destruct Ep as [F1 [S1 [T1 [U1 P1]]]].
      destruct (IH w1 r w' F1 E) as [F [S [T [U [taken [X1 [X2 X3]]]]]]].
      split; [exact F|]. split; [exact (same_placement_trans _ _ _ S1 S)|].
      split; [congruence|]. split; [congruence|].
      exists taken. split; [exact X1|]. split.
      * intro Ht. destruct (X2 Ht) as [I [C A]]. split; [now right|].
        split; [|exact A]. now apply (qualifies_same _ _ _ _ _ _ _ _ _ S1).
      * intro m. rewrite (X3 m). apply Permutation_app_head. apply P1.
    + destruct Ep as [F1 [S1 [T1 [U1 [C1 [A1 P1]]]]]].
      injection E as <- <-.
      split; [exact F1|]. split; [exact S1|]. split; [exact T1|].
      split; [exact U1|]. exists true. split; [discriminate|]. split.
      * intros _. split; [now left|]. now split.
      * intro m. simpl. apply P1.
Qed.








Lemma account_next_oid e receiver service path w w' :
  Coordinated.account e receiver service path w = Ok w' ->
  next_oid w' = next_oid w.
Proof.
  unfold Coordinated.account. intro E.
  refine (foldM_inv _ (fun x => next_oid x = next_oid w) _ _ _ _ E eq_refl).
  intros a n a' Ea Ha. destruct (need_compSpot e n); cbn [bind] in Ea;
    [|discriminate].
  destruct (is_cloud _); inversion Ea; subst; exact Ha.
Qed.

(* ----------------------------------------------------------------- *)
(** *** The demand COORDINATED records *)

Lemma upd3_lookup {A} (f : nat -> nat -> nat -> A) i j k v a b c :
  upd3 f i j k v a b c
  = if Nat.eqb a i && Nat.eqb b j && Nat.eqb c k then v else f a b c.
Proof.
  unfold upd3, upd2, upd.
  destruct (Nat.eqb_spec a i) as [->|]; [|reflexivity].
  destruct (Nat.eqb_spec b j) as [->|]; [|reflexivity].
  destruct (Nat.eqb c k); reflexivity.
Qed.

Lemma account_fold e receiver service : forall l w ap n s,
  NoDup l ->
  serviceNodeUtil
    (fold_left
       (fun w n =>
          if is_cloud (compSpots w n) then w
          else
            let ap := rcv_index e receiver in
            set_serviceNodeUtil
              (upd3 (serviceNodeUtil w) ap n service
                 (serviceNodeUtil w ap n service
                  + Service.service_time (services e service))%Q)
              w)
       l w) ap n s
  = if Nat.eqb ap (rcv_index e receiver) && Nat.eqb s service
       && existsb (Nat.eqb n) l && negb (is_cloud (compSpots w n))
    then (serviceNodeUtil w ap n s
          + Service.service_time (services e service))%Q
    else serviceNodeUtil w ap n s.
Proof.
  induction l as [|x l IH]; intros w ap n s Hnd; cbn [fold_left].
  - cbn [existsb]. now rewrite andb_false_r.
  - inversion Hnd as [|? ? Hx Hl]; subst.
    rewrite IH by exact Hl. cbn [existsb].
    assert (existsb (Nat.eqb x) l = false) as Ex.
    { apply not_true_is_false. intro H. apply existsb_exists in H.
      destruct H as [y [I E]]. apply Nat.eqb_eq in E. subst. contradiction. }
    destruct (is_cloud (compSpots w x)) eqn:Ec.
    + destruct (Nat.eqb_spec n x) as [->|N]; cbn [orb]; [|reflexivity].
      rewrite Ec, Ex. cbn [negb]. now rewrite !andb_false_r.
    + cbn [compSpots set_serviceNodeUtil serviceNodeUtil].
      rewrite upd3_lookup.
      destruct (Nat.eqb_spec ap (rcv_index e receiver)) as [->|Na]; cbn [andb];
        [|reflexivity].
      destruct (Nat.eqb_spec s service) as [->|Ns]; cbn [andb];
        [|now rewrite andb_false_r].
      rewrite andb_true_r.
      destruct (Nat.eqb_spec n x) as [->|N]; cbn [orb].
      * rewrite Ex, Ec. reflexivity.
      * reflexivity.
Qed.

Lemma account_ok_fold e receiver service path : forall w w',
  Coordinated.account e receiver service path w = Ok w' ->
  w' = fold_left
         (fun w n =>
            if is_cloud (compSpots w n) then w
            else
              let ap := rcv_index e receiver in
              set_serviceNodeUtil
                (upd3 (serviceNodeUtil w) ap n service
                   (serviceNodeUtil w ap n service
                    + Service.service_time (services e service))%Q)
                w)
         (tl path) w.
Proof.
  unfold Coordinated.account. induction (tl path) as [|n l IH]; intros w w' E.
  - now inversion E.
  - cbn [foldM fold_left] in E |- *.
    destruct (need_compSpot e n); cbn [bind] in E; [|discriminate].
    destruct (is_cloud (compSpots w n)); cbn [bind] in E; now apply IH.
Qed.

(** X4: A REQUEST at its receiver adds the service time of the service to the
    demand counter of the receiver at every node of [path[1:]] that is not
    the cloud, whichever node was chosen to run it, and changes no other
    counter. *)
Theorem coordinated_request_counts_demand e time receiver service log_ flow_id
  deadline rtt_delay w w' :
  fresh_oids w ->
  NoDup (tl (shortest_path e receiver (content_source e service))) ->
  Coordinated.handle e time receiver service log_ receiver flow_id deadline
    rtt_delay REQUEST w = Ok w' ->
  forall ap n s,
    serviceNodeUtil w' ap n s
    = if Nat.eqb ap (rcv_index e receiver) && Nat.eqb s service
         && existsb (Nat.eqb n)
              (tl (shortest_path e receiver (content_source e service)))
         && negb (is_cloud (compSpots w n))
      then (serviceNodeUtil w ap n s
            + Service.service_time (services e service))%Q
      else serviceNodeUtil w ap n s.
Proof.
  intros Hf Hnd. unfold Coordinated.handle.
  rewrite Nat.eqb_refl. cbn [andb Z.eqb REQUEST].
  set (w1 := log (start_session time receiver service log_ flow_id deadline) w).
  assert (fresh_oids w1) as Hf1 by exact Hf.
  unfold Coordinated.find_topmost_feasible_node.
  destruct (Coordinated.probe_loop _ _ _ _ _ _ _ _ _ _) as [[upstream w2]|x] eqn:E;
    cbn [bind]; [|discriminate].
  destruct (probe_loop_net _ _ _ _ _ _ _ _ _ _ _ _ Hf1 E)
    as [_ [S [_ [U _]]]].
  intro E'. apply account_ok_fold in E'. subst w'. intros ap n s.
  rewrite account_fold by exact Hnd.
  assert (forall (b : bool) c1 c2,
            serviceNodeUtil (if b then log c1 w2 else log c2 w2)
            = serviceNodeUtil w) as K1
    by (intros [] c1 c2; exact U).
  assert (forall (b : bool) c1 c2 m,
            is_cloud (compSpots (if b then log c1 w2 else log c2 w2) m)
            = is_cloud (compSpots w m)) as K2
    by (intros [] c1 c2 m; apply (S m)).
  rewrite K1, K2. reflexivity.
Qed.

(** The request of the fixture is counted at edge node 0 and not at the
    cloud node 1. *)
Lemma coordinated_request_counts_demand_witness :
  exists w',
    Coordinated.handle Fixture.env 5 10 0 true 10 1 30 0 REQUEST Fixture.started
    = Ok w'
    /\ (serviceNodeUtil w' 0 0 0 == 1)%Q
    /\ (serviceNodeUtil w' 0 1 0 == 0)%Q
    /\ (serviceNodeUtil w' 0 0 1 == 0)%Q.
Proof.
  assert (exists w',
            Coordinated.handle Fixture.env 5 10 0 true 10 1 30 0 REQUEST
              Fixture.started = Ok w') as [w' E]
    by (eexists; vm_compute; reflexivity).
  exists w'. split; [exact E|].
  assert (NoDup (tl (shortest_path Fixture.env 10
                       (content_source Fixture.env 0)))) as Hnd.
  { simpl. constructor; [|constructor; [|constructor]]; simpl;
      intuition discriminate. }
  pose proof (coordinated_request_counts_demand Fixture.env 5 10 0 true 1 30 0
                Fixture.started w' fixture_started_fresh Hnd E) as H.
  rewrite (H 0 0 0)%nat, (H 0 1 0)%nat, (H 0 0 1)%nat.
  split; [|split]; reflexivity.
Defined.

(* ----------------------------------------------------------------- *)
(** *** The placement follows the demand *)



















(** The loops of the pass once more, for a guarantee that depends on the
    node. *)
Section PassAt.

Variable e : Env.
Variable G : (nat -> nat -> nat -> Q) -> Prop.
Variable Post : nat -> ComputeSpot -> Prop.

Hypothesis place_at : forall w node,
  G (serviceNodeUtil w) ->
  0 <= numOfVMs (compSpots w node) ->
  cleared e (compSpots w node) ->
  exists w' f,
    Coordinated.place_services e w node = Ok w'
    /\ G (serviceNodeUtil w')
    /\ (forall n, compSpots w' n
                  = upd (compSpots w) node
                      (set_instances f (compSpots w node)) n)
    /\ Post node (set_instances f (compSpots w node)).





End PassAt.



(* ----------------------------------------------------------------- *)
(** *** The report of a pass, in full *)

Lemma map_const_range (s : nat) d :
  map (fun _ : Z => s) (py_range d) = repeat s (Z.to_nat d).
Proof.
  unfold py_range. rewrite map_map. generalize 0%nat.
  induction (Z.to_nat d) as [|k IH]; intro a; simpl; [reflexivity|].
  f_equal. apply IH.
Qed.

Lemma diff_fold cs snap : forall k,
  let r := fold_left (Coordinated.diff_service cs) (seq 0 k) (snap, [], []) in
  snd (fst r)
  = flat_map
      (fun s => repeat s (Z.to_nat (numberOfServiceInstances cs s
                                    - snap (cs_node cs) s)))
      (seq 0 k)
  /\ snd r = []
  /\ forall n s,
       fst (fst r) n s
       = if Nat.eqb n (cs_node cs) && Nat.ltb s k
         then numberOfServiceInstances cs s else snap n s.
Proof.
  induction k as [|k IH]; cbv zeta.
  - simpl. split; [reflexivity|]. split; [reflexivity|].
    intros n s. now rewrite andb_false_r.
  - rewrite seq_S, fold_left_app. cbv zeta in IH. simpl.
    destruct (fold_left (Coordinated.diff_service cs) (seq 0 k) (snap, [], []))
      as [[snap' toAdd] toReplace].
    simpl in IH. destruct IH as [IH1 [IH2 IH3]]. subst toReplace.
    rewrite flat_map_app. simpl. rewrite app_nil_r.
    unfold Coordinated.diff_service.
    assert (snap' (cs_node cs) k = snap (cs_node cs) k) as Hk.
    { rewrite IH3. rewrite Nat.ltb_irrefl. now rewrite andb_false_r. }
    rewrite Hk.
    set (diff := numberOfServiceInstances cs k - snap (cs_node cs) k).
    assert (forall n s,
              upd2 snap' (cs_node cs) k (numberOfServiceInstances cs k) n s
              = if Nat.eqb n (cs_node cs) && Nat.ltb s (S k)
                then numberOfServiceInstances cs s else snap n s) as Hsnap.
    { intros n s. unfold upd2, upd.
      destruct (Nat.eqb_spec n (cs_node cs)) as [->|N]; cbn [andb].
      - destruct (Nat.eqb_spec s k) as [->|Ns].
        + replace (k <? S k)%nat with true; [reflexivity|].
          symmetry. apply Nat.ltb_lt. lia.
        + rewrite IH3, Nat.eqb_refl. cbn [andb].
          destruct (Nat.ltb_spec s k), (Nat.ltb_spec s (S k)); try reflexivity; lia.
      - rewrite IH3. apply Nat.eqb_neq in N. rewrite N. reflexivity. }
    destruct (0 <? diff) eqn:E1.
    + simpl. split; [|split; [reflexivity|exact Hsnap]].
      rewrite IH1, map_const_range. reflexivity.
    + apply Z.ltb_ge in E1.
      replace (Z.to_nat diff) with 0%nat by lia. simpl. rewrite app_nil_r.
      destruct (diff <? 0) eqn:E2; simpl.
      * split; [exact IH1|]. split; [|exact Hsnap].
        rewrite py_range_nonpos by lia. reflexivity.
      * split; [exact IH1|]. split; [reflexivity|exact Hsnap].
Qed.

Lemma report_calls node adds : forall l w,
  trace
    (fold_left
       (fun w indx =>
          log (controller_reassign_vm node (nth_error (@nil nat) indx) adds) w)
       l w)
  = trace w ++ repeat (controller_reassign_vm node None adds) (length l).
Proof.
  induction l as [|x l IH]; intro w; simpl; [now rewrite app_nil_r|].
  rewrite IH. simpl. rewrite <- app_assoc. simpl.
  replace (nth_error (@nil nat) x) with (@None nat) by (now destruct x).
  reflexivity.
Qed.

Lemma report_snapshot node (rep adds : list nat) : forall l w,
  numVMsPerService
    (fold_left
       (fun w indx =>
          log (controller_reassign_vm node (nth_error rep indx) adds) w)
       l w)
  = numVMsPerService w.
Proof.
  induction l as [|x l IH]; intro w; simpl; [reflexivity|]. now rewrite IH.
Qed.

Lemma report_node_effect e w node :
  is_cloud (compSpots w node) = false ->
  let cs := compSpots w node in
  let adds := grown e cs (numVMsPerService w (cs_node cs)) in
  trace (Coordinated.report_node e w node)
  = trace w ++ repeat (controller_reassign_vm node None adds) (length adds)
  /\ forall n s,
       numVMsPerService (Coordinated.report_node e w node) n s
       = if Nat.eqb n (cs_node cs) && Nat.ltb s (num_services e)
         then numberOfServiceInstances cs s else numVMsPerService w n s.
Proof.
  intros Hc cs adds. unfold Coordinated.report_node. fold cs. fold cs in Hc.
  rewrite Hc.
  pose proof (diff_fold cs (numVMsPerService w) (num_services e)) as D.
  cbv zeta in D.
  destruct (fold_left (Coordinated.diff_service cs) (seq 0 (num_services e))
              (numVMsPerService w, [], [])) as [[snap toAdd] toReplace].
  simpl in D. destruct D as [D1 [D2 D3]]. subst toReplace.
  fold (grown e cs (numVMsPerService w (cs_node cs))) in D1. subst toAdd.
  split.
  - rewrite report_calls. rewrite length_seq. reflexivity.
  - intros n s. rewrite report_snapshot. simpl. apply D3.
Qed.

(* ----------------------------------------------------------------- *)
(** *** The instances [__init__] deals out *)

Lemma share_step V P s :
  0 < P -> 0 <= V ->
  share (V + 1) P s
  = share V P s + (if Nat.eqb s (Z.to_nat (V mod P)) then 1 else 0).
Proof.
  intros HP HV. unfold share.
  pose proof (Z.mod_pos_bound V P HP) as Hm.
  pose proof (Z.div_mod V P ltac:(lia)) as Hd.
  set (m := V mod P) in *. set (q := V / P) in *.
  destruct (Z.ltb_spec (Z.of_nat s) P) as [Hs|Hs].
  - destruct (Nat.eqb_spec s (Z.to_nat m)) as [E|N].
    + assert (Z.of_nat s = m) as Es by lia.
      rewrite <- (Z.div_unique (V + 1 + P - 1 - Z.of_nat s) P (q + 1) 0);
        [|lia|lia].
      rewrite <- (Z.div_unique (V + P - 1 - Z.of_nat s) P q (P - 1));
        [lia|lia|lia].
    + assert (Z.of_nat s <> m) as Ns by lia.
      destruct (Z_lt_le_dec (Z.of_nat s) m) as [L|L].
      * rewrite <- (Z.div_unique (V + 1 + P - 1 - Z.of_nat s) P (q + 1)
                      (m - Z.of_nat s)); [|lia|lia].
        rewrite <- (Z.div_unique (V + P - 1 - Z.of_nat s) P (q + 1)
                      (m - Z.of_nat s - 1)); [lia|lia|lia].
      * rewrite <- (Z.div_unique (V + 1 + P - 1 - Z.of_nat s) P q
                      (m + P - Z.of_nat s)); [|lia|lia].
        rewrite <- (Z.div_unique (V + P - 1 - Z.of_nat s) P q
                      (m + P - 1 - Z.of_nat s)); [lia|lia|lia].
  - destruct (Nat.eqb_spec s (Z.to_nat m)) as [E|N]; [lia|lia].
Qed.

Lemma share_zero P s : 0 < P -> share 0 P s = 0.
Proof.
  intro HP. unfold share. destruct (Z.ltb_spec (Z.of_nat s) P) as [Hs|Hs];
    [|reflexivity].
  symmetry. apply (Z.div_unique _ P 0 (P - 1 - Z.of_nat s)); lia.
Qed.

Lemma share_nonneg V P s : 0 < P -> 0 <= V -> 0 <= share V P s.
Proof.
  intros HP HV. unfold share. destruct (Z.ltb_spec (Z.of_nat s) P); [|lia].
  apply Z.div_pos; lia.
Qed.

Lemma deal_fold cs inst0 snap0 :
  0 < service_population_size cs ->
  forall k,
    let r := fold_left (Coordinated.deal_vm cs) (map Z.of_nat (seq 0 k))
               (inst0, snap0) in
    (forall s, fst r s
               = inst0 s + share (Z.of_nat k) (service_population_size cs) s)
    /\ forall n s,
         snd r n s
         = if Nat.eqb n (cs_node cs)
              && (0 <? share (Z.of_nat k) (service_population_size cs) s)
           then inst0 s + share (Z.of_nat k) (service_population_size cs) s
           else snap0 n s.
Proof.
  intro HP. induction k as [|k IH]; cbv zeta.
  - simpl. split.
    + intro s. rewrite share_zero by exact HP. lia.
    + intros n s. rewrite share_zero by exact HP. simpl.
      now rewrite andb_false_r.
  - rewrite seq_S, map_app, fold_left_app. cbv zeta in IH.
    remember (Z.of_nat (S k)) as K eqn:EK. simpl.
    destruct (fold_left (Coordinated.deal_vm cs) (map Z.of_nat (seq 0 k))
                (inst0, snap0)) as [inst snap].
    simpl in IH. destruct IH as [IH1 IH2].
    unfold Coordinated.deal_vm. cbn [fst snd].
    set (P := service_population_size cs) in *.
    set (serv := Z.to_nat (Z.of_nat k mod P)).
    assert (forall s, share K P s
                      = share (Z.of_nat k) P s
                        + (if Nat.eqb s serv then 1 else 0)) as Hstep.
    { intro s. rewrite EK, Nat2Z.inj_succ. unfold Z.succ.
      apply share_step; [exact HP|lia]. }
    assert (forall s, upd inst serv (inst serv + 1) s
                      = inst0 s + share K P s) as H1.
    { intro s. rewrite Hstep. unfold upd.
      destruct (Nat.eqb_spec s serv) as [->|N]; rewrite IH1; lia. }
    split; [exact H1|].
    intros n s. unfold upd2. unfold upd at 1 2.
    pose proof (share_nonneg (Z.of_nat k) P s HP ltac:(lia)) as Hnn.
    destruct (Nat.eqb_spec n (cs_node cs)) as [->|N]; cbn [andb].
    + destruct (Nat.eqb_spec s serv) as [->|Ns].
      * rewrite H1. rewrite Hstep, Nat.eqb_refl.
        replace (0 <? share (Z.of_nat k) P serv + 1) with true; [reflexivity|].
        symmetry. apply Z.ltb_lt. lia.
      * rewrite IH2, Nat.eqb_refl. cbn [andb]. rewrite Hstep.
        apply Nat.eqb_neq in Ns. rewrite Ns. now rewrite !Z.add_0_r.
    + rewrite IH2. apply Nat.eqb_neq in N. rewrite N. reflexivity.
Qed.

Lemma zeroed_lookup (f : nat -> Z) : forall k s,
  fold_left (fun f serv => upd f serv 0) (seq 0 k) f s
  = if Nat.ltb s k then 0 else f s.
Proof.
  induction k as [|k IH]; intro s; [reflexivity|].
  rewrite seq_S, fold_left_app. simpl. unfold upd at 1.
  destruct (Nat.eqb_spec s k) as [->|N].
  - replace (k <? S k)%nat with true; [reflexivity|]. symmetry.
    apply Nat.ltb_lt. lia.
  - rewrite IH. destruct (Nat.ltb_spec s k), (Nat.ltb_spec s (S k));
      try reflexivity; lia.
Qed.

Lemma init_spot_exact e w node :
  is_cloud (compSpots w node) = false ->
  0 <= numOfVMs (compSpots w node) ->
  0 < service_population_size (compSpots w node) ->
  exists w',
    Coordinated.init_spot e w node = Ok w'
    /\ (forall n, n <> node -> compSpots w' n = compSpots w n)
    /\ (exists f, compSpots w' node = set_instances f (compSpots w node))
    /\ (forall s, (s < num_services e)%nat ->
          numberOfServiceInstances (compSpots w' node) s
          = share (numOfVMs (compSpots w node))
              (service_population_size (compSpots w node)) s)
    /\ forall n s,
         (s < num_services e)%nat ->
         numVMsPerService w' n s
         = if Nat.eqb n (cs_node (compSpots w node))
              && (0 <? share (numOfVMs (compSpots w node))
                         (service_population_size (compSpots w node)) s)
           then share (numOfVMs (compSpots w node))
                  (service_population_size (compSpots w node)) s
           else numVMsPerService w n s.
Proof.
  intros Hc HV HP. unfold Coordinated.init_spot.
  set (cs := compSpots w node) in *. rewrite Hc.
  replace (service_population_size cs =? 0) with false
    by (symmetry; apply Z.eqb_neq; lia).
  rewrite andb_false_r.
  set (zeroed := fold_left _ (seq 0 (num_services e)) _).
  unfold py_range.
  pose proof (deal_fold cs zeroed (numVMsPerService w) HP
                (Z.to_nat (numOfVMs cs))) as D.
  cbv zeta in D. rewrite Z2Nat.id in D by exact HV.
  destruct (fold_left (Coordinated.deal_vm cs) _ _) as [inst snap].
  simpl in D. destruct D as [D1 D2].
  assert (forall s, (s < num_services e)%nat -> zeroed s = 0) as Hz.
  { intros s Hs. unfold zeroed. rewrite zeroed_lookup.
    apply Nat.ltb_lt in Hs. now rewrite Hs. }
  eexists. split; [reflexivity|]. simpl. split; [|split; [|split]].
  - intros n N. now apply upd_other.
  - exists inst. apply upd_same.
  - intros s Hs. rewrite upd_same. simpl. rewrite D1, Hz by exact Hs. lia.
  - intros n s Hs. rewrite D2, Hz by exact Hs. reflexivity.
Qed.

Lemma init_fold_exact e : forall nodes w,
  NoDup nodes ->
  (forall n, In n nodes -> is_cloud (compSpots w n) = false ->
     cs_node (compSpots w n) = n
     /\ 0 <= numOfVMs (compSpots w n)
     /\ 0 < service_population_size (compSpots w n)) ->
  (forall n s, In n nodes -> (s < num_services e)%nat ->
     numVMsPerService w n s = 0) ->
  exists w',
    foldM (Coordinated.init_spot e) nodes w = Ok w'
    /\ (forall n s, In n nodes -> is_cloud (compSpots w n) = false ->
          (s < num_services e)%nat ->
          numberOfServiceInstances (compSpots w' n) s
          = share (numOfVMs (compSpots w n))
              (service_population_size (compSpots w n)) s
          /\ numVMsPerService w' n s
             = numberOfServiceInstances (compSpots w' n) s)
    /\ (forall n, ~ In n nodes ->
          compSpots w' n = compSpots w n
          /\ forall s, (s < num_services e)%nat ->
               numVMsPerService w' n s = numVMsPerService w n s).
Proof.
  induction nodes as [|node nodes IH]; intros w Hnd H Hz; simpl.
  - exists w. split; [reflexivity|]. split; [intros n s []|].
    intros n _. split; [reflexivity|]. intros s _. reflexivity.
  - inversion Hnd as [|? ? Hnotin Hnd']; subst.
    destruct (is_cloud (compSpots w node)) eqn:Ec.
    + assert (Coordinated.init_spot e w node = Ok w) as E
        by (unfold Coordinated.init_spot; now rewrite Ec).
      rewrite E. cbn [bind].
      destruct (IH w Hnd') as [w' [E' [A B]]].
      { intros n I. apply H. now right. }
      { intros n s I. apply Hz. now right. }
      exists w'. split; [exact E'|]. split.
      * intros n s [->|I] Hc Hs; [congruence|]. now apply A.
      * intros n N. simpl in N. apply B. tauto.
    + destruct (H node (or_introl eq_refl) Ec) as [Hid [HV HP]].
      destruct (init_spot_exact e w node Ec HV HP)
        as [w1 [E [O1 [[f F1] [I1 S1]]]]].
      rewrite E. cbn [bind].
      destruct (IH w1 Hnd') as [w' [E' [A B]]].
      { intros n I. rewrite O1 by (intro; subst; contradiction).
        apply H. now right. }
      { intros n s I Hs. rewrite S1 by exact Hs. rewrite Hid.
        replace (Nat.eqb n node) with false.
        - apply Hz; [now right|exact Hs].
        - symmetry. apply Nat.eqb_neq. intro; subst; contradiction. }
      exists w'. split; [exact E'|]. split.
      * intros n s [->|I] Hc Hs.
        -- destruct (B n Hnotin) as [B1 B2]. rewrite B1, B2 by exact Hs.
           rewrite I1, S1 by exact Hs. split; [reflexivity|].
           rewrite Hid, Nat.eqb_refl. cbn [andb].
           destruct (Z.ltb_spec 0 (share (numOfVMs (compSpots w n))
                                     (service_population_size (compSpots w n)) s))
             as [L|L]; [reflexivity|].
           rewrite Hz by (try exact Hs; now left).
           pose proof (share_nonneg (numOfVMs (compSpots w n))
                         (service_population_size (compSpots w n)) s HP HV). lia.
        -- assert (n <> node) as N by (intro; subst; contradiction).
           rewrite <- (O1 n N). apply A; try assumption.
           rewrite (O1 n N). exact Hc.
      * intros n N. simpl in N.
        assert (n <> node) as N1 by (intro; subst; tauto).
        destruct (B n) as [B1 B2]; [tauto|]. split.
        -- rewrite B1. now apply O1.
        -- intros s Hs. rewrite B2, S1 by exact Hs. rewrite Hid.
           apply Nat.eqb_neq in N1. now rewrite N1.
Qed.

(** X1: [__init__] of COORDINATED deals the VMs of every compute spot that is
    not the cloud in turn to the first [service_population_size] services:
    service [s] gets [ceil((numOfVMs - s) / service_population_size)] of
    them and the services beyond get none; [numVMsPerService] records the
    same counts. *)
Theorem init_deals_vms_in_turn e spots :
  NoDup (service_nodes e) ->
  (forall n, In n (service_nodes e) -> is_cloud (spots n) = false ->
     cs_node (spots n) = n
     /\ 0 <= numOfVMs (spots n)
     /\ 0 < service_population_size (spots n) <= Z.of_nat (num_services e)) ->
  exists w0,
    Coordinated.init e spots = Ok w0
    /\ forall n s,
         In n (service_nodes e) -> is_cloud (spots n) = false ->
         (s < num_services e)%nat ->
         numberOfServiceInstances (compSpots w0 n) s
         = share (numOfVMs (spots n)) (service_population_size (spots n)) s
         /\ numVMsPerService w0 n s = numberOfServiceInstances (compSpots w0 n) s.
Proof.
  intros Hnd H. unfold Coordinated.init.
  destruct (init_fold_exact e (service_nodes e)
              (mkWorld 0 (fun _ _ _ => 0%Q) (fun _ _ => 0) (fun _ _ => Fin 0)
                 (fun _ _ => Fin 0) 0%nat 0%nat spots []) Hnd)
    as [w0 [E [A _]]].
  - intros n I Hc. destruct (H n I Hc) as [H1 [H2 H3]]. simpl.
    split; [exact H1|]. split; [exact H2|lia].
  - intros n s _ _. reflexivity.
  - exists w0. split; [exact E|]. intros n s I Hc Hs. now apply A.
Qed.

(** In the fixture the edge spot 0 has two VMs for two services: one
    instance each. *)
Lemma init_deals_vms_in_turn_witness :
  exists w0,
    Coordinated.init Fixture.env Fixture.spots = Ok w0
    /\ map (numberOfServiceInstances (compSpots w0 0%nat)) [0; 1]%nat
       = map (share 2 2) [0; 1]%nat
    /\ map (numVMsPerService w0 0%nat) [0; 1]%nat = [1; 1].
Proof.
  destruct (init_deals_vms_in_turn Fixture.env Fixture.spots) as [w0 [E H]].
  - exact fixture_nodes_NoDup.
  - intros n I C. simpl in I. destruct I as [<-|[<-|[]]]; simpl in *.
    + split; [reflexivity|]. lia.
    + discriminate.
  - exists w0. split; [exact E|].
    assert (In 0%nat (service_nodes Fixture.env)) as I0 by (now left).
    destruct (H 0%nat 0%nat I0 eq_refl) as [A0 B0]; [simpl; lia|].
    destruct (H 0%nat 1%nat I0 eq_refl) as [A1 B1]; [simpl; lia|].
    split.
    + simpl map. rewrite A0, A1. reflexivity.
    + simpl map. rewrite B0, B1, A0, A1. reflexivity.
Defined.

Lemma place_services_frame e w node w' :
  Coordinated.place_services e w node = Ok w' ->
  numVMsPerService w' = numVMsPerService w
  /\ forall n, cs_node (compSpots w' n) = cs_node (compSpots w n)
               /\ is_cloud (compSpots w' n) = is_cloud (compSpots w n).
Proof.
  unfold Coordinated.place_services.
  destruct (Coordinated.service_utils_sorted _ _ _).
  - intro E. inversion E; subst. split; [reflexivity|]. intro n. now split.
  - destruct (Qeq_bool _ _); [discriminate|]. intro E. inversion E; subst. simpl.
    split; [reflexivity|]. intro n. unfold upd.
    destruct (Nat.eqb_spec n node) as [->|]; now split.
Qed.

Lemma replace_at_height_frame e w h w' :
  Coordinated.replace_at_height e w h = Ok w' ->
  numVMsPerService w' = numVMsPerService w
  /\ forall n, cs_node (compSpots w' n) = cs_node (compSpots w n)
               /\ is_cloud (compSpots w' n) = is_cloud (compSpots w n).
Proof.
  unfold Coordinated.replace_at_height. intro E.
  apply (foldM_inv _
           (fun x => numVMsPerService x = numVMsPerService w
                     /\ forall n, cs_node (compSpots x n) = cs_node (compSpots w n)
                                  /\ is_cloud (compSpots x n)
                                     = is_cloud (compSpots w n))) in E;
    [exact E| |].
  - intros a b a' Ea [H1 H2]. apply place_services_frame in Ea.
    destruct Ea as [F1 F2]. split; [congruence|].
    intro n. destruct (F2 n) as [-> ->]. apply H2.
  - apply (fold_left_inv _
           (fun x => numVMsPerService x = numVMsPerService w
                     /\ forall n, cs_node (compSpots x n) = cs_node (compSpots w n)
                                  /\ is_cloud (compSpots x n)
                                     = is_cloud (compSpots w n)));
      [|split; [reflexivity|intro n; now split]].
    intros a b [H1 H2]. split; [exact H1|]. intro n. simpl. unfold upd.
    destruct (Nat.eqb_spec n b) as [->|]; [|apply H2]. simpl. apply H2.
Qed.

Lemma report_fold e : forall nodes w,
  NoDup nodes ->
  (forall n, In n nodes -> cs_node (compSpots w n) = n) ->
  let w' := fold_left (Coordinated.report_node e) nodes w in
  forall n s,
    numVMsPerService w' n s
    = if existsb (Nat.eqb n) nodes && negb (is_cloud (compSpots w n))
         && Nat.ltb s (num_services e)
      then numberOfServiceInstances (compSpots w n) s
      else numVMsPerService w n s.
Proof.
  induction nodes as [|node nodes IH]; intros w Hnd Hid; cbv zeta; intros n s.
  - reflexivity.
  - inversion Hnd as [|? ? Hnotin Hnd']; subst. cbn [fold_left existsb].
    assert (compSpots (Coordinated.report_node e w node) = compSpots w) as Hs
      by apply report_node_spots.
    rewrite IH; [|exact Hnd'|intros m I; rewrite Hs; apply Hid; now right].
    rewrite Hs.
    assert (existsb (Nat.eqb node) nodes = false) as Ex.
    { apply not_true_is_false. intro H. apply existsb_exists in H.
      destruct H as [y [I E]]. apply Nat.eqb_eq in E. subst. contradiction. }
    destruct (is_cloud (compSpots w node)) eqn:Ec.
    + assert (Coordinated.report_node e w node = w) as Ew
        by (unfold Coordinated.report_node; now rewrite Ec).
      rewrite Ew. destruct (Nat.eqb_spec n node) as [->|N]; cbn [orb];
        [|reflexivity].
      rewrite Ex, Ec. reflexivity.
    + destruct (report_node_effect e w node Ec) as [_ K]. rewrite K.
      rewrite (Hid node (or_introl eq_refl)).
      destruct (Nat.eqb_spec n node) as [->|N]; cbn [orb andb].
      * rewrite Ex, Ec. cbn [andb negb].
        destruct (s <? num_services e)%nat; reflexivity.
      * destruct (existsb (Nat.eqb n) nodes && negb (is_cloud (compSpots w n))
                  && (s <? num_services e)%nat); reflexivity.
Qed.

Lemma grown_ext e cs snap snap' :
  (forall s, (s < num_services e)%nat -> snap s = snap' s) ->
  grown e cs snap = grown e cs snap'.
Proof.
  intro H. unfold grown.
  assert (forall l, (forall s, In s l -> (s < num_services e)%nat) ->
            flat_map (fun s => repeat s
                        (Z.to_nat (numberOfServiceInstances cs s - snap s))) l
            = flat_map (fun s => repeat s
                          (Z.to_nat (numberOfServiceInstances cs s - snap' s))) l)
    as K.
  { induction l as [|s l IH]; intro Hl; simpl; [reflexivity|].
    rewrite IH by (intros s' I; apply Hl; now right).
    rewrite H by (apply Hl; now left). reflexivity. }
  apply K. intros s I. apply in_seq in I. lia.
Qed.

Lemma flat_map_ext_in {A B} (f g : A -> list B) l :
  (forall x, In x l -> f x = g x) -> flat_map f l = flat_map g l.
Proof.
  induction l as [|x l IH]; intro H; simpl; [reflexivity|].
  rewrite H by now left. rewrite IH; [reflexivity|].
  intros y I. apply H. now right.
Qed.

Lemma report_fold_trace e : forall nodes w,
  NoDup nodes ->
  (forall n, In n nodes -> cs_node (compSpots w n) = n) ->
  trace (fold_left (Coordinated.report_node e) nodes w)
  = trace w
    ++ flat_map (fun node => gains e (compSpots w node) (numVMsPerService w node)
                               node) nodes.
Proof.
  induction nodes as [|node nodes IH]; intros w Hnd Hid; cbn [fold_left flat_map].
  - now rewrite app_nil_r.
  - inversion Hnd as [|? ? Hnotin Hnd']; subst.
    assert (compSpots (Coordinated.report_node e w node) = compSpots w) as Hs
      by apply report_node_spots.
    rewrite IH; [|exact Hnd'|intros m I; rewrite Hs; apply Hid; now right].
    rewrite Hs.
    assert (trace (Coordinated.report_node e w node)
            = trace w ++ gains e (compSpots w node) (numVMsPerService w node) node
            /\ forall m s, m <> node -> 
                 numVMsPerService (Coordinated.report_node e w node) m s
                 = numVMsPerService w m s) as [T S].
    { unfold gains. destruct (is_cloud (compSpots w node)) eqn:Ec.
      - assert (Coordinated.report_node e w node = w) as Ew
          by (unfold Coordinated.report_node; now rewrite Ec).
        rewrite Ew. split; [now rewrite app_nil_r|reflexivity].
      - destruct (report_node_effect e w node Ec) as [K1 K2].
        rewrite (Hid node (or_introl eq_refl)) in K1, K2.
        split; [exact K1|]. intros m s N. rewrite K2.
        apply Nat.eqb_neq in N. now rewrite N. }
    rewrite T, <- app_assoc. f_equal. f_equal.
    apply flat_map_ext_in. intros m I.
    assert (m <> node) as N by (intro; subst; contradiction).
    unfold gains. destruct (is_cloud (compSpots w m)); [reflexivity|].
    cbv zeta.
    rewrite (grown_ext e (compSpots w m)
               (numVMsPerService (Coordinated.report_node e w node) m)
               (numVMsPerService w m)); [reflexivity|].
    intros s _. now apply S.
Qed.

(** X7: The report of a COORDINATED replacement pass: for every compute spot
    that is not the cloud, in the order of the spots, one
    [controller.reassign_vm(node, None, servicesToAdd)] call per instance
    the spot has gained over the snapshot of the pass before; after it the
    snapshot holds the new counts. *)
Theorem coordinated_pass_reports_gains e time w w' :
  NoDup (service_nodes e) ->
  (forall n, In n (service_nodes e) -> cs_node (compSpots w n) = n) ->
  Coordinated.replace_services e time w = Ok w' ->
  trace w'
  = trace w
    ++ flat_map (fun node => gains e (compSpots w' node) (numVMsPerService w node)
                               node) (service_nodes e)
  /\ forall n s,
       In n (service_nodes e) -> is_cloud (compSpots w' n) = false ->
       (s < num_services e)%nat ->
       numVMsPerService w' n s = numberOfServiceInstances (compSpots w' n) s.
Proof.
  intros Hnd Hid. unfold Coordinated.replace_services.
  destruct (foldM _ _ w) as [w1|x] eqn:E1; cbn [bind]; [|discriminate].
  intro E. injection E as <-.
  assert (trace w1 = trace w /\ numVMsPerService w1 = numVMsPerService w
          /\ forall m, cs_node (compSpots w1 m) = cs_node (compSpots w m))
    as [T1 [S1 Hn]].
  { refine (foldM_inv _
              (fun x => trace x = trace w
                        /\ numVMsPerService x = numVMsPerService w
                        /\ forall m, cs_node (compSpots x m)
                                     = cs_node (compSpots w m))
              _ _ _ _ E1 _); [|repeat split].
    intros a h a' Ea [Ha1 [Ha2 Ha3]].
    pose proof (replace_at_height_trace _ _ _ _ Ea) as Ft.
    apply replace_at_height_frame in Ea. destruct Ea as [F1 F2].
    split; [congruence|]. split; [congruence|].
    intro m. destruct (F2 m) as [-> _]. apply Ha3. }
  assert (forall n, In n (service_nodes e) -> cs_node (compSpots w1 n) = n) as Hid1
    by (intros m Im; rewrite Hn; now apply Hid).
  split.
  - rewrite report_fold_trace by assumption. rewrite T1, S1.
    rewrite report_spots. reflexivity.
  - intros n s I Hc Hs. rewrite report_spots in Hc |- *.
    rewrite report_fold by assumption.
    replace (existsb (Nat.eqb n) (service_nodes e)) with true.
    + rewrite Hc. apply Nat.ltb_lt in Hs. rewrite Hs. reflexivity.
    + symmetry. apply existsb_exists. exists n. split; [exact I|apply Nat.eqb_refl].
Qed.

(** The pass over [Fixture.busy] moves the VM of service 0 to service 1:
    one call, for the instance service 1 gained. *)
Lemma coordinated_pass_reports_gains_witness :
  exists w',
    Coordinated.replace_services Fixture.env 20 Fixture.busy = Ok w'
    /\ trace w'
       = trace Fixture.busy
         ++ flat_map
              (fun node =>
                 gains Fixture.env (compSpots w' node)
                   (numVMsPerService Fixture.busy node) node) [0; 1]%nat
    /\ map (numVMsPerService w' 0%nat) [0; 1]%nat = [0; 2].
Proof.
  assert (exists w',
            Coordinated.replace_services Fixture.env 20 Fixture.busy = Ok w'
            /\ map (numberOfServiceInstances (compSpots w' 0%nat)) [0; 1]%nat
               = [0; 2]
            /\ is_cloud (compSpots w' 0%nat) = false)
    as [w' [E [N C]]] by (eexists; split; [|split]; vm_compute; reflexivity).
  exists w'. split; [exact E|].
  destruct (coordinated_pass_reports_gains Fixture.env 20 Fixture.busy w'
              fixture_nodes_NoDup
              (fixture_ids Fixture.busy fixture_started_spots) E) as [T S].
  split; [exact T|].
  assert (In 0%nat (service_nodes Fixture.env)) as I0 by (now left).
  simpl map. rewrite (S 0%nat 0%nat I0 C), (S 0%nat 1%nat I0 C) by (simpl; lia).
  exact N.
Defined.

(* ----------------------------------------------------------------- *)
(** *** MFU and SDF: which VMs are replaced *)

Lemma skipn_nth_error {A} (l : list A) : forall i,
  match nth_error l i with
  | Some x => skipn i l = x :: skipn (S i) l /\ (i < length l)%nat
  | None => skipn i l = []
  end.
Proof.
  induction l as [|a l IH]; intro i.
  - destruct i; reflexivity.
  - destruct i as [|i]; simpl.
    + split; [reflexivity|lia].
    + specialize (IH i). destruct (nth_error l i); [|exact IH].
      destruct IH as [E L]. split; [exact E|lia].
Qed.

Lemma mfu_swap_loop_closed e node cands : forall vms indx k w,
  0 < k ->
  trace (Mfu.swap_loop e node cands vms indx k w)
  = trace w
    ++ map (reassign_call e node)
         (replacements mfu_stop k vms (skipn indx cands)).
Proof.
  unfold replacements, matched.
  induction vms as [|vm vms IH]; intros indx k w Hk; cbn [Mfu.swap_loop].
  - simpl. rewrite firstn_nil. simpl. now rewrite app_nil_r.
  - pose proof (skipn_nth_error cands indx) as Hs.
    destruct (nth_error cands indx) as [c|].
    + destruct Hs as [Hs Hl]. rewrite Hs. cbn [combine take_while fst snd].
      unfold mfu_stop at 1. cbn [fst snd].
      destruct (qlt (snd c) (snd vm)); cbn [negb].
      * simpl. rewrite firstn_nil. simpl. now rewrite app_nil_r.
      * cbn [filter fst snd].
        assert (Nat.eqb indx (length cands) = false) as Hi
          by (apply Nat.eqb_neq; lia).
        destruct (Nat.eqb (fst vm) (fst c)); cbn [negb]; rewrite Hi, orb_false_r.
        -- replace (k =? 0) with false by (symmetry; apply Z.eqb_neq; lia).
           now apply IH.
        -- destruct (Z.eqb_spec (k - 1) 0) as [E|N].
           ++ replace (Z.to_nat k) with 1%nat by lia.
              reflexivity.
           ++ rewrite IH by lia. simpl trace at 1.
              replace (Z.to_nat k) with (S (Z.to_nat (k - 1))) by lia.
              cbn [firstn map]. rewrite <- app_assoc. reflexivity.
    + rewrite Hs. destruct vms; simpl; rewrite ?firstn_nil; simpl;
        now rewrite app_nil_r.
Qed.

Lemma sublist_refl {A} (l : list A) : sublist l l.
Proof. induction l; [constructor|now apply sublist_keep]. Qed.

Lemma sublist_nil_l {A} (l : list A) : sublist [] l.
Proof. induction l; [constructor|now apply sublist_skip]. Qed.

Lemma sublist_trans {A} (l1 l2 l3 : list A) :
  sublist l1 l2 -> sublist l2 l3 -> sublist l1 l3.
Proof.
  intros H12 H23. revert l1 H12.
  induction H23 as [|x l2 l3 H IH|x l2 l3 H IH]; intros l1 H12.
  - exact H12.
  - apply sublist_skip. now apply IH.
  - inversion H12; subst.
    + apply sublist_skip. now apply IH.
    + apply sublist_keep. now apply IH.
Qed.

Lemma sublist_In {A} (l1 l2 : list A) x : sublist l1 l2 -> In x l1 -> In x l2.
Proof.
  induction 1 as [|y l1 l2 H IH|y l1 l2 H IH]; intro I.
  - exact I.
  - right. now apply IH.
  - destruct I as [->|I]; [now left|right; now apply IH].
Qed.

Lemma sublist_NoDup {A} (l1 l2 : list A) :
  sublist l1 l2 -> NoDup l2 -> NoDup l1.
Proof.
  induction 1 as [|y l1 l2 H IH|y l1 l2 H IH]; intro Hnd.
  - exact Hnd.
  - inversion Hnd; subst. now apply IH.
  - inversion Hnd as [|? ? Hy Hl]; subst. constructor; [|now apply IH].
    intro I. apply Hy. now apply (sublist_In _ _ _ H).
Qed.

Lemma sublist_map {A B} (f : A -> B) (l1 l2 : list A) :
  sublist l1 l2 -> sublist (map f l1) (map f l2).
Proof.
  induction 1; simpl;
    [constructor|now apply sublist_skip|now apply sublist_keep].
Qed.

Lemma sublist_filter {A} (f : A -> bool) (l : list A) : sublist (filter f l) l.
Proof.
  induction l as [|x l IH]; simpl; [constructor|].
  destruct (f x); [now apply sublist_keep|now apply sublist_skip].
Qed.

Lemma sublist_firstn {A} n (l : list A) : sublist (firstn n l) l.
Proof.
  revert n. induction l as [|x l IH]; intro n.
  - rewrite firstn_nil. constructor.
  - destruct n; simpl; [apply sublist_nil_l|]. apply sublist_keep. apply IH.
Qed.

Lemma sublist_take_while {A} (f : A -> bool) (l : list A) :
  sublist (take_while f l) l.
Proof.
  induction l as [|x l IH]; simpl; [constructor|].
  destruct (f x); [now apply sublist_keep|apply sublist_nil_l].
Qed.

Lemma sublist_combine_fst {A B} (l1 : list A) : forall l2 : list B,
  sublist (map fst (combine l1 l2)) l1.
Proof.
  induction l1 as [|a l1 IH]; intro l2; simpl; [constructor|].
  destruct l2 as [|b l2]; simpl; [apply sublist_nil_l|]. apply sublist_keep.
  apply IH.
Qed.

Lemma sublist_combine_snd {A B} (l1 : list A) : forall l2 : list B,
  sublist (map snd (combine l1 l2)) l2.
Proof.
  induction l1 as [|a l1 IH]; intro l2; simpl; [apply sublist_nil_l|].
  destruct l2 as [|b l2]; simpl; [constructor|]. apply sublist_keep. apply IH.
Qed.

Section Matched.

Context {M : Type}.
Variable stop : nat * M -> nat * M -> bool.
Variables vms cands : list (nat * M).

Lemma matched_sublist k :
  sublist (firstn k (matched stop vms cands)) (combine vms cands).
Proof.
  unfold matched.
  eapply sublist_trans; [apply sublist_firstn|].
  eapply sublist_trans; [apply sublist_filter|apply sublist_take_while].
Qed.

Lemma take_while_all {A} (f : A -> bool) (l : list A) x :
  In x (take_while f l) -> f x = true.
Proof.
  induction l as [|y l IH]; simpl; [contradiction|].
  destruct (f y) eqn:E; [|contradiction].
  intros [->|I]; [exact E|now apply IH].
Qed.

Lemma replacements_sources k :
  sublist (map fst (replacements stop k vms cands)) (map fst vms).
Proof.
  unfold replacements. rewrite map_map. cbn [fst].
  rewrite <- (map_map fst fst).
  apply sublist_map.
  eapply sublist_trans; [|apply (sublist_combine_fst vms cands)].
  apply sublist_map. apply matched_sublist.
Qed.

Lemma replacements_targets k :
  sublist (map snd (replacements stop k vms cands)) (map fst cands).
Proof.
  unfold replacements. rewrite map_map. cbn [snd].
  rewrite <- (map_map snd fst).
  apply sublist_map.
  eapply sublist_trans; [|apply (sublist_combine_snd vms cands)].
  apply sublist_map. apply matched_sublist.
Qed.

Lemma replacements_in k x :
  In x (replacements stop k vms cands) ->
  exists vm c,
    x = (fst vm, fst c) /\ In vm vms /\ In c cands
    /\ stop vm c = false /\ fst vm <> fst c.
Proof.
  unfold replacements, matched. intro I. apply in_map_iff in I.
  destruct I as [[vm c] [<- I]]. exists vm, c. split; [reflexivity|].
  apply (sublist_In _ _ _ (sublist_firstn _ _)) in I.
  apply filter_In in I. destruct I as [I N].
  pose proof (take_while_all _ _ _ I) as S. cbn [fst snd] in S, N.
  apply (sublist_In _ _ _ (sublist_take_while _ _)) in I.
  split; [now apply in_combine_l in I|]. split; [now apply in_combine_r in I|].
  split; [now apply negb_true_iff in S|].
  apply negb_true_iff in N. now apply Nat.eqb_neq.
Qed.

Lemma replacements_length k :
  0 <= k -> (length (replacements stop k vms cands) <= Z.to_nat k)%nat.
Proof.
  intro Hk. unfold replacements. rewrite length_map. apply firstn_le_length.
Qed.

End Matched.

Lemma flat_map_option_sublist {B} (c : nat -> bool) (g : nat -> B) l :
  sublist
    (map fst (flat_map (fun s => if c s then [] else [(s, g s)]) l)) l.
Proof.
  induction l as [|s l IH]; simpl; [constructor|].
  destruct (c s); simpl; [now apply sublist_skip|now apply sublist_keep].
Qed.

Lemma mfu_vms_ids e cs : sublist (map fst (Mfu.vms e cs)) (seq 0 (num_services e)).
Proof. unfold Mfu.vms. apply flat_map_option_sublist. Qed.

Lemma mfu_cands_ids e cs :
  sublist (map fst (Mfu.cand_services e cs)) (seq 0 (num_services e)).
Proof. unfold Mfu.cand_services. apply flat_map_option_sublist. Qed.

Lemma mfu_vms_in e cs a u :
  In (a, u) (Mfu.vms e cs) ->
  numberOfServiceInstances cs a <> 0
  /\ (u == inject_Z (running_requests cs a)
           * Service.service_time (cs_services cs a))%Q.
Proof.
  unfold Mfu.vms. intro I. apply in_flat_map in I. destruct I as [s [_ I]].
  destruct (Z.eqb_spec (numberOfServiceInstances cs s) 0) as [E|N];
    [contradiction|].
  destruct I as [I|[]]. inversion I; subst. split; [exact N|].
  destruct (Z.eqb_spec (running_requests cs a) 0) as [E|_]; [|reflexivity].
  rewrite E. unfold inject_Z. ring.
Qed.

Lemma mfu_cands_in e cs b v :
  In (b, v) (Mfu.cand_services e cs) ->
  missed_requests cs b <> 0
  /\ v = (inject_Z (missed_requests cs b)
          * Service.service_time (cs_services cs b))%Q.
Proof.
  unfold Mfu.cand_services. intro I. apply in_flat_map in I.
  destruct I as [s [_ I]].
  destruct (Z.eqb_spec (missed_requests cs s) 0) as [E|N]; [contradiction|].
  destruct I as [I|[]]. inversion I; subst. now split.
Qed.

Lemma sorted_ids_NoDup {M} (leb : nat * M -> nat * M -> bool) l n :
  sublist (map fst l) (seq 0 n) -> NoDup (map fst (sorted_by leb l)).
Proof.
  intro H.
  apply (Permutation_NoDup (Permutation_map fst (Permutation_sym (sorted_by_perm leb l)))).
  apply (sublist_NoDup _ _ H). apply seq_NoDup.
Qed.

(** X13: The replacements of MFU at one node, with at most [k] >= 1 of them
    allowed.  The VMs sorted by their usage, least used first, are set
    against the missed services sorted by theirs, most used first, pair by
    pair up to the first VM used more than its candidate; each pair of two
    different services is a [reassign_vm], until [k] are made.  So no
    service gives or receives more than one VM, a VM is only taken from a
    service that runs at the node and is not used more than the service it
    is given to, and that service missed requests at the node. *)
Theorem mfu_replaces_least_used e k w node :
  0 < k ->
  is_cloud (compSpots w node) = false ->
  let cs := compSpots w node in
  let swaps :=
    replacements mfu_stop k (sorted_by by_snd_asc (Mfu.vms e cs))
      (sorted_by by_snd_desc (Mfu.cand_services e cs)) in
  trace (Mfu.replace_node e k w node)
  = trace w ++ map (reassign_call e node) swaps
  /\ (length swaps <= Z.to_nat k)%nat
  /\ NoDup (map fst swaps) /\ NoDup (map snd swaps)
  /\ Forall
       (fun x =>
          fst x <> snd x
          /\ numberOfServiceInstances cs (fst x) <> 0
          /\ missed_requests cs (snd x) <> 0
          /\ (inject_Z (running_requests cs (fst x))
              * Service.service_time (cs_services cs (fst x))
              <= inject_Z (missed_requests cs (snd x))
                 * Service.service_time (cs_services cs (snd x)))%Q)
       swaps.
Proof.
  intros Hk Hc cs swaps. split; [|split; [|split; [|split]]].
  - unfold Mfu.replace_node. fold cs. fold cs in Hc. rewrite Hc.
    rewrite mfu_swap_loop_closed by exact Hk. reflexivity.
  - apply replacements_length. lia.
  - eapply sublist_NoDup; [apply replacements_sources|].
    apply (sorted_ids_NoDup _ _ _ (mfu_vms_ids e cs)).
  - eapply sublist_NoDup; [apply replacements_targets|].
    apply (sorted_ids_NoDup _ _ _ (mfu_cands_ids e cs)).
  - apply Forall_forall. intros x I.
    apply replacements_in in I.
    destruct I as [[a u] [[b v] [-> [Ia [Ib [S N]]]]]]. cbn [fst snd] in *.
    apply (Permutation_in _ (sorted_by_perm _ _)) in Ia, Ib.
    apply mfu_vms_in in Ia. apply mfu_cands_in in Ib.
    destruct Ia as [A1 A2], Ib as [B1 B2].
    split; [exact N|]. split; [exact A1|]. split; [exact B1|].
    unfold mfu_stop in S. cbn [snd] in S. apply qlt_false in S.
    rewrite <- A2, <- B2. exact S.
Qed.

Lemma mfu_replaces_least_used_witness :
  trace (Mfu.replace_node Fixture.env 1 Fixture.torn 0)
  = [reassign_call Fixture.env 0 (1, 0)%nat].
Proof.
  destruct (mfu_replaces_least_used Fixture.env 1 Fixture.torn 0) as [T _];
    [lia|reflexivity|].
  exact T.
Defined.

Lemma sdf_swap_loop_closed e node cands : forall vms indx k w,
  0 < k ->
  trace (Sdf.swap_loop e node cands vms indx k w)
  = trace w
    ++ map (reassign_call e node)
         (replacements sdf_stop k vms (skipn indx cands)).
Proof.
  unfold replacements, matched.
  induction vms as [|vm vms IH]; intros indx k w Hk; cbn [Sdf.swap_loop].
  - simpl. rewrite firstn_nil. simpl. now rewrite app_nil_r.
  - pose proof (skipn_nth_error cands indx) as Hs.
    destruct (nth_error cands indx) as [c|].
    + destruct Hs as [Hs Hl]. rewrite Hs. cbn [combine take_while fst snd].
      unfold sdf_stop at 1. cbn [fst snd].
      destruct (xlt (snd vm) (snd c)); cbn [negb].
      * simpl. rewrite firstn_nil. simpl. now rewrite app_nil_r.
      * cbn [filter fst snd].
        assert (Nat.eqb indx (length cands) = false) as Hi
          by (apply Nat.eqb_neq; lia).
        destruct (Nat.eqb (fst vm) (fst c)); cbn [negb]; rewrite Hi, orb_false_r.
        -- replace (k =? 0) with false by (symmetry; apply Z.eqb_neq; lia).
           now apply IH.
        -- destruct (Z.eqb_spec (k - 1) 0) as [E|N].
           ++ replace (Z.to_nat k) with 1%nat by lia.
              reflexivity.
           ++ rewrite IH by lia. simpl trace at 1.
              replace (Z.to_nat k) with (S (Z.to_nat (k - 1))) by lia.
              cbn [firstn map]. rewrite <- app_assoc. reflexivity.
    + rewrite Hs. destruct vms; simpl; rewrite ?firstn_nil; simpl;
        now rewrite app_nil_r.
Qed.

Lemma sdf_vms_ids e cs m :
  sublist (map fst (Sdf.vms e cs m)) (seq 0 (num_services e)).
Proof. unfold Sdf.vms. apply flat_map_option_sublist. Qed.

Lemma sdf_cands_ids e cs m :
  sublist (map fst (Sdf.cand_services e cs m)) (seq 0 (num_services e)).
Proof. unfold Sdf.cand_services. apply flat_map_option_sublist. Qed.

Lemma sdf_vms_in e cs m a u :
  In (a, u) (Sdf.vms e cs m) ->
  numberOfServiceInstances cs a <> 0 /\ u = running_slack cs m a.
Proof.
  unfold Sdf.vms. intro I. apply in_flat_map in I. destruct I as [s [_ I]].
  destruct (Z.eqb_spec (numberOfServiceInstances cs s) 0) as [E|N];
    [contradiction|].
  destruct I as [I|[]]. inversion I; subst. now split.
Qed.

Lemma sdf_cands_in e cs m b v :
  In (b, v) (Sdf.cand_services e cs m) ->
  missed_requests cs b <> 0 /\ v = missed_slack cs m b.
Proof.
  unfold Sdf.cand_services. intro I. apply in_flat_map in I.
  destruct I as [s [_ I]].
  destruct (Z.eqb_spec (missed_requests cs s) 0) as [E|N]; [contradiction|].
  destruct I as [I|[]]. inversion I; subst. now split.
Qed.

(** X14: The replacements of SDF at one node, with at most [k] >= 1 of them
    allowed.  The VMs sorted by the average slack of their requests,
    largest first, are set against the missed services sorted by theirs,
    smallest first, pair by pair up to the first VM with less slack than
    its candidate; each pair of two different services is a
    [reassign_vm], until [k] are made.  So no service gives or receives
    more than one VM, and a VM is only taken from a service that runs at
    the node for a service that missed requests there and has no more
    slack. *)
Theorem sdf_replaces_most_relaxed e k w node :
  0 < k ->
  is_cloud (compSpots w node) = false ->
  let cs := compSpots w node in
  let swaps :=
    replacements sdf_stop k
      (sorted_by Sdf.by_metric_desc (Sdf.vms e cs (deadline_metric w node)))
      (sorted_by Sdf.by_metric_asc
         (Sdf.cand_services e cs (cand_deadline_metric w node))) in
  trace (Sdf.replace_node e k w node)
  = trace w ++ map (reassign_call e node) swaps
  /\ (length swaps <= Z.to_nat k)%nat
  /\ NoDup (map fst swaps) /\ NoDup (map snd swaps)
  /\ Forall
       (fun x =>
          fst x <> snd x
          /\ numberOfServiceInstances cs (fst x) <> 0
          /\ missed_requests cs (snd x) <> 0
          /\ xle (missed_slack cs (cand_deadline_metric w node) (snd x))
               (running_slack cs (deadline_metric w node) (fst x)) = true)
       swaps.
Proof.
  intros Hk Hc cs swaps. split; [|split; [|split; [|split]]].
  - unfold Sdf.replace_node. fold cs. fold cs in Hc. rewrite Hc.
    rewrite sdf_swap_loop_closed by exact Hk. reflexivity.
  - apply replacements_length. lia.
  - eapply sublist_NoDup; [apply replacements_sources|].
    apply (sorted_ids_NoDup _ _ _ (sdf_vms_ids e cs _)).
  - eapply sublist_NoDup; [apply replacements_targets|].
    apply (sorted_ids_NoDup _ _ _ (sdf_cands_ids e cs _)).
  - apply Forall_forall. intros x I.
    apply replacements_in in I.
    destruct I as [[a u] [[b v] [-> [Ia [Ib [S N]]]]]]. cbn [fst snd] in *.
    apply (Permutation_in _ (sorted_by_perm _ _)) in Ia, Ib.
    apply sdf_vms_in in Ia. apply sdf_cands_in in Ib.
    destruct Ia as [A1 A2], Ib as [B1 B2].
    split; [exact N|]. split; [exact A1|]. split; [exact B1|].
    unfold sdf_stop in S. cbn [snd] in S. subst u v.
    unfold xle. now rewrite S.
Qed.

Lemma sdf_replaces_most_relaxed_witness :
  trace (Sdf.replace_node Fixture.env 1 Fixture.torn 0)
  = [reassign_call Fixture.env 0 (1, 0)%nat].
Proof.
  destruct (sdf_replaces_most_relaxed Fixture.env 1 Fixture.torn 0) as [T _];
    [lia|reflexivity|].
  exact T.
Defined.

(* ----------------------------------------------------------------- *)
(** *** HYBRID: the reassignments of a node *)

Lemma score_service_lists e cs cand sc x :
  let sc1 := Hybrid.score_service e cs cand sc x in
  map fst (Hybrid.running_services_utilisation_normalised sc1)
  = map fst (Hybrid.running_services_utilisation_normalised sc)
    ++ (if 0 <? numberOfServiceInstances cs x then [x] else [])
  /\ map fst (Hybrid.missed_services_utilisation sc1)
     = map fst (Hybrid.missed_services_utilisation sc)
       ++ (if 0 <=? numberOfServiceInstances cs x then [x] else [])
  /\ (forall s u,
        In (s, u) (Hybrid.running_services_utilisation_normalised sc1) ->
        In (s, u) (Hybrid.running_services_utilisation_normalised sc)
        \/ 0 < numberOfServiceInstances cs s)
  /\ (forall s u,
        In (s, u) (Hybrid.missed_services_utilisation sc1) ->
        In (s, u) (Hybrid.missed_services_utilisation sc)
        \/ 0 <= numberOfServiceInstances cs s).
Proof.
  cbv zeta. unfold Hybrid.score_service.
  destruct (Z.eqb_spec (numberOfServiceInstances cs x) 0) as [E0|N0].
  - cbn [Hybrid.running_services_utilisation_normalised
         Hybrid.missed_services_utilisation].
    rewrite E0. cbn [Z.ltb Z.leb Z.compare]. rewrite app_nil_r, map_app.
    split; [reflexivity|]. split; [reflexivity|]. split.
    + intros s u I. now left.
    + intros s u I. apply in_app_or in I. destruct I as [I|[I|[]]]; [now left|].
      inversion I; subst. right. lia.
  - destruct (Z.ltb_spec 0 (numberOfServiceInstances cs x)) as [P|NP].
    + cbn [Hybrid.running_services_utilisation_normalised
           Hybrid.missed_services_utilisation].
      replace (0 <=? numberOfServiceInstances cs x) with true
        by (symmetry; apply Z.leb_le; lia).
      rewrite !map_app. split; [reflexivity|]. split; [reflexivity|]. split.
      * intros s u I. apply in_app_or in I. destruct I as [I|[I|[]]]; [now left|].
        inversion I; subst. now right.
      * intros s u I. apply in_app_or in I. destruct I as [I|[I|[]]]; [now left|].
        inversion I; subst. right. lia.
    + cbn [Hybrid.running_services_utilisation_normalised
           Hybrid.missed_services_utilisation].
      replace (0 <=? numberOfServiceInstances cs x) with false
        by (symmetry; apply Z.leb_gt; lia).
      rewrite !app_nil_r. split; [reflexivity|]. split; [reflexivity|].
      split; intros s u I; now left.
Qed.

Lemma sublist_app_option {A} (m l : list A) (o : list A) x :
  (o = [x] \/ o = []) -> sublist ((m ++ o) ++ l) (m ++ x :: l).
Proof.
  intro H. rewrite <- app_assoc. induction m as [|y m IH]; simpl.
  - destruct H as [->| ->]; simpl.
    + apply sublist_keep. apply sublist_refl.
    + apply sublist_skip. apply sublist_refl.
  - now apply sublist_keep.
Qed.

Lemma score_fold_lists e cs cand : forall l sc,
  let sc' := fold_left (Hybrid.score_service e cs cand) l sc in
  sublist
    (map fst (Hybrid.running_services_utilisation_normalised sc'))
    (map fst (Hybrid.running_services_utilisation_normalised sc) ++ l)
  /\ sublist
       (map fst (Hybrid.missed_services_utilisation sc'))
       (map fst (Hybrid.missed_services_utilisation sc) ++ l)
  /\ (forall s u,
        In (s, u) (Hybrid.running_services_utilisation_normalised sc') ->
        In (s, u) (Hybrid.running_services_utilisation_normalised sc)
        \/ 0 < numberOfServiceInstances cs s)
  /\ (forall s u,
        In (s, u) (Hybrid.missed_services_utilisation sc') ->
        In (s, u) (Hybrid.missed_services_utilisation sc)
        \/ 0 <= numberOfServiceInstances cs s).
Proof.
  induction l as [|x l IH]; intro sc; cbv zeta; cbn [fold_left].
  - rewrite !app_nil_r. split; [apply sublist_refl|]. split; [apply sublist_refl|].
    split; intros s u I; now left.
  - destruct (IH (Hybrid.score_service e cs cand sc x)) as [A [B [C D]]].
    destruct (score_service_lists e cs cand sc x) as [A1 [B1 [C1 D1]]].
    rewrite A1 in A. rewrite B1 in B.
    split; [|split; [|split]].
    + eapply sublist_trans; [exact A|]. apply sublist_app_option.
      destruct (0 <? _); [now left|now right].
    + eapply sublist_trans; [exact B|]. apply sublist_app_option.
      destruct (0 <=? _); [now left|now right].
    + intros s u I. destruct (C s u I) as [H|H]; [|now right]. now apply C1.
    + intros s u I. destruct (D s u I) as [H|H]; [|now right]. now apply D1.
Qed.

Lemma score_fold_delay e cs cand : forall l sc,
  NoDup l ->
  let sc' := fold_left (Hybrid.score_service e cs cand) l sc in
  (forall s, In s l ->
     Hybrid.delay sc' s
     = if (numberOfServiceInstances cs s =? 0)
          || (0 <? numberOfServiceInstances cs s)
       then average_slack cs (Hybrid.residual sc) cand s
       else Hybrid.delay sc s)
  /\ (forall s, ~ In s l ->
        Hybrid.delay sc' s = Hybrid.delay sc s
        /\ Hybrid.residual sc' s = Hybrid.residual sc s).
Proof.
  induction l as [|x l IH]; intros sc Hnd; cbv zeta; cbn [fold_left].
  - split; [intros s []|]. intros s _. now split.
  - inversion Hnd as [|? ? Hx Hl]; subst.
    destruct (IH (Hybrid.score_service e cs cand sc x) Hl) as [A B].
    assert (forall s, s <> x ->
              Hybrid.delay (Hybrid.score_service e cs cand sc x) s
              = Hybrid.delay sc s
              /\ Hybrid.residual (Hybrid.score_service e cs cand sc x) s
                 = Hybrid.residual sc s) as Hoth.
    { intros s N. unfold Hybrid.score_service.
      destruct (_ =? 0); [|destruct (0 <? _)]; cbn [Hybrid.delay Hybrid.residual];
        unfold upd; apply Nat.eqb_neq in N; rewrite ?N; now split. }
    split.
    + intros s [<-|I].
      * destruct (B x Hx) as [B1 _]. rewrite B1.
        unfold Hybrid.score_service, average_slack.
        destruct (_ =? 0); [|destruct (0 <? _)]; cbn [Hybrid.delay orb];
          rewrite ?upd_same; reflexivity.
      * assert (s <> x) as N by (intro; subst; contradiction).
        rewrite (A s I). destruct (Hoth s N) as [H1 H2]. rewrite H1.
        unfold average_slack. rewrite H2. reflexivity.
    + intros s N. simpl in N.
      destruct (B s) as [B1 B2]; [tauto|].
      destruct (Hoth s) as [H1 H2]; [intro; subst; tauto|].
      split; congruence.
Qed.

Lemma scan_reassign delay sm mu : forall running seen sr rest,
  Hybrid.scan delay sm mu seen running = Hybrid.Reassign sr rest ->
  exists pre u post,
    running = pre ++ (sr, u) :: post
    /\ rest = seen ++ pre ++ post
    /\ sr <> sm
    /\ xlt (delay sm) (delay sr) = true
    /\ xlt (Fin 0) (delay sm) = true.
Proof.
  induction running as [|[s u] running IH]; intros seen sr rest E;
    cbn [Hybrid.scan] in E; [discriminate|].
  destruct (qlt mu u); [discriminate|].
  destruct (Nat.eqb_spec s sm) as [->|N].
  - apply IH in E. destruct E as [pre [u' [post [E1 [E2 H]]]]].
    exists ((sm, u) :: pre), u', post. subst. split; [reflexivity|].
    split; [now rewrite <- app_assoc|exact H].
  - destruct (qle u mu && xlt (delay sm) (delay s) && xlt (Fin 0) (delay sm))
      eqn:C.
    + injection E as <- <-. exists [], u, running.
      apply andb_true_iff in C. destruct C as [C C3].
      apply andb_true_iff in C. destruct C as [_ C2].
      repeat split; assumption.
    + apply IH in E. destruct E as [pre [u' [post [E1 [E2 H]]]]].
      exists ((s, u) :: pre), u', post. subst. split; [reflexivity|].
      split; [now rewrite <- app_assoc|exact H].
Qed.

Lemma reassignments_facts delay : forall missed running,
  NoDup (map fst running) ->
  let pairs := reassignments delay missed running in
  NoDup (map fst pairs)
  /\ sublist (map snd pairs) (map fst missed)
  /\ Forall
       (fun x =>
          In (fst x) (map fst running)
          /\ fst x <> snd x
          /\ xlt (delay (snd x)) (delay (fst x)) = true
          /\ xlt (Fin 0) (delay (snd x)) = true)
       pairs.
Proof.
  induction missed as [|[sm mu] missed IH]; intros running Hnd; cbv zeta;
    cbn [reassignments].
  - split; [constructor|]. split; [constructor|constructor].
  - destruct (Hybrid.scan delay sm mu [] running) as [|sr rest|] eqn:E.
    + split; [constructor|]. split; [apply sublist_nil_l|constructor].
    + apply scan_reassign in E.
      destruct E as [pre [u [post [E1 [E2 [N [D1 D2]]]]]]].
      simpl in E2. subst running rest.
      rewrite map_app in Hnd. cbn [map fst] in Hnd.
      pose proof (NoDup_remove_1 _ _ _ Hnd) as Hnd1.
      pose proof (NoDup_remove_2 _ _ _ Hnd) as Hnot.
      rewrite <- map_app in Hnd1, Hnot.
      destruct (IH (pre ++ post) Hnd1) as [A [B C]].
      split; [|split].
      * cbn [map fst]. constructor; [|exact A].
        intro I. apply Hnot. apply in_map_iff in I.
        destruct I as [x [Ex Ix]].
        rewrite Forall_forall in C. destruct (C x Ix) as [Hin _].
        now rewrite Ex in Hin.
      * cbn [map fst snd]. now apply sublist_keep.
      * constructor.
        -- cbn [fst snd]. split; [|now repeat split].
           rewrite map_app. apply in_or_app. right. now left.
        -- eapply Forall_impl; [|exact C].
           intros x [H1 H2]. split; [|exact H2].
           rewrite map_app in H1 |- *. apply in_app_or in H1.
           apply in_or_app. destruct H1 as [H1|H1]; [now left|right; now right].
    + destruct (IH running Hnd) as [A [B C]].
      split; [exact A|]. split; [|exact C]. cbn [map fst]. now apply sublist_skip.
Qed.

(** X12: The reassignments of HYBRID at one node: no service gives more than one
    VM and no service receives more than one; a VM is taken from a service
    that has instances at the node and given to a different service, whose
    average slack is positive and smaller than that of the service it is
    taken from. *)
Theorem hybrid_reassigns_each_service_once e w node :
  is_cloud (compSpots w node) = false ->
  let cs := compSpots w node in
  let sc := Hybrid.score_node e w node in
  let pairs :=
    reassignments (Hybrid.delay sc)
      (sorted_by by_snd_desc (Hybrid.missed_services_utilisation sc))
      (sorted_by by_snd_asc (Hybrid.running_services_utilisation_normalised sc)) in
  let slack :=
    average_slack cs (deadline_metric w node) (cand_deadline_metric w node) in
  trace (Hybrid.replace_node e w node)
  = trace w ++ Hybrid.complaints sc ++ map (reassign_call e node) pairs
  /\ NoDup (map fst pairs) /\ NoDup (map snd pairs)
  /\ Forall
       (fun x =>
          fst x <> snd x
          /\ 0 < numberOfServiceInstances cs (fst x)
          /\ 0 <= numberOfServiceInstances cs (snd x)
          /\ xlt (Fin 0) (slack (snd x)) = true
          /\ xlt (slack (snd x)) (slack (fst x)) = true)
       pairs.
Proof.
  intros Hc cs sc pairs slack.
  destruct (score_fold_lists e cs (cand_deadline_metric w node)
              (seq 0 (num_services e))
              (Hybrid.mkScores [] [] (fun _ => Inf) (deadline_metric w node) []))
    as [L1 [L2 [L3 L4]]].
  destruct (score_fold_delay e cs (cand_deadline_metric w node)
              (seq 0 (num_services e))
              (Hybrid.mkScores [] [] (fun _ => Inf) (deadline_metric w node) [])
              (seq_NoDup _ _)) as [D1 _].
  cbv zeta in L1, L2, L3, L4, D1.
  change (fold_left _ _ _) with sc in L1, L2, L3, L4, D1.
  cbn [Hybrid.running_services_utilisation_normalised
       Hybrid.missed_services_utilisation Hybrid.delay Hybrid.residual
       map app] in L1, L2, L3, L4, D1.
  assert (NoDup (map fst (sorted_by by_snd_asc
                            (Hybrid.running_services_utilisation_normalised sc))))
    as Hnd by (apply (sorted_ids_NoDup _ _ _ L1)).
  destruct (reassignments_facts (Hybrid.delay sc)
              (sorted_by by_snd_desc (Hybrid.missed_services_utilisation sc))
              _ Hnd) as [A [B C]].
  fold pairs in A, B, C.
  split; [|split; [exact A|split]].
  - unfold Hybrid.replace_node. fold cs. fold cs in Hc. rewrite Hc.
    fold sc. rewrite reassign_loop_trace. simpl. rewrite <- app_assoc.
    reflexivity.
  - eapply sublist_NoDup; [exact B|]. apply (sorted_ids_NoDup _ _ _ L2).
  - apply Forall_forall. intros x I.
    rewrite Forall_forall in C. destruct (C x I) as [Ia [N [S1 S2]]].
    assert (In (snd x)
              (map fst (sorted_by by_snd_desc
                          (Hybrid.missed_services_utilisation sc)))) as Ib.
    { apply (sublist_In _ _ _ B). now apply in_map. }
    apply in_map_iff in Ia, Ib.
    destruct Ia as [[a ua] [Ea Ia]], Ib as [[b ub] [Eb Ib]].
    cbn [fst] in Ea, Eb. subst a b.
    apply (Permutation_in _ (sorted_by_perm _ _)) in Ia, Ib.
    assert (In (fst x) (seq 0 (num_services e))) as Sa.
    { apply (sublist_In _ _ _ L1). apply in_map_iff. now exists (fst x, ua). }
    assert (In (snd x) (seq 0 (num_services e))) as Sb.
    { apply (sublist_In _ _ _ L2). apply in_map_iff. now exists (snd x, ub). }
    destruct (L3 _ _ Ia) as [[]|Pa]. destruct (L4 _ _ Ib) as [[]|Pb].
    rewrite (D1 _ Sa) in S1. rewrite (D1 _ Sb) in S1, S2.
    replace ((numberOfServiceInstances cs (fst x) =? 0)
             || (0 <? numberOfServiceInstances cs (fst x))) with true in S1.
    2:{ symmetry. apply orb_true_iff. right. now apply Z.ltb_lt. }
    replace ((numberOfServiceInstances cs (snd x) =? 0)
             || (0 <? numberOfServiceInstances cs (snd x))) with true in S1, S2.
    2:{ symmetry. apply orb_true_iff.
        destruct (Z.eq_dec (numberOfServiceInstances cs (snd x)) 0) as [E|E].
        - left. now apply Z.eqb_eq.
        - right. apply Z.ltb_lt. lia. }
    repeat split; assumption.
Qed.

(** The spot of [Fixture.torn]: the VM of service 1 goes to service 0. *)
Lemma hybrid_reassigns_each_service_once_witness :
  trace (Hybrid.replace_node Fixture.env Fixture.torn 0)
  = [reassign_call Fixture.env 0 (1, 0)%nat].
Proof.
  destruct (hybrid_reassigns_each_service_once Fixture.env Fixture.torn 0
              eq_refl) as [T _].
  exact T.
Defined.

(* ----------------------------------------------------------------- *)
(** *** MFU and SDF against HYBRID, event by event *)

(** X15: Apart from a REQUEST inside the network, MFU (and SDF, whose handler
    is the same text) handles an event as HYBRID does, with two
    exceptions.  HYBRID counts a late RESPONSE as a missed request of the
    node, and needs a compute spot there.  When the scheduler starts a task
    that is already late, MFU and SDF raise ValueError, after the scheduler
    has run and before the completed task is sent on, where HYBRID prints a
    message and sends it on. *)
Theorem mfu_handles_as_hybrid_unless_late e time receiver service log_ node
  flow_id deadline rtt_delay status w :
  let hybrid :=
    Hybrid.handle e time receiver service log_ node flow_id deadline rtt_delay
      status w in
  let mfu :=
    Mfu.handle e time receiver service log_ node flow_id deadline rtt_delay
      status w in
  (request_inside e receiver service node status = false ->
   late_response e time receiver node deadline status = false ->
   late_task e time service node status w = false ->
   mfu = hybrid)
  /\ (late_response e time receiver node deadline status = true ->
      hybrid
      = do w1 <- mfu;
        do _ <- need_compSpot e node;
        Ok (Hybrid.bump_missed node service w1))
  /\ (late_task e time service node status w = true ->
      mfu
      = Raise (ValueError
                 "This should not happen: a task missed its deadline after being executed at an edge node (non-cloud).")
      /\ exists k w2,
           call_schedule e node time w = (Some k, w2)
           /\ hybrid
              = Hybrid.forward_response e time receiver service node flow_id
                  deadline rtt_delay
                  (log (print "Error in Hybrid: Time: ")
                     (log (execute_service (Task.flow_id k) (Task.service k)
                             (cs_node (compSpots w2 node)) time
                             (is_cloud (compSpots w2 node)))
                        (log (add_event (Task.completionTime k)
                                (Task.receiver k) (Task.service k) node
                                (Task.flow_id k) (Task.expiry k)
                                (Task.rtt_delay k) TASK_COMPLETE) w2)))).
Proof.
  intros hybrid mfu. subst hybrid mfu.
  unfold Hybrid.handle, Mfu.handle, request_inside, late_response, late_task.
  destruct (Z.eqb_spec status REQUEST) as [H0|H0].
  - subst status. cbn [andb Z.eqb REQUEST RESPONSE TASK_COMPLETE].
    rewrite !andb_true_r.
    destruct (Nat.eqb (content_source e service) node); cbn [negb andb].
    + split; [reflexivity|]. split; discriminate.
    + destruct (Nat.eqb receiver node); cbn [negb].
      * split; [reflexivity|]. split; discriminate.
      * split; [discriminate|]. split; discriminate.
  - rewrite !andb_false_r. cbn [andb].
    destruct (Z.eqb_spec status RESPONSE) as [H1|H1].
    + subst status. cbn [andb Z.eqb RESPONSE TASK_COMPLETE].
      destruct (Nat.eqb node receiver); cbn [negb andb].
      * split; [reflexivity|]. split; discriminate.
      * destruct (qlt deadline (path_delay e node receiver + time)).
        -- split; [discriminate|]. split; [|discriminate]. reflexivity.
        -- split; [|split; discriminate]. intros _ _ _.
           destruct (Hybrid.forward_response _ _ _ _ _ _ _ _ _); reflexivity.
    + cbn [andb].
      destruct (Z.eqb_spec status TASK_COMPLETE) as [H2|H2].
      * subst status. cbn [andb].
        unfold Hybrid.handle_task_complete, Mfu.handle_task_complete,
          need_compSpot.
        destruct (Nat.eqb node (content_source e service)); cbn [negb andb].
        -- split; [reflexivity|]. split; discriminate.
        -- destruct (has_computationalSpot e node); cbn [bind andb].
           ++ destruct (call_schedule e node time w) as [[k|] w2]; cbn [fst].
              ** destruct (qlt (Task.expiry k)
                             (time + path_delay e node (Task.receiver k))).
                 --- split; [discriminate|]. split; [discriminate|].
                     intros _. split; [reflexivity|].
                     exists k, w2. split; reflexivity.
                 --- split; [reflexivity|]. split; discriminate.
              ** split; [reflexivity|]. split; discriminate.
           ++ split; [reflexivity|]. split; discriminate.
      * cbn [andb]. split; [reflexivity|]. split; discriminate.
Qed.

(** A RESPONSE at edge node 0 at time 5 with deadline 3 for receiver 10:
    HYBRID sends it on as MFU does and counts a missed request. *)
Lemma mfu_handles_as_hybrid_unless_late_witness :
  exists w1,
    Mfu.handle Fixture.env 5 10 0 true 0 1 3 2 RESPONSE Fixture.started = Ok w1
    /\ Hybrid.handle Fixture.env 5 10 0 true 0 1 3 2 RESPONSE Fixture.started
       = Ok (Hybrid.bump_missed 0 0 w1).
Proof.
  assert (exists w1,
            Mfu.handle Fixture.env 5 10 0 true 0 1 3 2 RESPONSE Fixture.started
            = Ok w1) as [w1 E]
    by (eexists; vm_compute; reflexivity).
  exists w1. split; [exact E|].
  destruct (mfu_handles_as_hybrid_unless_late Fixture.env 5 10 0 true 0 1 3 2
              RESPONSE Fixture.started) as [_ [H _]].
  rewrite H by reflexivity. rewrite E. reflexivity.
Defined.

(* ----------------------------------------------------------------- *)
(** *** The replacement clock *)

Lemma clock_bind q (r : result World) (k : World -> result World) :
  clock_at q r ->
  (forall w1, last_replacement w1 = q -> clock_at q (k w1)) ->
  clock_at q (do w1 <- r; k w1).
Proof. destruct r as [w1|x]; simpl; [|trivial]. intros H K. now apply K. Qed.

Lemma call_admit_task_clock e node service time flow_id deadline receiver
  rtt_delay w :
  last_replacement
    (snd (call_admit_task e node service time flow_id deadline receiver
            rtt_delay w))
  = last_replacement w.
Proof.
  unfold call_admit_task. destruct (admit_task _ _ _ _ _ _ _ _ _). reflexivity.
Qed.

Lemma call_schedule_clock e node time w :
  last_replacement (snd (call_schedule e node time w)) = last_replacement w.
Proof. unfold call_schedule. destruct (schedule _ _ _ _). reflexivity. Qed.

Lemma probe_clock e receiver flow_id time service deadline rtt_delay n w o :
  Coordinated.probe e receiver flow_id time service deadline rtt_delay n w = Ok o ->
  match o with
  | Coordinated.Skipped => True
  | Coordinated.Rejected w' | Coordinated.Accepted w' =>
      last_replacement w' = last_replacement w
  end.
Proof.
  unfold Coordinated.probe.
  destruct (need_service_node e n); cbn [bind]; [|discriminate].
  destruct (Coordinated.candidate _ _ _ _ _ _ _ _).
  - cbv zeta. destruct (existsb _ _).
    + destruct (Coordinated.remove_task _ _); [|discriminate].
      intro E. inversion E; subst. reflexivity.
    + intro E. inversion E; subst. reflexivity.
  - intro E. inversion E; subst. exact I.
Qed.

Lemma probe_loop_clock e receiver flow_id time service deadline rtt_delay source :
  forall nodes w r w',
    Coordinated.probe_loop e receiver flow_id time service deadline rtt_delay
      source nodes w = Ok (r, w') ->
    last_replacement w' = last_replacement w.
Proof.
  induction nodes as [|n nodes IH]; intros w r w' E;
    cbn [Coordinated.probe_loop] in E.
  - inversion E; subst. reflexivity.
  - destruct (Coordinated.probe e receiver flow_id time service deadline
                rtt_delay n w) as [o|x] eqn:Ep; cbn [bind] in E; [|discriminate].
    apply probe_clock in Ep. destruct o as [|w1|w1].
    + now apply IH in E.
    + apply IH in E. congruence.
    + inversion E; subst. exact Ep.
Qed.

Lemma account_clock e receiver service path w :
  clock_at (last_replacement w)
    (Coordinated.account e receiver service path w).
Proof.
  destruct (Coordinated.account e receiver service path w) as [w'|x] eqn:E;
    cbn [clock_at]; [|exact I].
  unfold Coordinated.account in E.
  refine (foldM_inv _ (fun x => last_replacement x = last_replacement w)
            _ _ _ _ E eq_refl).
  intros a n a' Ea Ha. destruct (need_compSpot e n); cbn [bind] in Ea;
    [|discriminate].
  destruct (is_cloud _); inversion Ea; subst; exact Ha.
Qed.

Lemma run_next_clock e node time w :
  last_replacement (Coordinated.run_next e node time w) = last_replacement w.
Proof.
  unfold Coordinated.run_next.
  pose proof (call_schedule_clock e node time w) as T.
  destruct (call_schedule e node time w) as [[k|] w1]; exact T.
Qed.

Lemma coordinated_handle_clock e time receiver service log_ node flow_id
  deadline rtt_delay status w :
  clock_at (last_replacement w)
    (Coordinated.handle e time receiver service log_ node flow_id deadline
       rtt_delay status w).
Proof.
  unfold Coordinated.handle.
  destruct (Nat.eqb receiver node && (status =? REQUEST)).
  - destruct (Coordinated.find_topmost_feasible_node _ _ _ _ _ _ _ _ _)
      as [[upstream w2]|x] eqn:Ef; cbn [bind clock_at]; [|exact I].
    apply probe_loop_clock in Ef. cbn [log set_trace last_replacement] in Ef.
    match goal with
    | |- clock_at _ (Coordinated.account _ _ _ _ ?x) =>
        replace (last_replacement w) with (last_replacement x)
          by (now destruct (negb _))
    end.
    apply account_clock.
  - destruct (_ && _).
    + destruct (need_compSpot e node); cbn [bind clock_at]; [|exact I].
      destruct (existsb _ _); cbn [clock_at]; [apply run_next_clock|exact I].
    + destruct (status =? TASK_COMPLETE).
      * destruct (need_compSpot e node); cbn [bind clock_at]; [|exact I].
        apply run_next_clock.
      * destruct (_ && _); cbn [clock_at]; [reflexivity|exact I].
Qed.

Lemma lru_install_clock e time service node deadline rtt_delay delay w :
  clock_at (last_replacement w)
    (Lru.install e time service node deadline rtt_delay delay w).
Proof.
  unfold Lru.install. destruct (qlt _ _); [exact I|].
  destruct (Qeq_bool (p e) 1); [reflexivity|].
  destruct (qle _ _); reflexivity.
Qed.

Lemma lru_handle_clock e time receiver service log_ node flow_id deadline
  rtt_delay status w :
  clock_at (last_replacement w)
    (Lru.handle e time receiver service log_ node flow_id deadline rtt_delay
       status w).
Proof.
  unfold Lru.handle.
  destruct (Nat.eqb receiver node && (status =? REQUEST)).
  { destruct (second _); cbn [bind clock_at]; [reflexivity|exact I]. }
  destruct (negb (has_computationalSpot e node) && negb (status =? RESPONSE)).
  { destruct (Nat.eqb node (content_source e service)); [reflexivity|].
    destruct (second _); cbn [bind clock_at]; [reflexivity|exact I]. }
  destruct (status =? RESPONSE).
  { destruct (Nat.eqb node receiver); [reflexivity|].
    destruct (second _); cbn [bind clock_at]; [reflexivity|exact I]. }
  destruct (status =? TASK_COMPLETE).
  { pose proof (call_schedule_clock e node time w) as T.
    destruct (call_schedule e node time w) as [task w1]. cbn [snd] in T.
    destruct (second _); cbn [bind clock_at]; [|exact I].
    destruct (_ && _), task; exact T. }
  destruct (status =? REQUEST); [|reflexivity].
  unfold Lru.handle_request.
  destruct (second _) as [next|]; cbn [bind clock_at]; [|exact I].
  pose proof (call_admit_task_clock e node service time flow_id deadline receiver
                rtt_delay w) as T.
  destruct (call_admit_task _ _ _ _ _ _ _ _ _) as [[ret reason] w1].
  cbn [snd] in T. destruct ret; cbn [negb clock_at]; [exact T|].
  destruct (reason =? NO_INSTANCES); [|exact T].
  pose proof (lru_install_clock e time service node deadline rtt_delay
                (path_delay e node next) w1) as C.
  destruct (Lru.install _ _ _ _ _ _ _ _); cbn [bind clock_at] in C |- *;
    [|exact I].
  cbn [log set_trace last_replacement]. congruence.
Qed.

Lemma forward_response_clock e time receiver service node flow_id deadline
  rtt_delay w :
  clock_at (last_replacement w)
    (Hybrid.forward_response e time receiver service node flow_id deadline
       rtt_delay w).
Proof.
  unfold Hybrid.forward_response.
  destruct (second _); cbn [bind clock_at]; [reflexivity|exact I].
Qed.

Lemma add_cand_clock node service m w :
  last_replacement (Hybrid.add_cand node service m w) = last_replacement w.
Proof. unfold Hybrid.add_cand. now destruct (qlt 0 m). Qed.

Lemma add_metric_clock node service m w :
  last_replacement (Hybrid.add_metric node service m w) = last_replacement w.
Proof. unfold Hybrid.add_metric. now destruct (qlt 0 m). Qed.

Lemma at_cloud_clock e time receiver service node flow_id deadline rtt_delay w :
  clock_at (last_replacement w)
    (Hybrid.at_cloud e time receiver service node flow_id deadline rtt_delay w).
Proof.
  unfold Hybrid.at_cloud.
  destruct (need_compSpot e node); cbn [bind clock_at]; [|exact I].
  pose proof (call_admit_task_clock e node service time flow_id deadline receiver
                rtt_delay w) as T.
  destruct (call_admit_task _ _ _ _ _ _ _ _ _) as [[ret reason] w1].
  destruct ret; cbn [negb clock_at]; [exact T|exact I].
Qed.

Lemma at_receiver_clock e time receiver service log_ node flow_id deadline
  rtt_delay w :
  clock_at (last_replacement w)
    (Hybrid.at_receiver e time receiver service log_ node flow_id deadline
       rtt_delay w).
Proof.
  unfold Hybrid.at_receiver.
  destruct (second _); cbn [bind clock_at]; [reflexivity|exact I].
Qed.

Lemma hybrid_handle_request_clock e time receiver service node flow_id deadline
  rtt_delay w :
  clock_at (last_replacement w)
    (Hybrid.handle_request e time receiver service node flow_id deadline
       rtt_delay w).
Proof.
  unfold Hybrid.handle_request.
  destruct (second _); cbn [bind clock_at]; [|exact I].
  destruct (need_compSpot e node); cbn [bind clock_at]; [|exact I].
  destruct (has_service e w node service).
  - pose proof (call_admit_task_clock e node service time flow_id deadline
                  receiver rtt_delay w) as T.
    destruct (call_admit_task _ _ _ _ _ _ _ _ _) as [[ret reason] w1].
    cbn [snd] in T. destruct ret; cbn [negb clock_at].
    + now rewrite add_metric_clock.
    + now rewrite add_cand_clock.
  - cbn [clock_at]. now rewrite add_cand_clock.
Qed.

Lemma mfu_handle_request_clock e time receiver service node flow_id deadline
  rtt_delay w :
  clock_at (last_replacement w)
    (Mfu.handle_request e time receiver service node flow_id deadline
       rtt_delay w).
Proof.
  unfold Mfu.handle_request.
  destruct (second _); cbn [bind clock_at]; [|exact I].
  destruct (need_compSpot e node); cbn [bind clock_at]; [|exact I].
  destruct (Qeq_bool deadline 0); [exact I|].
  destruct (has_service e w node service).
  - pose proof (call_admit_task_clock e node service time flow_id deadline
                  receiver rtt_delay w) as T.
    destruct (call_admit_task _ _ _ _ _ _ _ _ _) as [[ret reason] w1].
    cbn [snd] in T. destruct ret; cbn [negb clock_at].
    + now rewrite add_metric_clock.
    + now rewrite add_cand_clock.
  - cbn [clock_at]. now rewrite add_cand_clock.
Qed.

Lemma hybrid_handle_task_complete_clock e time receiver service node flow_id
  deadline rtt_delay w :
  clock_at (last_replacement w)
    (Hybrid.handle_task_complete e time receiver service node flow_id deadline
       rtt_delay w).
Proof.
  unfold Hybrid.handle_task_complete.
  apply clock_bind.
  - destruct (negb _); [|reflexivity].
    destruct (need_compSpot e node); cbn [bind clock_at]; [|exact I].
    pose proof (call_schedule_clock e node time w) as T.
    destruct (call_schedule e node time w) as [[k|] w1]; [|exact T].
    destruct (qlt _ _); exact T.
  - intros w1 <-. apply forward_response_clock.
Qed.

Lemma mfu_handle_task_complete_clock e time receiver service node flow_id
  deadline rtt_delay w :
  clock_at (last_replacement w)
    (Mfu.handle_task_complete e time receiver service node flow_id deadline
       rtt_delay w).
Proof.
  unfold Mfu.handle_task_complete.
  apply clock_bind.
  - destruct (negb _); [|reflexivity].
    destruct (need_compSpot e node); cbn [bind clock_at]; [|exact I].
    pose proof (call_schedule_clock e node time w) as T.
    destruct (call_schedule e node time w) as [[k|] w1]; [|exact T].
    destruct (qlt _ _); [exact I|exact T].
  - intros w1 <-. apply forward_response_clock.
Qed.

Lemma hybrid_handle_clock e time receiver service log_ node flow_id deadline
  rtt_delay status w :
  clock_at (last_replacement w)
    (Hybrid.handle e time receiver service log_ node flow_id deadline rtt_delay
       status w).
Proof.
  unfold Hybrid.handle.
  destruct (_ && _); [apply at_cloud_clock|].
  destruct (_ && _); [apply at_receiver_clock|].
  destruct (status =? RESPONSE).
  { destruct (Nat.eqb node receiver); [reflexivity|].
    apply clock_bind; [apply forward_response_clock|].
    intros w1 H. destruct (qlt _ _); [|exact H].
    destruct (need_compSpot e node); cbn [bind clock_at]; [exact H|exact I]. }
  destruct (status =? TASK_COMPLETE); [apply hybrid_handle_task_complete_clock|].
  destruct (status =? REQUEST); [apply hybrid_handle_request_clock|].
  reflexivity.
Qed.

Lemma mfu_handle_clock e time receiver service log_ node flow_id deadline
  rtt_delay status w :
  clock_at (last_replacement w)
    (Mfu.handle e time receiver service log_ node flow_id deadline rtt_delay
       status w).
Proof.
  unfold Mfu.handle.
  destruct (_ && _); [apply at_cloud_clock|].
  destruct (_ && _); [apply at_receiver_clock|].
  destruct (status =? RESPONSE).
  { destruct (Nat.eqb node receiver); [reflexivity|].
    apply forward_response_clock. }
  destruct (status =? TASK_COMPLETE); [apply mfu_handle_task_complete_clock|].
  destruct (status =? REQUEST); [apply mfu_handle_request_clock|].
  reflexivity.
Qed.

Lemma coordinated_periodic_clock e time flow_id w :
  clock_at (clock_after e time w) (Coordinated.periodic e time flow_id w).
Proof.
  unfold Coordinated.periodic, clock_after.
  destruct (replacement_due e time w); [|reflexivity].
  destruct (Coordinated.replace_services _ _ _); cbn [bind clock_at]; [|exact I].
  now rewrite (proj1 (coordinated_initialise_last e _)).
Qed.

(** X16: [self.last_replacement] moves in one place only.  When an event has
    been processed, by any of the five strategies, the clock stands at the
    time of the event if the interval had run out, and where it stood
    otherwise: no handler touches it.  So two replacement passes are more
    than [replacement_interval] of event time apart. *)
Theorem replacement_clock_moves_when_due e time receiver service log_ node
  flow_id deadline rtt_delay status w :
  let keeps_time r := clock_at (clock_after e time w) r in
  keeps_time
    (Coordinated.process_event e time receiver service log_ node flow_id
       deadline rtt_delay status w)
  /\ keeps_time
       (Lru.process_event e time receiver service log_ node flow_id deadline
          rtt_delay status w)
  /\ keeps_time
       (Hybrid.process_event e time receiver service log_ node flow_id deadline
          rtt_delay status w)
  /\ keeps_time
       (Mfu.process_event e time receiver service log_ node flow_id deadline
          rtt_delay status w)
  /\ keeps_time
       (Sdf.process_event e time receiver service log_ node flow_id deadline
          rtt_delay status w).
Proof.
  intro keeps_time. subst keeps_time. unfold clock_after.
  split; [|split; [|split; [|split]]].
  - unfold Coordinated.process_event. apply clock_bind.
    + apply coordinated_periodic_clock.
    + intros w1 <-. apply coordinated_handle_clock.
  - unfold Lru.process_event.
    replace (if replacement_due e time w then time else last_replacement w)
      with (last_replacement (Lru.periodic e time flow_id w));
      [apply lru_handle_clock|].
    unfold Lru.periodic. destruct (replacement_due e time w); [|reflexivity].
    now rewrite (proj1 (lru_initialise_last e _)).
  - unfold Hybrid.process_event.
    replace (if replacement_due e time w then time else last_replacement w)
      with (last_replacement (Hybrid.periodic e time flow_id w));
      [apply hybrid_handle_clock|].
    unfold Hybrid.periodic. destruct (replacement_due e time w); [|reflexivity].
    now rewrite (proj1 (hybrid_initialise_last e _)).
  - unfold Mfu.process_event.
    replace (if replacement_due e time w then time else last_replacement w)
      with (last_replacement (Mfu.periodic e time flow_id w));
      [apply mfu_handle_clock|].
    unfold Mfu.periodic. destruct (replacement_due e time w); [|reflexivity].
    unfold Mfu.initialise_metrics.
    now rewrite (proj1 (hybrid_initialise_last e _)).
  - unfold Sdf.process_event, Sdf.handle.
    replace (if replacement_due e time w then time else last_replacement w)
      with (last_replacement (Sdf.periodic e time flow_id w));
      [apply mfu_handle_clock|].
    unfold Sdf.periodic. destruct (replacement_due e time w); [|reflexivity].
    unfold Sdf.initialise_metrics.
    now rewrite (proj1 (hybrid_initialise_last e _)).
Qed.

(** The event at time 20 in the idle fixture, with an interval of 10: the
    clock of LRU is set to 20. *)
Lemma replacement_clock_moves_when_due_witness :
  exists w',
    Lru.process_event Fixture.env 20 10 0 true 10 1 30 0 REQUEST Fixture.idle
    = Ok w'
    /\ last_replacement w' = 20%Q.
Proof.
  assert (exists w',
            Lru.process_event Fixture.env 20 10 0 true 10 1 30 0 REQUEST
              Fixture.idle = Ok w') as [w' E]
    by (eexists; vm_compute; reflexivity).
  exists w'. split; [exact E|].
  destruct (replacement_clock_moves_when_due Fixture.env 20 10 0 true 10 1 30 0
              REQUEST Fixture.idle) as [_ [H _]].
  rewrite E in H. exact H.
Defined.

(* ----------------------------------------------------------------- *)
(** *** What can go wrong in COORDINATED, and the request that goes right *)
















